(** * f2: conflict detection, auto-fix and the apply/commit/undo pipeline

    A shallow embedding of [validation.go] (the conflict engine) and of the
    apply / commit / undo part of the operation file, together with the
    properties of the specification that were checked against them.

    Go strings are byte strings: they are modelled by [string] (a list of
    8-bit [ascii] characters).  Go's [int] is a 64-bit integer modelled by
    [Z] with its wrap-around written out.  Loops that the source writes as
    [for { ... }] or that step their own index back are modelled with an
    explicit fuel argument and the three-valued [result] type. *)

From Stdlib Require Import ZArith List Ascii String Lia Bool Arith Sorted DecimalString.
From Stdlib Require DecimalPos.
From stdpp Require Import base option list gmap strings.

Local Open Scope string_scope.
Local Open Scope list_scope.
Local Open Scope Z_scope.

(** ** Results of possibly failing, possibly diverging computations *)

Inductive result (A : Type) : Type :=
| Ok (a : A)
| Panic          (* a Go run-time panic (slice bounds out of range) *)
| OutOfFuel.     (* the loop did not finish within the given fuel *)

Arguments Ok {A} a.
Arguments Panic {A}.
Arguments OutOfFuel {A}.

Definition rbind {A B : Type} (r : result A) (k : A -> result B) : result B :=
  match r with
  | Ok a => k a
  | Panic => Panic
  | OutOfFuel => OutOfFuel
  end.

Notation "x <~ r ; k" := (rbind r (fun x => k))
  (at level 20, r at level 100, k at level 200, only parsing).

Definition is_Ok {A : Type} (r : result A) : bool :=
  match r with Ok _ => true | _ => false end.

(** ** Byte strings *)

Module GoString.

Definition bytes (s : string) : list ascii := list_ascii_of_string s.
Definition str (l : list ascii) : string := string_of_list_ascii l.

(** [len(s)]: the number of bytes. *)
Definition len (s : string) : nat := String.length s.

Definition eqb (a b : string) : bool := String.eqb a b.

(** [strings.Contains(s, string(c))] for a one-byte needle. *)
Fixpoint containsByte (c : ascii) (s : string) : bool :=
  match s with
  | EmptyString => false
  | String d s' => Ascii.eqb c d || containsByte c s'
  end.

(** [strings.ReplaceAll(s, string(c), "")] for a one-byte needle. *)
Fixpoint removeByte (c : ascii) (s : string) : string :=
  match s with
  | EmptyString => EmptyString
  | String d s' => if Ascii.eqb c d then removeByte c s' else String d (removeByte c s')
  end.

(** [strings.ReplaceAll(s, string(c), string(d))] for one-byte strings. *)
Fixpoint replaceByte (c d : ascii) (s : string) : string :=
  match s with
  | EmptyString => EmptyString
  | String e s' => String (if Ascii.eqb c e then d else e) (replaceByte c d s')
  end.

(** [strings.TrimSuffix(s, suffix)]. *)
Definition trimSuffix (s suffix : string) : string :=
  let n := String.length s in
  let k := String.length suffix in
  if (k <=? n)%nat && String.eqb (substring (n - k) k s) suffix
  then substring 0 (n - k) s
  else s.

Fixpoint takeWhile (f : ascii -> bool) (l : list ascii) : list ascii :=
  match l with
  | d :: l' => if f d then d :: takeWhile f l' else []
  | [] => []
  end.

Fixpoint dropWhile (f : ascii -> bool) (l : list ascii) : list ascii :=
  match l with
  | d :: l' => if f d then dropWhile f l' else l
  | [] => []
  end.

(** [strings.TrimRight(s, string(c))]: drop every trailing [c]. *)
Definition trimRightByte (c : ascii) (s : string) : string :=
  str (rev (dropWhile (Ascii.eqb c) (rev (bytes s)))).

(** [strings.Split(s, string(c))] for a one-byte separator: always at
    least one field. *)
Fixpoint splitByte (c : ascii) (s : string) : list string :=
  match s with
  | EmptyString => [EmptyString]
  | String d s' =>
      match splitByte c s' with
      | f :: fs => if Ascii.eqb c d then EmptyString :: f :: fs
                   else String d f :: fs
      | [] => [EmptyString]
      end
  end.

(** [strings.Join(fields, sep)]. *)
Fixpoint join (fields : list string) (sep : string) : string :=
  match fields with
  | [] => EmptyString
  | [f] => f
  | f :: fs => f +:+ sep +:+ join fs sep
  end.

End GoString.

(** ** Machine integers and their decimal rendering *)

Module GoInt.

(** Go's [int] on the supported 64-bit targets: two's complement
    wrap-around into [-2^63, 2^63). *)
Definition maxInt : Z := 2 ^ 63 - 1.

Definition wrap (z : Z) : Z := (z + 2 ^ 63) mod 2 ^ 64 - 2 ^ 63.

(** [n++] *)
Definition incr (n : Z) : Z := wrap (n + 1).

(** [strconv.Itoa] *)
Definition Itoa (n : Z) : string := NilZero.string_of_int (Z.to_int n).

Definition isDigit (c : ascii) : bool :=
  let n := nat_of_ascii c in (48 <=? n)%nat && (n <=? 57)%nat.

Definition digitVal (c : ascii) : Z := Z.of_nat (nat_of_ascii c) - 48.

(** The value of a run of decimal digits, most significant first. *)
Definition digitsVal (ds : list ascii) : Z :=
  fold_left (fun acc c => 10 * acc + digitVal c) ds 0.

End GoInt.

(** ** UTF-8: the conversions [[]rune(s)] and [string(runes)] *)

Module Utf8.

Definition byteZ (c : ascii) : Z := Z.of_N (N_of_ascii c).
Definition Zbyte (z : Z) : ascii := ascii_of_N (Z.to_N z).

Definition RuneError : Z := 65533.      (* U+FFFD *)
Definition MaxRune : Z := 1114111.      (* U+10FFFF *)

Definition between (lo hi b : Z) : bool := (lo <=? b) && (b <=? hi).

(** The [first] table of Go's [unicode/utf8]: for a lead byte, the size
    of the sequence and the range accepted for the second byte; [None]
    for a byte that cannot start a multi-byte sequence. *)
Definition first (s0 : Z) : option (nat * Z * Z) :=
  if between 194 223 s0 then Some (2%nat, 128, 191)
  else if s0 =? 224 then Some (3%nat, 160, 191)
  else if between 225 236 s0 then Some (3%nat, 128, 191)
  else if s0 =? 237 then Some (3%nat, 128, 159)
  else if between 238 239 s0 then Some (3%nat, 128, 191)
  else if s0 =? 240 then Some (4%nat, 144, 191)
  else if between 241 243 s0 then Some (4%nat, 128, 191)
  else if s0 =? 244 then Some (4%nat, 128, 143)
  else None.

(** [utf8.DecodeRuneInString]: the rune and the number of bytes it
    takes; an invalid sequence decodes to [RuneError] with width 1. *)
Definition DecodeRune (s : list ascii) : Z * nat :=
  match s with
  | [] => (RuneError, 0%nat)
  | c0 :: t =>
      let s0 := byteZ c0 in
      if s0 <? 128 then (s0, 1%nat)
      else match first s0 with
           | None => (RuneError, 1%nat)
           | Some (sz, lo, hi) =>
               if (length s <? sz)%nat then (RuneError, 1%nat)
               else
                 let s1 := byteZ (nth 0 t zero) in
                 if negb (between lo hi s1) then (RuneError, 1%nat)
                 else if (sz <=? 2)%nat
                      then ((s0 mod 32) * 64 + s1 mod 64, 2%nat)
                 else
                   let s2 := byteZ (nth 1 t zero) in
                   if negb (between 128 191 s2) then (RuneError, 1%nat)
                   else if (sz <=? 3)%nat
                        then ((s0 mod 16) * 4096 + (s1 mod 64) * 64
                              + s2 mod 64, 3%nat)
                   else
                     let s3 := byteZ (nth 2 t zero) in
                     if negb (between 128 191 s3) then (RuneError, 1%nat)
                     else ((s0 mod 8) * 262144 + (s1 mod 64) * 4096
                           + (s2 mod 64) * 64 + s3 mod 64, 4%nat)
           end
  end.

(** [[]rune(s)]: decode rune after rune.  Every step consumes at least
    one byte, so the byte length is enough fuel. *)
Fixpoint runesFuel (fuel : nat) (s : list ascii) : list Z :=
  match fuel with
  | O => []
  | S fuel' =>
      match s with
      | [] => []
      | _ => let '(r, sz) := DecodeRune s in r :: runesFuel fuel' (skipn sz s)
      end
  end.

Definition runes (s : string) : list Z :=
  runesFuel (String.length s) (list_ascii_of_string s).

(** [utf8.AppendRune]: surrogates and values out of range are encoded
    as [RuneError]. *)
Definition EncodeRune (r : Z) : list ascii :=
  if between 0 127 r then [Zbyte r]
  else if between 128 2047 r then [Zbyte (192 + r / 64); Zbyte (128 + r mod 64)]
  else if between 2048 65535 r && negb (between 55296 57343 r) then
    [Zbyte (224 + r / 4096); Zbyte (128 + (r / 64) mod 64); Zbyte (128 + r mod 64)]
  else if between 65536 MaxRune r then
    [Zbyte (240 + r / 262144); Zbyte (128 + (r / 4096) mod 64);
     Zbyte (128 + (r / 64) mod 64); Zbyte (128 + r mod 64)]
  else [Zbyte 239; Zbyte 191; Zbyte 189].

(** [string(runes)] *)
Definition encode (rs : list Z) : string :=
  string_of_list_ascii (concat (map EncodeRune rs)).

(** [utf16.RuneLen]-style count: the number of UTF-16 code units of a
    string (used only to state the specification's wording). *)
Definition utf16Len (s : string) : nat :=
  fold_right (fun r n => if r <? 65536 then S n else S (S n)) O (runes s).

End Utf8.

(** ** Go's [path/filepath]

    The lexical path functions the engine calls.  [Base] and [Ext] are
    written once over the platform's separator test and volume-name length;
    [Clean], [Dir] and [Join] are given for the slash-separated platforms
    (Linux, macOS), where a path has no volume name. *)

Module Filepath.

Definition dot : ascii := "."%char.

Section Lexical.
Variable isSep : ascii -> bool.
Variable Separator : ascii.
Variable volumeNameLen : list ascii -> nat.

(** [filepath.Base] *)
Definition Base (path : string) : string :=
  match path with
  | EmptyString => "."
  | _ =>
      let stripped := rev (GoString.dropWhile isSep
                                     (rev (list_ascii_of_string path))) in
      let p := skipn (volumeNameLen stripped) stripped in
      let last := rev (GoString.takeWhile (fun c => negb (isSep c)) (rev p)) in
      match last with
      | [] => String Separator EmptyString
      | _ => string_of_list_ascii last
      end
  end.

(** The loop of [filepath.Ext], walking the reversed path. *)
Fixpoint extRev (r acc : list ascii) : list ascii :=
  match r with
  | [] => []
  | c :: r' =>
      if isSep c then []
      else if Ascii.eqb c dot then dot :: acc
      else extRev r' (c :: acc)
  end.

(** [filepath.Ext] *)
Definition Ext (path : string) : string :=
  string_of_list_ascii (extRev (rev (list_ascii_of_string path)) []).

(** The backtracking step of [Clean] on a [..] element; [out] is the
    output buffer, last byte first. *)
Fixpoint backtrack (out : list ascii) (dotdot : nat) : list ascii :=
  match out with
  | [] => []
  | c :: rest =>
      if (dotdot <? length rest)%nat && negb (isSep c)
      then backtrack rest dotdot
      else rest
  end.

Definition atElemEnd (p : list ascii) : bool :=
  match p with
  | [] => true
  | c :: _ => isSep c
  end.

(** The main loop of [filepath.Clean] over the unread part [p] of the
    path. *)
Fixpoint cleanLoop (fuel : nat) (rooted : bool) (p out : list ascii)
         (dotdot : nat) : list ascii :=
  match fuel with
  | O => out
  | S fuel' =>
      match p with
      | [] => out
      | c :: p1 =>
          if isSep c then cleanLoop fuel' rooted p1 out dotdot
          else if Ascii.eqb c dot && atElemEnd p1
               then cleanLoop fuel' rooted p1 out dotdot
          else if Ascii.eqb c dot
                  && match p1 with
                     | d :: p2 => Ascii.eqb d dot && atElemEnd p2
                     | [] => false
                     end
               then
                 let p2 := tl p1 in
                 if (dotdot <? length out)%nat
                 then cleanLoop fuel' rooted p2 (backtrack out dotdot) dotdot
                 else if negb rooted
                      then
                        let out1 := if (0 <? length out)%nat
                                    then Separator :: out else out in
                        let out2 := dot :: dot :: out1 in
                        cleanLoop fuel' rooted p2 out2 (length out2)
                      else cleanLoop fuel' rooted p2 out dotdot
          else
            let out1 :=
              if (rooted && negb (length out =? 1)%nat)
                 || (negb rooted && negb (length out =? 0)%nat)
              then Separator :: out else out in
            let elem := GoString.takeWhile (fun c => negb (isSep c)) p in
            let rest := GoString.dropWhile (fun c => negb (isSep c)) p in
            cleanLoop fuel' rooted rest (rev elem ++ out1) dotdot
      end
  end.

(** [filepath.Clean] for a path without a volume name. *)
Definition Clean (path : string) : string :=
  match list_ascii_of_string path with
  | [] => "."
  | c :: p1 =>
      let rooted := isSep c in
      let out :=
        if rooted
        then cleanLoop (S (length p1)) true p1 [Separator] 1
        else cleanLoop (S (S (length p1))) false (c :: p1) [] 0 in
      match out with
      | [] => "."
      | _ => string_of_list_ascii (rev out)
      end
  end.

(** [filepath.Dir] for a path without a volume name. *)
Definition Dir (path : string) : string :=
  let r := GoString.dropWhile (fun c => negb (isSep c))
                     (rev (list_ascii_of_string path)) in
  Clean (string_of_list_ascii (rev r)).

(** [filepath.Join]: the first non-empty element and everything after
    it, joined by the separator and cleaned. *)
Fixpoint Join (elem : list string) : string :=
  match elem with
  | [] => ""
  | e :: rest =>
      match e with
      | EmptyString => Join rest
      | _ => Clean (GoString.join elem (String Separator EmptyString))
      end
  end.

End Lexical.

Module Unix.
Definition isSep (c : ascii) : bool := Ascii.eqb c "/"%char.
Definition Separator : ascii := "/"%char.
Definition volumeNameLen (_ : list ascii) : nat := O.

Definition Base := Filepath.Base isSep Separator volumeNameLen.
Definition Ext := Filepath.Ext isSep.
Definition Clean := Filepath.Clean isSep Separator.
Definition Dir := Filepath.Dir isSep Separator.
Definition Join := Filepath.Join isSep Separator.
End Unix.

Module Windows.
Definition isSep (c : ascii) : bool :=
  Ascii.eqb c "\"%char || Ascii.eqb c "/"%char.
Definition Separator : ascii := "\"%char.

Definition isLetter (c : ascii) : bool :=
  let n := nat_of_ascii c in
  ((97 <=? n) && (n <=? 122) || (65 <=? n) && (n <=? 90))%nat.

(** The share part of a UNC prefix [\\server\share]: [p] starts at
    index 3 of the path, [n] is the index of its head. *)
Fixpoint uncLen (p : list ascii) (n : nat) : nat :=
  match p with
  | c :: ((d :: _) as p') =>
      if isSep c
      then if isSep d || Ascii.eqb d dot then O
           else (S n + length (GoString.takeWhile (fun c => negb (isSep c)) p'))%nat
      else uncLen p' (S n)
  | _ => O
  end.

(** [volumeNameLen] of Go's Windows [filepath]: a drive letter with
    its colon, or a UNC prefix. *)
Definition volumeNameLen (path : list ascii) : nat :=
  match path with
  | c0 :: c1 :: rest =>
      if Ascii.eqb c1 ":"%char && isLetter c0 then 2%nat
      else match rest with
           | c2 :: rest3 =>
               if (5 <=? length path)%nat && isSep c0 && isSep c1
                  && negb (isSep c2) && negb (Ascii.eqb c2 dot)
               then uncLen rest3 3
               else O
           | [] => O
           end
  | _ => O
  end.

Definition Base := Filepath.Base isSep Separator volumeNameLen.
Definition Ext := Filepath.Ext isSep.
End Windows.

End Filepath.

(** ** Data model *)

(** [runtime.GOOS]; [Linux] stands for every value other than
    ["windows"] and ["darwin"]. *)
Inductive platform : Type := Windows | Darwin | Linux.

Definition isWindows (g : platform) : bool :=
  match g with Windows => true | _ => false end.

Definition isDarwin (g : platform) : bool :=
  match g with Darwin => true | _ => false end.

(** [renameStatus]; [statusUnset] is the zero value (the empty string) a
    [Change] has before any status is assigned. *)
Inductive renameStatus : Type :=
| statusUnset
| statusOK
| statusUnchanged
| statusOverwriting
| statusEmptyFilename
| statusTrailingPeriod
| statusPathExists
| statusOverwritingNewPath
| statusInvalidCharacters
| statusFilenameLengthExceeded.

Record Change : Type := mkChange {
  originalSource : string;
  status : renameStatus;
  BaseDir : string;
  Source : string;
  Target : string;
  Error : string;
  csvRow : list string;
  index : Z;
  IsDir : bool;
  WillOverwrite : bool
}.

Definition setTarget (t : string) (ch : Change) : Change :=
  mkChange (originalSource ch) (status ch) (BaseDir ch) (Source ch) t
           (Error ch) (csvRow ch) (index ch) (IsDir ch) (WillOverwrite ch).

Definition setSource (s : string) (ch : Change) : Change :=
  mkChange (originalSource ch) (status ch) (BaseDir ch) s (Target ch)
           (Error ch) (csvRow ch) (index ch) (IsDir ch) (WillOverwrite ch).

Definition setStatus (s : renameStatus) (ch : Change) : Change :=
  mkChange (originalSource ch) s (BaseDir ch) (Source ch) (Target ch)
           (Error ch) (csvRow ch) (index ch) (IsDir ch) (WillOverwrite ch).

Definition setWillOverwrite (b : bool) (ch : Change) : Change :=
  mkChange (originalSource ch) (status ch) (BaseDir ch) (Source ch) (Target ch)
           (Error ch) (csvRow ch) (index ch) (IsDir ch) b.

Definition setError (e : string) (ch : Change) : Change :=
  mkChange (originalSource ch) (status ch) (BaseDir ch) (Source ch) (Target ch)
           e (csvRow ch) (index ch) (IsDir ch) (WillOverwrite ch).

Inductive ConflictType : Type :=
| emptyFilename
| fileExists
| overwritingNewPath
| maxFilenameLengthExceeded
| invalidCharacters
| trailingPeriod.

Global Instance ConflictType_eq_dec : EqDecision ConflictType.
Proof. solve_decision. Defined.

Definition ConflictType_code (t : ConflictType) : nat :=
  match t with
  | emptyFilename => 0
  | fileExists => 1
  | overwritingNewPath => 2
  | maxFilenameLengthExceeded => 3
  | invalidCharacters => 4
  | trailingPeriod => 5
  end.

Definition ConflictType_of_code (n : nat) : option ConflictType :=
  match n with
  | 0%nat => Some emptyFilename
  | 1%nat => Some fileExists
  | 2%nat => Some overwritingNewPath
  | 3%nat => Some maxFilenameLengthExceeded
  | 4%nat => Some invalidCharacters
  | 5%nat => Some trailingPeriod
  | _ => None
  end.

Global Instance ConflictType_countable : Countable ConflictType.
Proof.
  apply (inj_countable ConflictType_code ConflictType_of_code).
  intros []; reflexivity.
Defined.

(** [Conflict]; its [Target] field is named [ConflictTarget] here, as
    [Target] is the field of [Change]. *)
Record Conflict : Type := mkConflict {
  ConflictTarget : string;
  Cause : string;
  Sources : list string
}.

(** The anonymous struct stored in [renamedPaths]; its [index] field is
    named [sourceIndex] here. *)
Record renamed : Type := mkRenamed {
  sourcePath : string;
  sourceIndex : nat
}.

(** The fields of [Operation] that the engine and the pipeline read or
    write. *)
Record Operation : Type := mkOperation {
  conflicts : gmap ConflictType (list Conflict);
  sort : string;
  workingDir : string;
  matches : list Change;
  errors : list nat;
  revert : bool;
  includeDir : bool;
  allowOverwrites : bool;
  verbose : bool;
  quiet : bool;
  fixConflicts : bool;
  exec : bool;
  simpleMode : bool;
  json : bool
}.

Definition withMatches (m : list Change) (op : Operation) : Operation :=
  mkOperation (conflicts op) (sort op) (workingDir op) m (errors op)
              (revert op) (includeDir op) (allowOverwrites op) (verbose op)
              (quiet op) (fixConflicts op) (exec op) (simpleMode op) (json op).

Definition withConflicts (c : gmap ConflictType (list Conflict))
           (op : Operation) : Operation :=
  mkOperation c (sort op) (workingDir op) (matches op) (errors op)
              (revert op) (includeDir op) (allowOverwrites op) (verbose op)
              (quiet op) (fixConflicts op) (exec op) (simpleMode op) (json op).

Definition withErrors (e : list nat) (op : Operation) : Operation :=
  mkOperation (conflicts op) (sort op) (workingDir op) (matches op) e
              (revert op) (includeDir op) (allowOverwrites op) (verbose op)
              (quiet op) (fixConflicts op) (exec op) (simpleMode op) (json op).

(** [op.matches[i] = f(op.matches[i])]; an index out of range panics. *)
Definition setMatch (i : nat) (f : Change -> Change) (op : Operation)
  : result Operation :=
  match matches op !! i with
  | Some ch => Ok (withMatches (<[i := f ch]> (matches op)) op)
  | None => Panic
  end.

(** [op.conflicts[k] = append(op.conflicts[k], c)] *)
Definition addConflict (k : ConflictType) (c : Conflict) (op : Operation)
  : Operation :=
  withConflicts (<[k := default [] (conflicts op !! k) ++ [c]]> (conflicts op)) op.

(** The error of [os.Stat], as far as the engine tells errors apart:
    [errors.Is(err, os.ErrNotExist)], [errors.Is(err, os.ErrExist)], or
    neither. *)
Inductive statError : Type := ErrNotExist | ErrExist | ErrOther.

Abbreviation renamedMap := (gmap string (list renamed)).

Notation "' p <~ r ; k" := (rbind r (fun x => match x with p => k end))
  (at level 20, p pattern, r at level 100, k at level 200, only parsing).

(** ** The conflict engine ([validation.go]) *)

Section Engine.

(** The platform: [runtime.GOOS], its [path/filepath], and
    [strings.EqualFold]. *)
Variable GOOS : platform.
Variable filepath_Base : string -> string.
Variable filepath_Ext : string -> string.
Variable filepath_Dir : string -> string.
Variable filepath_Join : list string -> string.
Variable strings_EqualFold : string -> string -> bool.

(** [os.Stat] on the filesystem the engine runs against: [None] is a
    nil error. *)
Variable os_Stat : string -> option statError.

(** The order in which [range renamedPaths] yields the keys of the map;
    Go leaves it unspecified. *)
Variable rangeKeys : renamedMap -> list string.

Definition windowsMaxLength : Z := 260.
Definition unixMaxBytes : Z := 255.

(** Modelled from the spec: the constant [pathSeperator], declared in a
    file of the repository that is not part of the sources at hand; the
    specification calls it "the OS path separator". *)
Definition pathSeperatorByte : ascii :=
  if isWindows GOOS then "\"%char else "/"%char.

Definition pathSeperator : string := String pathSeperatorByte EmptyString.

(** Modelled from the spec: [utils.FilenameWithoutExtension], a helper
    of the repository's [internal/utils] package that is not part of the
    sources at hand: the name with its extension (as [filepath.Ext]
    gives it) cut off the end. *)
Definition FilenameWithoutExtension (fileName : string) : string :=
  GoString.trimSuffix fileName (filepath_Ext fileName).

(** *** newTarget *)

(** The match of the regular expression [\(\d+\)$]: the text before the
    opening parenthesis and the digits. *)
Definition trailingNumber (s : string) : option (string * list ascii) :=
  match rev (list_ascii_of_string s) with
  | c :: r =>
      if Ascii.eqb c ")"%char then
        let ds := GoString.takeWhile GoInt.isDigit r in
        match ds, GoString.dropWhile GoInt.isDigit r with
        | _ :: _, o :: pre =>
            if Ascii.eqb o "("%char
            then Some (string_of_list_ascii (rev pre), rev ds)
            else None
        | _, _ => None
        end
      else None
  | [] => None
  end.

(** [regex.ReplaceAllString(s, repl)] for that expression. *)
Definition replaceTrailingNumber (s repl : string) : string :=
  match trailingNumber s with
  | Some (pre, _) => pre +:+ repl
  | None => s
  end.

(** The counter [newTarget] starts from and the name it renders the
    candidates from.  [Sscanf] leaves [num] at 2 when the digits do not
    fit an [int]. *)
Definition newTargetStart (fileNoExt : string) : string * Z :=
  match trailingNumber fileNoExt with
  | Some (_, ds) =>
      let v := GoInt.digitsVal ds in
      (fileNoExt, GoInt.incr (if v <=? GoInt.maxInt then v else 2))
  | None => (fileNoExt +:+ " (" +:+ GoInt.Itoa 2 +:+ ")", 2)
  end.

(** The candidate rendered for counter [num]. *)
Definition candidate (ch : Change) (fileNoExt : string) (num : Z) : string :=
  let target := replaceTrailingNumber fileNoExt ("(" +:+ GoInt.Itoa num +:+ ")") in
  let target := target +:+ filepath_Ext (Target ch) in
  filepath_Join [filepath_Dir (Target ch); target].

Definition statNotExist (path : string) : bool :=
  match os_Stat path with
  | Some ErrNotExist => true
  | _ => false
  end.

Definition claimed (renamedPaths : renamedMap) (path : string) : bool :=
  bool_decide (is_Some (renamedPaths !! path)).

(** The [for { ... }] loop of [newTarget]. *)
Fixpoint newTargetLoop (fuel : nat) (ch : Change) (renamedPaths : renamedMap)
         (fileNoExt : string) (num : Z) : result string :=
  match fuel with
  | O => OutOfFuel
  | S fuel' =>
      let target := candidate ch fileNoExt num in
      let targetPath := filepath_Join [BaseDir ch; target] in
      if statNotExist targetPath && negb (claimed renamedPaths targetPath)
      then Ok target
      else newTargetLoop fuel' ch renamedPaths fileNoExt (GoInt.incr num)
  end.

(** [newTarget]; a nil [renamedPaths] is passed as the empty map. *)
Definition newTarget (fuel : nat) (ch : Change) (renamedPaths : renamedMap)
  : result string :=
  let '(fileNoExt, num) :=
    newTargetStart (FilenameWithoutExtension (filepath_Base (Target ch))) in
  newTargetLoop fuel ch renamedPaths fileNoExt num.

(** *** The single checks *)

Definition windowsForbidden (c : ascii) : bool :=
  existsb (Ascii.eqb c)
          ["<"%char; ">"%char; ":"%char; "034"%char; "|"%char; "?"%char; "*"%char].

(** [checkForbiddenCharacters]: [None] is a nil error, [Some] carries
    the error text. *)
Definition checkForbiddenCharacters (path : string) : option string :=
  let found := filter (fun c => windowsForbidden c = true) (list_ascii_of_string path) in
  if isWindows GOOS && negb (bool_decide (found = [])) then
    Some (GoString.join (map (fun c => String c EmptyString) found) ",")
  else if isDarwin GOOS && GoString.containsByte ":"%char path then
    Some ":"
  else None.

(** [checktTargetLength] *)
Definition checktTargetLength (target : string) : option string :=
  let filename := filepath_Base target in
  if isWindows GOOS && (windowsMaxLength <? Z.of_nat (length (Utf8.runes filename)))
  then Some (GoInt.Itoa windowsMaxLength +:+ " characters")
  else if negb (isWindows GOOS) && (unixMaxBytes <? Z.of_nat (String.length filename))
  then Some (GoInt.Itoa unixMaxBytes +:+ " bytes")
  else None.

(** [checkTrailingPeriodConflict] *)
Definition checkTrailingPeriodConflict (sourcePath target targetPath : string)
           (i : nat) (op : Operation) : result (bool * Operation) :=
  if isWindows GOOS then
    let strSlice := GoString.splitByte pathSeperatorByte target in
    let trimmed := map (GoString.trimRightByte "."%char) strSlice in
    if existsb (fun v => negb (String.eqb (GoString.trimRightByte "."%char v) v)) strSlice
    then
      let op := addConflict trailingPeriod
                            (mkConflict targetPath "" [sourcePath]) op in
      op <~ setMatch i (setStatus statusTrailingPeriod) op;
      if fixConflicts op then
        op <~ setMatch i (setTarget (GoString.join trimmed pathSeperator)) op;
        op <~ setMatch i (setStatus statusOK) op;
        Ok (true, op)
      else Ok (true, op)
    else Ok (false, op)
  else Ok (false, op).

(** [s[:n]]; bounds outside the slice panic (the capacity of the slice
    is taken to be its length). *)
Definition sliceTo {A : Type} (n : Z) (l : list A) : result (list A) :=
  if (n <? 0) || (Z.of_nat (length l) <? n) then Panic
  else Ok (take (Z.to_nat n) l).

(** The trimming loop of the non-Windows branch of
    [checkPathLengthConflict]: drop the last rune until the name fits
    [index] bytes. *)
Fixpoint trimLoop (fuel : nat) (fileNoExt : string) (index : Z) : result string :=
  match fuel with
  | O => OutOfFuel
  | S fuel' =>
      if index <? Z.of_nat (String.length fileNoExt) then
        let frune := Utf8.runes fileNoExt in
        frune <~ sliceTo (Z.of_nat (length frune) - 1) frune;
        trimLoop fuel' (Utf8.encode frune) index
      else Ok fileNoExt
  end.

(** [checkPathLengthConflict] *)
Definition checkPathLengthConflict (fuel : nat)
           (sourcePath target targetPath : string)
           (i : nat) (op : Operation) : result (bool * Operation) :=
  match checktTargetLength target with
  | Some err =>
      let op := addConflict maxFilenameLengthExceeded
                            (mkConflict targetPath err [sourcePath]) op in
      op <~ setMatch i (setStatus statusFilenameLengthExceeded) op;
      if fixConflicts op then
        if isWindows GOOS then
          let filename := Utf8.runes (filepath_Base target) in
          let ext := Utf8.runes (filepath_Ext (Utf8.encode filename)) in
          let f := Utf8.runes (FilenameWithoutExtension (Utf8.encode filename)) in
          let index := windowsMaxLength - Z.of_nat (length ext) in
          f <~ sliceTo index f;
          op <~ setMatch i (setTarget (filepath_Join [Utf8.encode f; Utf8.encode ext])) op;
          Ok (true, op)
        else
          let filename := filepath_Base target in
          let ext := filepath_Ext filename in
          let fileNoExt := FilenameWithoutExtension filename in
          let index := unixMaxBytes - Z.of_nat (String.length ext) in
          fileNoExt <~ trimLoop fuel fileNoExt index;
          op <~ setMatch i (setTarget (fileNoExt +:+ ext)) op;
          op <~ setMatch i (setStatus statusOK) op;
          Ok (true, op)
      else Ok (true, op)
  | None => Ok (false, op)
  end.

(** [checkForbiddenCharactersConflict] *)
Definition checkForbiddenCharactersConflict
           (sourcePath target targetPath : string)
           (i : nat) (op : Operation) : result (bool * Operation) :=
  match checkForbiddenCharacters target with
  | Some err =>
      let op := addConflict invalidCharacters
                            (mkConflict targetPath err [sourcePath]) op in
      op <~ setMatch i (setStatus statusInvalidCharacters) op;
      if fixConflicts op then
        op <~ (if isWindows GOOS
               then setMatch i (setTarget
                      (string_of_list_ascii
                         (filter (fun c => windowsForbidden c = false)
                                 (list_ascii_of_string target)))) op
               else Ok op);
        op <~ (if isDarwin GOOS
               then setMatch i (setTarget (GoString.removeByte ":"%char target)) op
               else Ok op);
        op <~ setMatch i (setStatus statusOK) op;
        Ok (true, op)
      else Ok (true, op)
  | None => Ok (false, op)
  end.

(** The target path exists: [err == nil || errors.Is(err, os.ErrExist)]. *)
Definition statExists (path : string) : bool :=
  match os_Stat path with
  | None | Some ErrExist => true
  | _ => false
  end.

(** The loop over [j] of [checkPathExistsConflict]: some item before
    [i] has [targetPath] as its source path and is itself renamed. *)
Definition vacatedEarlier (targetPath : string) (i : nat) (op : Operation) : bool :=
  existsb (fun '(j, ch) =>
             let sp := filepath_Join [BaseDir ch; Source ch] in
             let tp := filepath_Join [BaseDir ch; Target ch] in
             String.eqb targetPath sp && negb (strings_EqualFold sp tp)
             && (j <? i)%nat)
          (imap (fun j ch => (j, ch)) (matches op)).

(** [checkPathExistsConflict]; [ch] is the caller's copy of
    [op.matches[i]]. *)
Definition checkPathExistsConflict (fuel : nat) (sourcePath targetPath : string)
           (ch : Change) (i : nat) (op : Operation) : result (bool * Operation) :=
  if statExists targetPath then
    if strings_EqualFold sourcePath targetPath then
      op <~ setMatch i (setStatus statusUnchanged) op;
      Ok (false, op)
    else if allowOverwrites op then
      op <~ setMatch i (setWillOverwrite true) op;
      op <~ setMatch i (setStatus statusOverwriting) op;
      Ok (false, op)
    else if vacatedEarlier targetPath i op then Ok (false, op)
    else
      let op := addConflict fileExists (mkConflict targetPath "" [sourcePath]) op in
      op <~ setMatch i (setStatus statusPathExists) op;
      if fixConflicts op then
        target <~ newTarget fuel ch ∅;
        op <~ setMatch i (setTarget target) op;
        op <~ setMatch i (setStatus statusOK) op;
        Ok (true, op)
      else Ok (true, op)
  else Ok (false, op).

(** *** detectConflicts *)

Definition claim (targetPath sourcePath : string) (i : nat)
           (renamedPaths : renamedMap) : renamedMap :=
  <[targetPath := default [] (renamedPaths !! targetPath)
                  ++ [mkRenamed sourcePath i]]> renamedPaths.

(** The loop over [i] of [detectConflicts].  A check that fixed
    something steps [i] back, so the same item is looked at again. *)
Fixpoint detectLoop (fuel : nat) (i : nat) (op : Operation)
         (renamedPaths : renamedMap) : result (Operation * renamedMap) :=
  match fuel with
  | O => OutOfFuel
  | S fuel' =>
      match matches op !! i with
      | None => Ok (op, renamedPaths)
      | Some ch =>
          let sourcePath := filepath_Join [BaseDir ch; Source ch] in
          let targetPath := filepath_Join [BaseDir ch; Target ch] in
          if String.eqb (Target ch) "." || String.eqb (Target ch) "" then
            let op := addConflict emptyFilename
                                  (mkConflict targetPath "" [sourcePath]) op in
            op <~ setMatch i (setStatus statusEmptyFilename) op;
            op <~ (if fixConflicts op
                   then op <~ setMatch i (setTarget (Source ch)) op;
                        setMatch i (setStatus statusUnchanged) op
                   else Ok op);
            detectLoop fuel' (S i) op renamedPaths
          else
            ' (detected, op) <~ checkTrailingPeriodConflict
                                  sourcePath (Target ch) targetPath i op;
            if detected && fixConflicts op
            then detectLoop fuel' i op renamedPaths else
            ' (detected, op) <~ checkPathLengthConflict fuel'
                                  sourcePath (Target ch) targetPath i op;
            if detected && fixConflicts op
            then detectLoop fuel' i op renamedPaths else
            ' (detected, op) <~ checkForbiddenCharactersConflict
                                  sourcePath (Target ch) targetPath i op;
            if detected && fixConflicts op
            then detectLoop fuel' i op renamedPaths else
            ' (detected, op) <~ checkPathExistsConflict fuel'
                                  sourcePath targetPath ch i op;
            if detected && fixConflicts op
            then detectLoop fuel' i op renamedPaths else
            detectLoop fuel' (S i) op (claim targetPath sourcePath i renamedPaths)
      end
  end.

(** The loop over [source[1:]] in the auto-fix branch of
    [checkOverwritingPathConflict]; the branch that steps [i] back
    processes the same item again. *)
Fixpoint fixOverwriting (fuel : nat) (source : list renamed) (op : Operation)
         (renamedPaths : renamedMap) : result (Operation * renamedMap) :=
  match fuel with
  | O => OutOfFuel
  | S fuel' =>
      match source with
      | [] => Ok (op, renamedPaths)
      | item :: rest =>
          match matches op !! sourceIndex item with
          | None => Panic
          | Some ch =>
              target <~ newTarget fuel' ch renamedPaths;
              let pt := filepath_Join [BaseDir ch; target] in
              op <~ setMatch (sourceIndex item) (setTarget target) op;
              op <~ setMatch (sourceIndex item) (setStatus statusOK) op;
              match renamedPaths !! pt with
              | None => fixOverwriting fuel' rest op (<[pt := []]> renamedPaths)
              | Some _ => fixOverwriting fuel' source op renamedPaths
              end
          end
      end
  end.

(** The first loop over [source]: every contributor gets the status
    [statusOverwritingNewPath]. *)
Fixpoint markOverwriting (source : list renamed) (op : Operation)
  : result Operation :=
  match source with
  | [] => Ok op
  | s :: rest =>
      op <~ setMatch (sourceIndex s) (setStatus statusOverwritingNewPath) op;
      markOverwriting rest op
  end.

(** The body of the [range] loop of [checkOverwritingPathConflict] for
    one key. *)
Definition overwritingAt (fuel : nat) (targetPath : string) (op : Operation)
           (renamedPaths : renamedMap) : result (Operation * renamedMap) :=
  let source := default [] (renamedPaths !! targetPath) in
  if (1 <? length source)%nat then
    op <~ markOverwriting source op;
    let op := addConflict overwritingNewPath
                          (mkConflict targetPath "" (map sourcePath source)) op in
    if fixConflicts op
    then fixOverwriting fuel (tl source) op renamedPaths
    else Ok (op, renamedPaths)
  else Ok (op, renamedPaths).

Fixpoint overwritingLoop (fuel : nat) (keys : list string) (op : Operation)
         (renamedPaths : renamedMap) : result (Operation * renamedMap) :=
  match keys with
  | [] => Ok (op, renamedPaths)
  | k :: keys' =>
      ' (op, renamedPaths) <~ overwritingAt fuel k op renamedPaths;
      overwritingLoop fuel keys' op renamedPaths
  end.

(** [checkOverwritingPathConflict] *)
Definition checkOverwritingPathConflict (fuel : nat) (op : Operation)
           (renamedPaths : renamedMap) : result Operation :=
  ' (op, _) <~ overwritingLoop fuel (rangeKeys renamedPaths) op renamedPaths;
  Ok op.

(** [detectConflicts] *)
Definition detectConflicts (fuel : nat) (op : Operation) : result Operation :=
  let op := withConflicts ∅ op in
  ' (op, renamedPaths) <~ detectLoop fuel 0 op ∅;
  checkOverwritingPathConflict fuel op renamedPaths.

End Engine.

(** ** A concrete platform: Linux over a set of existing paths *)

Module Linux.

(** [strings.EqualFold] restricted to ASCII letters: bytes outside
    [A-Z]/[a-z] are compared as they are.  It agrees with Go on strings
    of ASCII bytes, the only ones it is evaluated on below. *)
Definition lower (c : ascii) : ascii :=
  let n := nat_of_ascii c in
  if ((65 <=? n) && (n <=? 90))%nat then ascii_of_nat (n + 32) else c.

Fixpoint EqualFold (a b : string) : bool :=
  match a, b with
  | EmptyString, EmptyString => true
  | String c a', String d b' => Ascii.eqb (lower c) (lower d) && EqualFold a' b'
  | _, _ => false
  end.

(** A filesystem given by the list of the paths that exist; every
    other path reports [ErrNotExist]. *)
Definition Stat (existing : list string) (path : string) : option statError :=
  if existsb (String.eqb path) existing then None else Some ErrNotExist.

Definition rangeKeys (m : renamedMap) : list string := (map_to_list m).*1.

Definition newTarget (existing : list string) :=
  newTarget Filepath.Unix.Base Filepath.Unix.Ext Filepath.Unix.Dir
            Filepath.Unix.Join (Stat existing).

Definition checktTargetLength := checktTargetLength Linux Filepath.Unix.Base.

Definition checkPathLengthConflict :=
  checkPathLengthConflict Linux Filepath.Unix.Base Filepath.Unix.Ext Filepath.Unix.Join.

Definition checkPathExistsConflict (existing : list string) :=
  checkPathExistsConflict Filepath.Unix.Base Filepath.Unix.Ext Filepath.Unix.Dir
                          Filepath.Unix.Join EqualFold (Stat existing).

Definition detectLoop (existing : list string) :=
  detectLoop Linux Filepath.Unix.Base Filepath.Unix.Ext Filepath.Unix.Dir
             Filepath.Unix.Join EqualFold (Stat existing).

Definition detectConflicts (existing : list string) :=
  detectConflicts Linux Filepath.Unix.Base Filepath.Unix.Ext Filepath.Unix.Dir
                  Filepath.Unix.Join EqualFold (Stat existing) rangeKeys.

End Linux.

Definition change (baseDir source target : string) : Change :=
  mkChange source statusUnset baseDir source target "" [] 0 false false.

Definition operation (m : list Change) (fix_ : bool) : Operation :=
  mkOperation ∅ "" "" m [] false false false false false fix_ false false false.

(** The directory of the repository's own auto-fix test: [123.txt] and
    [123 (3).txt] exist next to the two files to rename. *)
Definition conflictsDir : list string :=
  ["conflicts/abc.txt"; "conflicts/xyz.txt"; "conflicts/123.txt";
   "conflicts/123 (3).txt"].

(** ** The apply / commit / undo pipeline *)

(** [Source] and [Target] exchanged, as [undo] does for every recorded
    change. *)
Definition swap (ch : Change) : Change :=
  setTarget (Source ch) (setSource (Target ch) ch).

(** Go's [error] values of the pipeline: the two sentinels, the errors
    built from a fixed message, and errors handed up from the operating
    system. *)
Inductive error : Type :=
| errConflictDetected
| errBackupNotFound
| errorString (msg : string)
| osError (msg : string).

(** What the pipeline writes to its output streams. *)
Inductive output : Type :=
| OutInfo (msg : string)
| OutJSON (changes : list Change) (cf : gmap ConflictType (list Conflict))
          (errs : list nat)
| OutChanges (changes : list Change)
| OutConflicts (cf : gmap ConflictType (list Conflict))
| OutErrors (changes : list Change) (errs : list nat)
| OutPrompt
| OutRenameFailed (source target : string)
| OutRenamed (source target : string)
| OutWarning (path : string).

Section Pipeline.

Variable GOOS : platform.
Variable filepath_Base : string -> string.
Variable filepath_Ext : string -> string.
Variable filepath_Dir : string -> string.
Variable filepath_Join : list string -> string.
Variable strings_EqualFold : string -> string -> bool.
Variable rangeKeys : renamedMap -> list string.

(** The world outside the process: the filesystem (with the backup
    files) and the standard input.  Every call returns the world it
    leaves behind; an error is carried as its text. *)
Variable World : Type.
Variable os_Stat : World -> string -> option statError.
Variable os_MkdirAll : World -> string -> World * option string.
Variable os_Rename : World -> string -> string -> World * option string.
Variable os_Remove : World -> string -> World * option string.
Variable xdg_DataFile : World -> string -> World * (string + string).
Variable xdg_SearchDataFile : World -> string -> string + string.
(** [os.Create], [json.MarshalIndent] and the buffered write of
    [writeToFile]. *)
Variable os_WriteJSON : World -> string -> string -> list Change -> World * option string.
(** [os.ReadFile] and [json.Unmarshal] of [undo]. *)
Variable os_ReadJSON : World -> string -> list Change + string.
(** [reader.ReadString] on the standard input; [io.EOF] is not an
    error for the caller. *)
Variable stdin_ReadString : World -> World * option string.

(** Modelled from the spec: [sortMatches] and [sortBy], methods of
    [Operation] declared in a file of the repository that is not part
    of the sources at hand.  They reorder [op.matches]; [sortBy] may
    fail. *)
Variable sortMatches : list Change -> list Change.
Variable sortBy : World -> Operation -> Operation + string.

(** The part of [run] before [apply] on a forward run ([findMatches],
    [filterMatches], [sortBy], [handleReplacementChain]): outside the
    core, taken as a whole. *)
Variable prepare : World -> Operation -> Operation + error.

Record state : Type := mkState {
  op : Operation;
  world : World;
  out : list output
}.

Definition withOp (o : Operation) (st : state) : state :=
  mkState o (world st) (out st).
Definition withWorld (w : World) (st : state) : state :=
  mkState (op st) w (out st).
Definition emit (o : output) (st : state) : state :=
  mkState (op st) (world st) (out st ++ [o]).

Definition jsonOutput (st : state) : output :=
  OutJSON (matches (op st)) (conflicts (op st)) (errors (op st)).

(** [writeToFile] *)
Definition writeToFile (outputFile : string) (st : state) : state * option error :=
  let '(w, err) := os_WriteJSON (world st) outputFile
                                (workingDir (op st)) (matches (op st)) in
  (withWorld w st, option_map osError err).

(** [printChanges] *)
Definition printChanges (st : state) : state :=
  if quiet (op st) then st
  else if json (op st) then emit (jsonOutput st) st
  else emit (OutChanges (matches (op st))) st.

(** [rename], one iteration of the loop over [i]. *)
Definition renameStep (acc : state * list nat) (i : nat) : state * list nat :=
  let '(st, errs) := acc in
  match matches (op st) !! i with
  | None => acc
  | Some ch =>
      let source := filepath_Join [BaseDir ch; Source ch] in
      let target := filepath_Join [BaseDir ch; Target ch] in
      if String.eqb source target then acc
      else
        let needDir :=
          GoString.containsByte "/"%char (Target ch)
          || GoString.containsByte "\"%char (Target ch) && isWindows GOOS in
        let '(w, mkerr) :=
          if needDir
          then os_MkdirAll (world st)
                           (filepath_Join [BaseDir ch; filepath_Dir (Target ch)])
          else (world st, None) in
        match mkerr with
        | Some e =>
            (withOp (withMatches (<[i := setError e ch]> (matches (op st))) (op st))
                    (withWorld w st),
             errs ++ [i])
        | None =>
            let '(w, rnerr) := os_Rename w source target in
            let st := withWorld w st in
            match rnerr with
            | Some e =>
                let st := withOp (withMatches (<[i := setError e ch]> (matches (op st)))
                                              (op st)) st in
                (if verbose (op st) then emit (OutRenameFailed source target) st else st,
                 errs ++ [i])
            | None =>
                (if verbose (op st) && negb (json (op st))
                 then emit (OutRenamed source target) st else st,
                 errs)
            end
        end
  end.

(** [rename] *)
Definition rename (st : state) : state :=
  let '(st, errs) :=
    fold_left renameStep (seq 0 (length (matches (op st)))) (st, []) in
  withOp (withErrors errs (op st)) st.

(** [reportErrors] *)
Definition reportErrors (st : state) : state :=
  if json (op st) then emit (jsonOutput st) st
  else emit (OutErrors (matches (op st)) (errors (op st))) st.

(** [backup] *)
Definition backup (st : state) : state * option error :=
  let workingDir :=
    GoString.replaceByte (pathSeperatorByte GOOS) "_"%char (workingDir (op st)) in
  let workingDir :=
    if isWindows GOOS then GoString.replaceByte ":"%char "_"%char workingDir
    else workingDir in
  let file := workingDir +:+ ".json" in
  let '(w, r) := xdg_DataFile (world st) (filepath_Join ["f2"; "backups"; file]) in
  match r with
  | inr e => (withWorld w st, Some (osError e))
  | inl backupFile => writeToFile backupFile (withWorld w st)
  end.

(** [handleErrors] *)
Definition handleErrors (st : state) : state * option error :=
  let st := reportErrors st in
  let '(st, err) :=
    if (length (errors (op st)) <? length (matches (op st)))%nat
       && negb (revert (op st))
    then backup st else (st, None) in
  let msg := if revert (op st) then "Some files could not be reverted."
             else "Some files could not be renamed." in
  match err with
  | None =>
      if (0 <? length (matches (op st)))%nat then (st, Some (errorString msg))
      else (st, Some (errorString "The renaming operation failed due to the above errors"))
  | Some _ =>
      if (0 <? length (matches (op st)))%nat
      then (st, Some (errorString "The above files could not be renamed"))
      else (st, Some (errorString "The renaming operation failed due to the above errors"))
  end.

(** [noMatches] *)
Definition noMatches (st : state) : state :=
  let msg := if revert (op st) then "No operations to undo"
             else "Failed to match any files" in
  if json (op st) then emit (jsonOutput st) st
  else emit (OutInfo msg) st.

(** [commit] *)
Definition commit (st : state) : state * option error :=
  let st := rename st in
  let st := if (length (errors (op st)) =? 0)%nat && json (op st)
            then printChanges st else st in
  if (0 <? length (errors (op st)))%nat then handleErrors st
  else if negb (revert (op st)) then backup st
  else (st, None).

(** [dryRun] *)
Definition dryRun (st : state) : state :=
  let st := printChanges st in
  if negb (json (op st))
  then emit (OutInfo "Commit the above changes with the -x/--exec flag") st
  else st.

(** [reportConflicts] *)
Definition reportConflicts (st : state) : state :=
  emit (OutConflicts (conflicts (op st))) st.

(** [apply] *)
Definition apply (fuel : nat) (st : state) : result (state * option error) :=
  if (length (matches (op st)) =? 0)%nat then Ok (noMatches st, None)
  else
    o <~ detectConflicts GOOS filepath_Base filepath_Ext filepath_Dir
                         filepath_Join strings_EqualFold
                         (os_Stat (world st)) rangeKeys fuel (op st);
    let st := withOp o st in
    if (0 <? size (conflicts (op st)))%nat && negb (fixConflicts (op st)) then
      let st := if json (op st) then printChanges st else reportConflicts st in
      Ok (st, Some errConflictDetected)
    else
      let st := if includeDir (op st) || revert (op st)
                then withOp (withMatches (sortMatches (matches (op st))) (op st)) st
                else st in
      if exec (op st) then
        if simpleMode (op st) && negb (json (op st)) then
          let st := emit OutPrompt (printChanges st) in
          let '(w, err) := stdin_ReadString (world st) in
          let st := withWorld w st in
          match err with
          | Some e => Ok (st, Some (osError e))
          | None => Ok (commit st)
          end
        else Ok (commit st)
      else Ok (dryRun st, None).

(** [undo] *)
Definition undo (fuel : nat) (path : string) (st : state)
  : result (state * option error) :=
  match os_ReadJSON (world st) path with
  | inr e => Ok (st, Some (osError e))
  | inl operations =>
      let st := withOp (withMatches (map swap operations) (op st)) st in
      match (if negb (exec (op st)) && negb (String.eqb (sort (op st)) "")
             then sortBy (world st) (op st) else inl (op st)) with
      | inr e => Ok (st, Some (osError e))
      | inl o =>
          ' (st, err) <~ apply fuel (withOp o st);
          match err with
          | Some e => Ok (st, Some e)
          | None =>
              if exec (op st) then
                let '(w, rmerr) := os_Remove (world st) path in
                let st := withWorld w st in
                match rmerr with
                | Some _ => Ok (emit (OutWarning path) st, None)
                | None => Ok (st, None)
                end
              else Ok (st, None)
          end
      end
  end.

(** [retrieveBackupFile] *)
Definition retrieveBackupFile (st : state) : string + string :=
  let dir :=
    GoString.replaceByte (pathSeperatorByte GOOS) "_"%char (workingDir (op st)) in
  let dir := if isWindows GOOS then GoString.replaceByte ":"%char "_"%char dir
             else dir in
  let file := dir +:+ ".json" in
  xdg_SearchDataFile (world st) (filepath_Join ["f2"; "backups"; file]).

(** [run] *)
Definition run (fuel : nat) (st : state) : result (state * option error) :=
  if revert (op st) then
    match retrieveBackupFile st with
    | inr _ => Ok (st, Some errBackupNotFound)
    | inl path => undo fuel path st
    end
  else
    match prepare (world st) (op st) with
    | inr e => Ok (st, Some e)
    | inl o => apply fuel (withOp o st)
    end.

End Pipeline.

(** ** A simulated world for concrete runs

    Files are a list of existing paths; [os.Rename] fails when its source
    does not exist; backup records are kept by path. *)

Module Sim.

Record World : Type := mkWorld {
  files : list string;
  backups : list (string * list Change)
}.

Definition Stat (w : World) (path : string) : option statError :=
  Linux.Stat (files w) path.

Definition MkdirAll (w : World) (dir : string) : World * option string :=
  (w, None).

Definition Rename (w : World) (source target : string) : World * option string :=
  if existsb (String.eqb source) (files w)
  then (mkWorld (target :: filter (fun p => negb (String.eqb p source)) (files w))
                (backups w), None)
  else (w, Some ("rename " +:+ source +:+ " " +:+ target
                 +:+ ": no such file or directory")).

Definition dropBackup (path : string) (l : list (string * list Change)) :=
  filter (fun e => negb (String.eqb (fst e) path)) l.

Definition Remove (w : World) (path : string) : World * option string :=
  if existsb (fun e => String.eqb (fst e) path) (backups w)
  then (mkWorld (files w) (dropBackup path (backups w)), None)
  else (w, Some ("remove " +:+ path +:+ ": no such file or directory")).

Definition DataFile (w : World) (rel : string) : World * (string + string) :=
  (w, inl ("/data/" +:+ rel)).

Definition lookupBackup (path : string) (l : list (string * list Change))
  : option (list Change) :=
  option_map snd (find (fun e => String.eqb (fst e) path) l).

Definition SearchDataFile (w : World) (rel : string) : string + string :=
  match lookupBackup ("/data/" +:+ rel) (backups w) with
  | Some _ => inl ("/data/" +:+ rel)
  | None => inr "could not locate the file in any search path"
  end.

Definition WriteJSON (w : World) (path workingDir : string) (ops : list Change)
  : World * option string :=
  (mkWorld (files w) ((path, ops) :: dropBackup path (backups w)), None).

Definition ReadJSON (w : World) (path : string) : list Change + string :=
  match lookupBackup path (backups w) with
  | Some ops => inl ops
  | None => inr ("open " +:+ path +:+ ": no such file or directory")
  end.

Definition ReadString (w : World) : World * option string := (w, None).

Definition sortMatches (m : list Change) : list Change := m.
Definition sortBy (w : World) (o : Operation) : Operation + string := inl o.
Definition prepare (w : World) (o : Operation) : Operation + error := inl o.

Definition rename :=
  rename Linux Filepath.Unix.Dir Filepath.Unix.Join World MkdirAll Rename.

Definition commit :=
  commit Linux Filepath.Unix.Dir Filepath.Unix.Join World MkdirAll Rename
         DataFile WriteJSON.

Definition apply :=
  apply Linux Filepath.Unix.Base Filepath.Unix.Ext Filepath.Unix.Dir
        Filepath.Unix.Join Linux.EqualFold Linux.rangeKeys World Stat MkdirAll
        Rename DataFile WriteJSON ReadString sortMatches.

Definition undo :=
  undo Linux Filepath.Unix.Base Filepath.Unix.Ext Filepath.Unix.Dir
       Filepath.Unix.Join Linux.EqualFold Linux.rangeKeys World Stat MkdirAll
       Rename Remove DataFile WriteJSON ReadJSON ReadString sortMatches sortBy.

Definition run :=
  run Linux Filepath.Unix.Base Filepath.Unix.Ext Filepath.Unix.Dir
      Filepath.Unix.Join Linux.EqualFold Linux.rangeKeys World Stat MkdirAll
      Rename Remove DataFile SearchDataFile WriteJSON ReadJSON ReadString
      sortMatches sortBy prepare.

End Sim.

(** ** Options, matching and the replacement chain *)

(** The fields of [Operation] that only the option and matching code
    reads.  [searchRegex] holds the pattern the expression was compiled
    from. *)
Record Search : Type := mkSearch {
  searchRegex : string;
  csvFilename : string;
  replacement : string;
  findSlice : list string;
  excludeFilter : list string;
  replacementSlice : list string;
  pathsToFilesOrDirs : list string;
  paths : list Change;
  maxDepth : Z;
  replaceLimit : Z;
  recursive : bool;
  ignoreCase : bool;
  reverseSort : bool;
  onlyDir : bool;
  ignoreExt : bool;
  includeHidden : bool;
  stringLiteralMode : bool
}.

Definition withSearchRegex (re : string) (s : Search) : Search :=
  mkSearch re (csvFilename s) (replacement s) (findSlice s) (excludeFilter s)
           (replacementSlice s) (pathsToFilesOrDirs s) (paths s) (maxDepth s)
           (replaceLimit s) (recursive s) (ignoreCase s) (reverseSort s)
           (onlyDir s) (ignoreExt s) (includeHidden s) (stringLiteralMode s).

Definition withReplacement (v : string) (s : Search) : Search :=
  mkSearch (searchRegex s) (csvFilename s) v (findSlice s) (excludeFilter s)
           (replacementSlice s) (pathsToFilesOrDirs s) (paths s) (maxDepth s)
           (replaceLimit s) (recursive s) (ignoreCase s) (reverseSort s)
           (onlyDir s) (ignoreExt s) (includeHidden s) (stringLiteralMode s).

Definition withReplacementSlice (l : list string) (s : Search) : Search :=
  mkSearch (searchRegex s) (csvFilename s) (replacement s) (findSlice s)
           (excludeFilter s) l (pathsToFilesOrDirs s) (paths s) (maxDepth s)
           (replaceLimit s) (recursive s) (ignoreCase s) (reverseSort s)
           (onlyDir s) (ignoreExt s) (includeHidden s) (stringLiteralMode s).

(** The flags and arguments of the command line, as [cli.Context]
    hands them out. *)
Record Flags : Type := mkFlags {
  flagFind : list string;
  flagReplace : list string;
  flagCsv : string;
  flagUndo : bool;
  flagExec : bool;
  flagArgs : list string;
  flagFixConflicts : bool;
  flagIncludeDir : bool;
  flagHidden : bool;
  flagIgnoreCase : bool;
  flagIgnoreExt : bool;
  flagRecursive : bool;
  flagOnlyDir : bool;
  flagStringMode : bool;
  flagExclude : list string;
  flagMaxDepth : Z;
  flagVerbose : bool;
  flagAllowOverwrites : bool;
  flagReplaceLimit : Z;
  flagQuiet : bool;
  flagJson : bool;
  flagSort : string;
  flagSortr : string
}.

(** The errors of the option code: the two sentinels (declared in a
    file of the repository that is not at hand; only their identity is
    used) and a pattern that does not compile. *)
Inductive optError : Type :=
| errInvalidArgument
| errInvalidSimpleModeArgs
| errRegex (msg : string).

(** [regexp.QuoteMeta]: a backslash before each of the bytes
    [\.+*?()|[]{}^$]. *)
Definition special (c : ascii) : bool :=
  existsb (Ascii.eqb c) (list_ascii_of_string "\.+*?()|[]{}^$").

Fixpoint QuoteMeta (s : string) : string :=
  match s with
  | EmptyString => EmptyString
  | String c s' => if special c then String "\"%char (String c (QuoteMeta s'))
                   else String c (QuoteMeta s')
  end.

Section Matching.

Variable filepath_Base : string -> string.
Variable filepath_Ext : string -> string.
Variable filepath_Join : list string -> string.
Variable strings_EqualFold : string -> string -> bool.

(** [filepath.Abs], which asks the operating system for the working
    directory and may fail. *)
Variable filepath_Abs : string -> string + string.

(** [regexp.Compile], as the error it returns if any, and
    [MatchString] of the expression compiled from a pattern. *)
Variable regexp_Compile : string -> option string.
Variable regexp_MatchString : string -> string -> bool.

(** Modelled from the spec: [isHidden], the hidden-file detection,
    declared per platform in files of the repository that are not part
    of the sources at hand; it is given the file name and its
    directory and may fail. *)
Variable isHidden : string -> string -> bool + string.

(** Modelled from the spec: [op.replace], the variable-substitution
    step that computes the targets from [op.replacement] and
    [op.searchRegex], declared in a file of the repository that is not
    part of the sources at hand.  It may change the operation and
    fail. *)
Variable replace : Search -> Operation -> Search * Operation * option string.

(** [setFindStringRegex] *)
Definition findPattern (s : Search) (replacementIndex : nat) : string :=
  match findSlice s !! replacementIndex with
  | Some p =>
      let p := if stringLiteralMode s then QuoteMeta p else p in
      if ignoreCase s then "(?i)" +:+ p else p
  | None => ".*"
  end.

Definition setFindStringRegex (replacementIndex : nat) (s : Search)
  : Search * option string :=
  let findPattern := findPattern s replacementIndex in
  match regexp_Compile findPattern with
  | Some err => (s, Some err)
  | None => (withSearchRegex findPattern s, None)
  end.

(** [setDefaultOpts]; [int(c.Uint(...))] wraps. *)
Definition setDefaultOpts (c : Flags) (so : Search * Operation) : Search * Operation :=
  let '(s, op) := so in
  let sorted := negb (String.eqb (flagSort c) "") in
  let sortedr := negb sorted && negb (String.eqb (flagSortr c) "") in
  let onlyDir := flagOnlyDir c in
  (mkSearch (searchRegex s) (csvFilename s) (replacement s) (findSlice s)
            (flagExclude c) (replacementSlice s) (pathsToFilesOrDirs s) (paths s)
            (GoInt.wrap (flagMaxDepth c)) (flagReplaceLimit c) (flagRecursive c)
            (flagIgnoreCase c) (if sortedr then true else reverseSort s)
            onlyDir (flagIgnoreExt c) (flagHidden c) (flagStringMode c),
   mkOperation (conflicts op)
               (if sorted then flagSort c
                else if sortedr then flagSortr c else sort op)
               (workingDir op) (matches op) (errors op) (revert op)
               (if onlyDir then true else flagIncludeDir c)
               (flagAllowOverwrites c) (flagVerbose c) (flagQuiet c)
               (flagFixConflicts c) (exec op) (simpleMode op) (flagJson c)).

(** The loop of [setOptions] that gives every find string a
    replacement. *)
Fixpoint padReplacements (fuel : nat) (s : Search) : result Search :=
  match fuel with
  | O => OutOfFuel
  | S fuel' =>
      if (length (replacementSlice s) <? length (findSlice s))%nat
      then padReplacements fuel'
             (withReplacementSlice (replacementSlice s ++ [""]) s)
      else Ok s
  end.

(** [setOptions] *)
Definition setOptions (fuel : nat) (c : Flags) (so : Search * Operation)
  : result (Search * Operation * option optError) :=
  let '(s, op) := so in
  if (length (flagFind c) =? 0)%nat && (length (flagReplace c) =? 0)%nat
     && String.eqb (flagCsv c) "" && negb (flagUndo c)
  then Ok (s, op, Some errInvalidArgument)
  else
    let s := mkSearch (searchRegex s) (flagCsv c) (replacement s) (flagFind c)
                      (excludeFilter s) (flagReplace c) (flagArgs c) (paths s)
                      (maxDepth s) (replaceLimit s) (recursive s) (ignoreCase s)
                      (reverseSort s) (onlyDir s) (ignoreExt s) (includeHidden s)
                      (stringLiteralMode s) in
    let op := mkOperation (conflicts op) (sort op) (workingDir op) (matches op)
                          (errors op) (flagUndo c) (includeDir op)
                          (allowOverwrites op) (verbose op) (quiet op)
                          (fixConflicts op) (flagExec c) (simpleMode op) (json op) in
    let '(s, op) := setDefaultOpts c (s, op) in
    s <~ padReplacements fuel s;
    let '(s, err) := setFindStringRegex 0 s in
    Ok (s, op, option_map errRegex err).

(** [setSimpleModeOptions] *)
Definition setSimpleModeOptions (c : Flags) (so : Search * Operation)
  : Search * Operation * option optError :=
  let '(s, op) := so in
  let args := flagArgs c in
  match args with
  | [] => (s, op, Some errInvalidSimpleModeArgs)
  | arg0 :: _ =>
      let args := if (length args =? 1)%nat then args ++ [""] else args in
      let s := mkSearch (searchRegex s) (csvFilename s) (replacement s) [arg0]
                        (excludeFilter s) [nth 1 args ""] (pathsToFilesOrDirs s)
                        (paths s) (maxDepth s) (replaceLimit s) (recursive s)
                        (ignoreCase s) (reverseSort s) (onlyDir s) (ignoreExt s)
                        (includeHidden s) (stringLiteralMode s) in
      let op := mkOperation (conflicts op) (sort op) (workingDir op) (matches op)
                            (errors op) (revert op) (includeDir op)
                            (allowOverwrites op) (verbose op) (quiet op)
                            (fixConflicts op) true true (json op) in
      let '(s, op) := setDefaultOpts c (s, op) in
      let op := mkOperation (conflicts op) (sort op) (workingDir op) (matches op)
                            (errors op) (revert op) true
                            (allowOverwrites op) (verbose op) (quiet op)
                            (fixConflicts op) (exec op) (simpleMode op) (json op) in
      let s := if (2 <? length args)%nat
               then mkSearch (searchRegex s) (csvFilename s) (replacement s)
                             (findSlice s) (excludeFilter s) (replacementSlice s)
                             (skipn 2 args) (paths s) (maxDepth s) (replaceLimit s)
                             (recursive s) (ignoreCase s) (reverseSort s) (onlyDir s)
                             (ignoreExt s) (includeHidden s) (stringLiteralMode s)
               else s in
      let '(s, err) := setFindStringRegex 0 s in
      (s, op, option_map errRegex err)
  end.

(** The loop of [findMatches] over [op.pathsToFilesOrDirs] for a hidden
    file: it is kept when one of the paths names it. *)
Fixpoint shouldSkip (absPath1 : string) (given : list string) (skip : bool)
  : bool + string :=
  match given with
  | [] => inl skip
  | path :: rest =>
      match filepath_Abs path with
      | inr err => inr err
      | inl absPath2 =>
          shouldSkip absPath1 rest
                     (if strings_EqualFold absPath1 absPath2 then false else skip)
      end
  end.

(** One iteration of [findMatches]: whether the path is appended to
    [op.matches]. *)
Definition selects (s : Search) (op : Operation) (ch : Change) : bool + string :=
  let filename := filepath_Base (Source ch) in
  if IsDir ch && negb (includeDir op) then inl false
  else if onlyDir s && negb (IsDir ch) then inl false
  else
    let matched :=
      let f := if ignoreExt s && negb (IsDir ch)
               then FilenameWithoutExtension filepath_Ext filename else filename in
      regexp_MatchString (searchRegex s) f in
    if negb (includeHidden s) then
      match isHidden filename (BaseDir ch) with
      | inr err => inr err
      | inl false => inl matched
      | inl true =>
          match filepath_Abs (filepath_Join [BaseDir ch; filename]) with
          | inr err => inr err
          | inl absPath1 =>
              match shouldSkip absPath1 (pathsToFilesOrDirs s) true with
              | inr err => inr err
              | inl true => inl false
              | inl false => inl matched
              end
          end
      end
    else inl matched.

(** [findMatches] *)
Fixpoint findMatchesLoop (s : Search) (todo : list Change) (op : Operation)
  : Operation * option string :=
  match todo with
  | [] => (op, None)
  | ch :: rest =>
      match selects s op ch with
      | inr err => (op, Some err)
      | inl true => findMatchesLoop s rest (withMatches (matches op ++ [ch]) op)
      | inl false => findMatchesLoop s rest op
      end
  end.

Definition findMatches (s : Search) (op : Operation) : Operation * option string :=
  findMatchesLoop s (paths s) op.

(** [filterMatches] *)
Fixpoint filterLoop (pattern : string) (todo filtered : list Change) : list Change :=
  match todo with
  | [] => filtered
  | ch :: rest =>
      filterLoop pattern rest
                 (if regexp_MatchString pattern (Source ch) then filtered
                  else filtered ++ [ch])
  end.

Definition filterMatches (s : Search) (op : Operation) : Operation * option string :=
  let filters := GoString.join (excludeFilter s) "|" in
  match regexp_Compile filters with
  | Some err => (op, Some err)
  | None => (withMatches (filterLoop filters (matches op) []) op, None)
  end.

(** An [os.DirEntry], as far as the code looks at it. *)
Record DirEntry : Type := mkDirEntry {
  Name : string;
  entryIsDir : bool
}.

(** [removeHidden] *)
Fixpoint removeHiddenLoop (de : list DirEntry) (baseDir : string)
         (ret : list DirEntry) : list DirEntry + string :=
  match de with
  | [] => inl ret
  | e :: rest =>
      match isHidden (Name e) baseDir with
      | inr err => inr err
      | inl r => removeHiddenLoop rest baseDir (if r then ret else ret ++ [e])
      end
  end.

Definition removeHidden (de : list DirEntry) (baseDir : string)
  : list DirEntry + string :=
  removeHiddenLoop de baseDir [].

(** The loop over [j] of [handleReplacementChain], for the
    replacement of index [i]. *)
Definition relink (i : nat) (last : Z) (ch : Change) : Change :=
  let ch1 := if negb (Z.of_nat i =? last) then setSource (Target ch) ch else ch in
  if (0 <? i)%nat && (Z.of_nat i =? last)
  then setSource (originalSource ch) ch1 else ch1.

(** [handleReplacementChain]: [todo] is what is left of the slice the
    [range] loop runs over, [i] the index of its head. *)
Fixpoint replacementLoop (todo : list string) (i : nat) (s : Search) (op : Operation)
  : Search * Operation * option string :=
  match todo with
  | [] => (s, op, None)
  | v :: rest =>
      let '(s, op, err) := replace (withReplacement v s) op in
      match err with
      | Some e => (s, op, Some e)
      | None =>
          let last := Z.of_nat (length (replacementSlice s)) - 1 in
          let op := withMatches (map (relink i last) (matches op)) op in
          if negb (Z.of_nat i =? Z.of_nat (length (replacementSlice s)) - 1) then
            let '(s, err) := setFindStringRegex (S i) s in
            match err with
            | Some e => (s, op, Some e)
            | None => replacementLoop rest (S i) s op
            end
          else replacementLoop rest (S i) s op
      end
  end.

Definition handleReplacementChain (s : Search) (op : Operation)
  : Search * Operation * option string :=
  replacementLoop (replacementSlice s) 0 s op.

End Matching.

(** ** The paths given on the command line *)

(** An [os.FileInfo], as far as [newOperation] looks at it. *)
Record FileInfo : Type := mkFileInfo {
  infoName : string;
  infoIsDir : bool
}.

Section Paths.

Variable filepath_Clean : string -> string.
Variable filepath_Dir : string -> string.

(** [os.Stat] and [os.ReadDir], with the error text when they fail. *)
Variable os_StatInfo : string -> FileInfo + string.
Variable os_ReadDir : string -> list DirEntry + string.

Definition hasName (name : string) (entries : list DirEntry) : bool :=
  existsb (fun e => String.eqb (Name e) name) entries.

(** The loop labelled [entryLoop]: the entry of [dir] that carries the
    name of the file is appended to [paths[dir]] unless an entry of
    that name is there already. *)
Fixpoint entryLoop (dir name : string) (dirEntry : list DirEntry)
         (paths : gmap string (list DirEntry)) : gmap string (list DirEntry) :=
  match dirEntry with
  | [] => paths
  | entry :: rest =>
      if String.eqb (Name entry) name then
        if hasName name (default [] (paths !! dir)) then paths
        else <[dir := default [] (paths !! dir) ++ [entry]]> paths
      else entryLoop dir name rest paths
  end.

(** The loop of [newOperation] over [op.pathsToFilesOrDirs]. *)
Fixpoint pathsLoop (given : list string) (paths : gmap string (list DirEntry))
  : gmap string (list DirEntry) + string :=
  match given with
  | [] => inl paths
  | path :: rest =>
      let path := filepath_Clean path in
      if bool_decide (is_Some (paths !! path)) then pathsLoop rest paths
      else
        match os_StatInfo path with
        | inr err => inr err
        | inl fileInfo =>
            if infoIsDir fileInfo then
              match os_ReadDir path with
              | inr err => inr err
              | inl entries => pathsLoop rest (<[path := entries]> paths)
              end
            else
              let dir := filepath_Dir path in
              match os_ReadDir dir with
              | inr err => inr err
              | inl dirEntry =>
                  pathsLoop rest (entryLoop dir (infoName fileInfo) dirEntry paths)
              end
        end
  end.

(** The part of [newOperation] that builds [paths]: the loop, and the
    current directory when it gave nothing. *)
Definition collectPaths (given : list string) : gmap string (list DirEntry) + string :=
  match pathsLoop given ∅ with
  | inr err => inr err
  | inl paths =>
      if (size paths =? 0)%nat then
        match os_ReadDir "." with
        | inr err => inr err
        | inl entries => inl (<["." := entries]> paths)
        end
      else inl paths
  end.

End Paths.

(** ** Stand-ins for concrete runs of the matching code

    Paths are made absolute under [/home/u]; a name is hidden when it
    starts with a period; an expression matches the texts that contain
    it (as a pattern without metacharacters does), and a lone opening
    parenthesis does not compile; [op.replace] sets every target to
    the replacement followed by the source; the filesystem is the
    directory [d] with the files [a.txt] and [b.txt]. *)

Module SimSearch.

Definition Abs (path : string) : string + string :=
  inl (if String.prefix "/" path then path else "/home/u/" +:+ path).

Definition isHidden (name baseDir : string) : bool + string :=
  inl (String.prefix "." name).

Definition MatchString (pattern text : string) : bool :=
  match String.index 0 pattern text with Some _ => true | None => false end.

Definition Compile (pattern : string) : option string :=
  if String.eqb pattern "("
  then Some "error parsing regexp: missing closing ): `(`" else None.

Definition replace (s : Search) (op : Operation) : Search * Operation * option string :=
  (s,
   withMatches (map (fun ch => setTarget (replacement s +:+ Source ch) ch) (matches op)) op,
   None).

Definition StatInfo (path : string) : FileInfo + string :=
  if String.eqb path "d" then inl (mkFileInfo "d" true)
  else if String.eqb path "d/a.txt" then inl (mkFileInfo "a.txt" false)
  else if String.eqb path "d/b.txt" then inl (mkFileInfo "b.txt" false)
  else inr ("stat " +:+ path +:+ ": no such file or directory").

Definition ReadDir (path : string) : list DirEntry + string :=
  if String.eqb path "d"
  then inl [mkDirEntry "a.txt" false; mkDirEntry "b.txt" false]
  else if String.eqb path "." then inl [mkDirEntry "d" true]
  else inr ("open " +:+ path +:+ ": no such file or directory").

Definition search (find replace_ : list string) (candidates : list Change) : Search :=
  mkSearch (hd ".*" find) "" "" find [] replace_ [] candidates 0 0
           false false false false false false false.

Definition flags (find replace_ args : list string) : Flags :=
  mkFlags find replace_ "" false false args false false false false false false
          false false [] 0 false false 0 false false "" "".

End SimSearch.

(** * Properties *)

(** ** The library models on known values *)

Example utf8_runes_ascii : Utf8.runes "a.b" = [97; 46; 98].
Proof. reflexivity. Qed.

Example utf8_itoa : GoInt.Itoa (-12) = "-12" /\ GoInt.Itoa 0 = "0".
Proof. split; reflexivity. Qed.

Example clean_examples :
  map Filepath.Unix.Clean
      ["a/b/../c"; "../a"; "/../a"; "a//b/"; "a/.."; "a/../.."; "./a"; "/";
       "a/./b"; "../../a/../b"; ""; "abc/def/../../.."; "/abc/def/../.."]
  = ["a/c"; "../a"; "/a"; "a/b"; "."; ".."; "a"; "/"; "a/b"; "../../b"; ".";
     ".."; "/"].
Proof. reflexivity. Qed.

Example base_ext_dir_examples :
  map Filepath.Unix.Base ["a/b.txt"; "a/"; "/"; ""; "b"; "///"]
  = ["b.txt"; "a"; "/"; "."; "b"; "/"]
  /\ map Filepath.Unix.Ext ["a.b/c"; "x.tar.gz"; ".bashrc"; "a/b.txt"; "a."]
     = [""; ".gz"; ".bashrc"; ".txt"; "."]
  /\ map Filepath.Unix.Dir ["a/b"; "b"; "/a"; "a/b/"; "a/b/../c.txt"; ""]
     = ["a"; "."; "/"; "a/b"; "a"; "."]
  /\ Filepath.Unix.Join ["dir"; "sub/../x.txt"] = "dir/x.txt"
  /\ Filepath.Unix.Join [""; "x"] = "x"
  /\ Filepath.Unix.Join ["dir"; ""] = "dir"
  /\ Filepath.Unix.Join [""; ""] = ""
  /\ Filepath.Unix.Join ["f2"; "backups"; "_home_u.json"] = "f2/backups/_home_u.json".
Proof. repeat split; reflexivity. Qed.

Example windows_base_examples :
  map Filepath.Windows.Base ["C:\dir\a.txt"; "C:"; "a/b\c"; "\\host\share\x"; "\\host\share"]
  = ["a.txt"; "\"; "c"; "x"; "\"].
Proof. reflexivity. Qed.

Example fix_renumbering :
  match Linux.detectConflicts conflictsDir 20
          (operation [change "conflicts" "abc.txt" "123.txt";
                      change "conflicts" "xyz.txt" "123.txt"] true) with
  | Ok op => map Target (matches op)
  | _ => []
  end = ["123 (2).txt"; "123 (4).txt"].
Proof. vm_compute. reflexivity. Qed.

(** ** Generic facts about [result], [setMatch] and [addConflict] *)

Lemma rbind_Ok {A B : Type} (r : result A) (k : A -> result B) (b : B) :
  rbind r k = Ok b -> exists a, r = Ok a /\ k a = Ok b.
Proof. destruct r; simpl; intros H; try discriminate. eauto. Qed.

Lemma setMatch_Ok_inv i f o o' :
  setMatch i f o = Ok o' ->
  exists ch, matches o !! i = Some ch /\ o' = withMatches (<[i := f ch]> (matches o)) o.
Proof.
  unfold setMatch. destruct (matches o !! i) as [ch|]; intros H; inversion H; eauto.
Qed.

Lemma setMatch_in_range i f o :
  (i < length (matches o))%nat -> exists o', setMatch i f o = Ok o'.
Proof.
  intros Hi. unfold setMatch.
  destruct (lookup_lt_is_Some_2 (matches o) i Hi) as [ch ->]. eauto.
Qed.

(** ** The frame of the conflict engine *)

(** Two changes agree on every field the engine must not touch. *)
Definition sameFrame (a b : Change) : Prop :=
  originalSource a = originalSource b /\ BaseDir a = BaseDir b /\
  Source a = Source b /\ Error a = Error b /\ csvRow a = csvRow b /\
  index a = index b /\ IsDir a = IsDir b.

(** Two operations agree on everything but the conflict map and the
    [Target], [status] and [WillOverwrite] of their changes. *)
Definition opFrame (o o' : Operation) : Prop :=
  Forall2 sameFrame (matches o) (matches o') /\
  sort o = sort o' /\ workingDir o = workingDir o' /\ errors o = errors o' /\
  revert o = revert o' /\ includeDir o = includeDir o' /\
  allowOverwrites o = allowOverwrites o' /\ verbose o = verbose o' /\
  quiet o = quiet o' /\ fixConflicts o = fixConflicts o' /\ exec o = exec o' /\
  simpleMode o = simpleMode o' /\ json o = json o'.

Lemma sameFrame_refl a : sameFrame a a.
Proof. repeat split. Qed.

Lemma sameFrame_trans a b c : sameFrame a b -> sameFrame b c -> sameFrame a c.
Proof. unfold sameFrame. intuition congruence. Qed.

Lemma Forall2_sameFrame_refl l : Forall2 sameFrame l l.
Proof. induction l; constructor; auto using sameFrame_refl. Qed.

Lemma Forall2_sameFrame_trans l1 l2 l3 :
  Forall2 sameFrame l1 l2 -> Forall2 sameFrame l2 l3 -> Forall2 sameFrame l1 l3.
Proof.
  intros H. revert l3. induction H; intros l3 H3; inversion H3; subst; constructor;
    eauto using sameFrame_trans.
Qed.

Lemma opFrame_refl o : opFrame o o.
Proof. unfold opFrame. repeat split. apply Forall2_sameFrame_refl. Qed.

Lemma opFrame_trans o1 o2 o3 : opFrame o1 o2 -> opFrame o2 o3 -> opFrame o1 o3.
Proof.
  unfold opFrame. intros (H1 & E1) (H2 & E2). split.
  - eapply Forall2_sameFrame_trans; eassumption.
  - intuition congruence.
Qed.

Lemma opFrame_addConflict k c o : opFrame o (addConflict k c o).
Proof. unfold opFrame. repeat split. apply Forall2_sameFrame_refl. Qed.

Lemma opFrame_withConflicts c o : opFrame o (withConflicts c o).
Proof. unfold opFrame. repeat split. apply Forall2_sameFrame_refl. Qed.

Lemma Forall2_sameFrame_insert l i ch ch' :
  l !! i = Some ch -> sameFrame ch ch' -> Forall2 sameFrame l (<[i := ch']> l).
Proof.
  revert i. induction l as [|a l IH]; intros [|i] Hl Hf; simpl in *; try discriminate.
  - inversion Hl; subst. constructor; auto using Forall2_sameFrame_refl.
  - constructor; auto using sameFrame_refl.
Qed.

Lemma opFrame_setMatch i f o o' :
  (forall ch, sameFrame ch (f ch)) -> setMatch i f o = Ok o' -> opFrame o o'.
Proof.
  intros Hf H. apply setMatch_Ok_inv in H as (ch & Hch & ->).
  unfold opFrame. repeat split. simpl.
  eapply Forall2_sameFrame_insert; eauto.
Qed.

Lemma sameFrame_setTarget t ch : sameFrame ch (setTarget t ch).
Proof. repeat split. Qed.
Lemma sameFrame_setStatus s ch : sameFrame ch (setStatus s ch).
Proof. repeat split. Qed.
Lemma sameFrame_setWillOverwrite b ch : sameFrame ch (setWillOverwrite b ch).
Proof. repeat split. Qed.

(** *** Relations that every step of the engine preserves

    The engine changes an operation only through [addConflict] and
    through [setMatch] with one of three setters.  A preorder that these
    four steps respect therefore relates the operation before and after
    every function of the engine. *)

Section Preserved.

Variable GOOS : platform.
Variable filepath_Base : string -> string.
Variable filepath_Ext : string -> string.
Variable filepath_Dir : string -> string.
Variable filepath_Join : list string -> string.
Variable strings_EqualFold : string -> string -> bool.
Variable os_Stat : string -> option statError.
Variable rangeKeys : renamedMap -> list string.

Variable R : Operation -> Operation -> Prop.
Hypothesis R_refl : forall o, R o o.
Hypothesis R_trans : forall o1 o2 o3, R o1 o2 -> R o2 o3 -> R o1 o3.
Hypothesis R_addConflict : forall k c o, R o (addConflict k c o).
Hypothesis R_setTarget :
  forall i t o o', setMatch i (setTarget t) o = Ok o' -> R o o'.
Hypothesis R_setStatus :
  forall i s o o', setMatch i (setStatus s) o = Ok o' -> R o o'.
Hypothesis R_setWillOverwrite :
  forall i b o o', setMatch i (setWillOverwrite b) o = Ok o' -> R o o'.

(** Invert a chain of binds ending in [Ok], turning every [setMatch]
    into a fact about [R]. *)
Local Ltac pres_step :=
  match goal with
  | H : rbind _ _ = Ok _ |- _ =>
      apply rbind_Ok in H; destruct H as (? & ? & H)
  | H : setMatch _ (setTarget _) _ = Ok _ |- _ => apply R_setTarget in H
  | H : setMatch _ (setStatus _) _ = Ok _ |- _ => apply R_setStatus in H
  | H : setMatch _ (setWillOverwrite _) _ = Ok _ |- _ => apply R_setWillOverwrite in H
  | H : Ok _ = Ok _ |- _ => inversion H; subst; clear H
  | H : (if ?b then _ else _) = Ok _ |- _ => destruct b eqn:?
  | H : match ?x with Some _ => _ | None => _ end = Ok _ |- _ => destruct x eqn:?
  | H : (let '(_, _) := ?x in _) = Ok _ |- _ => destruct x
  | H : Panic = Ok _ |- _ => discriminate H
  | H : OutOfFuel = Ok _ |- _ => discriminate H
  end.

Local Ltac pres_chain :=
  repeat match goal with
    | |- R ?a ?a => apply R_refl
    | H : R ?a ?b |- R ?a ?c => apply (R_trans a b c H); clear H
    | |- R ?a (addConflict _ _ ?a) => apply R_addConflict
    | H : R (addConflict ?k ?c ?a) ?b |- R ?a _ =>
        apply (R_trans a (addConflict k c a)); [apply R_addConflict|]
    end.

Lemma pres_checkTrailingPeriodConflict sp t tp i o d o' :
  checkTrailingPeriodConflict GOOS sp t tp i o = Ok (d, o') -> R o o'.
Proof using R_refl R_trans R_addConflict R_setTarget R_setStatus R_setWillOverwrite.
  unfold checkTrailingPeriodConflict. intros H.
  repeat pres_step; pres_chain.
Qed.

Lemma pres_checkPathLengthConflict fuel sp t tp i o d o' :
  checkPathLengthConflict GOOS filepath_Base filepath_Ext filepath_Join
                          fuel sp t tp i o = Ok (d, o') -> R o o'.
Proof using R_refl R_trans R_addConflict R_setTarget R_setStatus R_setWillOverwrite.
  unfold checkPathLengthConflict. intros H.
  repeat pres_step; pres_chain.
Qed.

Lemma pres_checkForbiddenCharactersConflict sp t tp i o d o' :
  checkForbiddenCharactersConflict GOOS sp t tp i o = Ok (d, o') -> R o o'.
Proof using R_refl R_trans R_addConflict R_setTarget R_setStatus R_setWillOverwrite.
  unfold checkForbiddenCharactersConflict. intros H.
  repeat pres_step; pres_chain.
Qed.

Lemma pres_checkPathExistsConflict fuel sp tp ch i o d o' :
  checkPathExistsConflict filepath_Base filepath_Ext filepath_Dir filepath_Join
                          strings_EqualFold os_Stat fuel sp tp ch i o = Ok (d, o') ->
  R o o'.
Proof using R_refl R_trans R_addConflict R_setTarget R_setStatus R_setWillOverwrite.
  unfold checkPathExistsConflict. intros H.
  repeat pres_step; pres_chain.
Qed.

Lemma pres_detectLoop fuel : forall i o rp o' rp',
  detectLoop GOOS filepath_Base filepath_Ext filepath_Dir filepath_Join
             strings_EqualFold os_Stat fuel i o rp = Ok (o', rp') ->
  R o o'.
Proof using R_refl R_trans R_addConflict R_setTarget R_setStatus R_setWillOverwrite.
  induction fuel as [|fuel IH]; intros i o rp o' rp' H; simpl in H; [discriminate|].
  destruct (matches o !! i) as [ch|] eqn:Hch;
    [|inversion H; subst; apply R_refl].
  destruct (String.eqb (Target ch) "." || String.eqb (Target ch) "") eqn:Hempty.
  - repeat pres_step;
      match goal with H : detectLoop _ _ _ _ _ _ _ _ _ _ _ = Ok _ |- _ =>
        apply IH in H end; pres_chain.
  - apply rbind_Ok in H as ([d1 o1] & H1 & H).
    apply pres_checkTrailingPeriodConflict in H1.
    destruct (d1 && fixConflicts o1);
      [apply IH in H; eapply R_trans; eassumption|].
    apply rbind_Ok in H as ([d2 o2] & H2 & H).
    apply pres_checkPathLengthConflict in H2.
    destruct (d2 && fixConflicts o2);
      [apply IH in H; eauto using R_trans|].
    apply rbind_Ok in H as ([d3 o3] & H3 & H).
    apply pres_checkForbiddenCharactersConflict in H3.
    destruct (d3 && fixConflicts o3);
      [apply IH in H; eauto using R_trans|].
    apply rbind_Ok in H as ([d4 o4] & H4 & H).
    apply pres_checkPathExistsConflict in H4.
    destruct (d4 && fixConflicts o4);
      apply IH in H; eauto using R_trans.
Qed.

Lemma pres_markOverwriting source : forall o o',
  markOverwriting source o = Ok o' -> R o o'.
Proof using R_refl R_trans R_addConflict R_setTarget R_setStatus R_setWillOverwrite.
  induction source as [|s source IH]; intros o o' H; simpl in H.
  - inversion H; subst; apply R_refl.
  - apply rbind_Ok in H as (o1 & H1 & H). apply IH in H.
    apply R_setStatus in H1. eauto using R_trans.
Qed.

Lemma pres_fixOverwriting fuel : forall source o rp o' rp',
  fixOverwriting filepath_Base filepath_Ext filepath_Dir filepath_Join os_Stat
                 fuel source o rp = Ok (o', rp') ->
  R o o'.
Proof using R_refl R_trans R_addConflict R_setTarget R_setStatus R_setWillOverwrite.
  induction fuel as [|fuel IH]; intros source o rp o' rp' H; simpl in H;
    [discriminate|].
  destruct source as [|item rest]; [inversion H; subst; apply R_refl|].
  destruct (matches o !! sourceIndex item) as [ch|]; [|discriminate].
  apply rbind_Ok in H as (t & _ & H).
  apply rbind_Ok in H as (o1 & H1 & H).
  apply rbind_Ok in H as (o2 & H2 & H).
  apply R_setTarget in H1. apply R_setStatus in H2.
  destruct (rp !! _); apply IH in H; eauto using R_trans.
Qed.

Lemma pres_overwritingAt fuel k o rp o' rp' :
  overwritingAt filepath_Base filepath_Ext filepath_Dir filepath_Join os_Stat
                fuel k o rp = Ok (o', rp') ->
  R o o'.
Proof using R_refl R_trans R_addConflict R_setTarget R_setStatus R_setWillOverwrite.
  unfold overwritingAt. intros H.
  destruct (1 <? length _)%nat; [|inversion H; subst; apply R_refl].
  apply rbind_Ok in H as (o1 & H1 & H). apply pres_markOverwriting in H1.
  destruct (fixConflicts _).
  - apply pres_fixOverwriting in H.
    eapply R_trans; [eassumption|].
    eapply R_trans; [apply R_addConflict|eassumption].
  - inversion H; subst.
    eapply R_trans; [eassumption|apply R_addConflict].
Qed.

Lemma pres_overwritingLoop fuel keys : forall o rp o' rp',
  overwritingLoop filepath_Base filepath_Ext filepath_Dir filepath_Join os_Stat
                  fuel keys o rp = Ok (o', rp') ->
  R o o'.
Proof using R_refl R_trans R_addConflict R_setTarget R_setStatus R_setWillOverwrite.
  induction keys as [|k keys IH]; intros o rp o' rp' H; simpl in H.
  - inversion H; subst; apply R_refl.
  - apply rbind_Ok in H as ([o1 rp1] & H1 & H).
    apply pres_overwritingAt in H1. apply IH in H. eauto using R_trans.
Qed.

(** [detectConflicts] first resets the conflict map. *)
Lemma pres_detectConflicts fuel o o' :
  detectConflicts GOOS filepath_Base filepath_Ext filepath_Dir filepath_Join
                  strings_EqualFold os_Stat rangeKeys fuel o = Ok o' ->
  R (withConflicts ∅ o) o'.
Proof using R_refl R_trans R_addConflict R_setTarget R_setStatus R_setWillOverwrite.
  unfold detectConflicts, checkOverwritingPathConflict. intros H.
  apply rbind_Ok in H as ([o1 rp1] & H1 & H).
  apply rbind_Ok in H as ([o2 rp2] & H2 & H).
  inversion H; subst.
  apply pres_detectLoop in H1. apply pres_overwritingLoop in H2.
  eauto using R_trans.
Qed.

End Preserved.

(** The frame is such a relation. *)
Section Frame.

Variable GOOS : platform.
Variable filepath_Base : string -> string.
Variable filepath_Ext : string -> string.
Variable filepath_Dir : string -> string.
Variable filepath_Join : list string -> string.
Variable strings_EqualFold : string -> string -> bool.
Variable os_Stat : string -> option statError.
Variable rangeKeys : renamedMap -> list string.

Local Ltac by_frame lem :=
  intros H; eapply (lem opFrame opFrame_refl opFrame_trans opFrame_addConflict);
  [ intros ? ? ? ?; apply opFrame_setMatch, sameFrame_setTarget
  | intros ? ? ? ?; apply opFrame_setMatch, sameFrame_setStatus
  | intros ? ? ? ?; apply opFrame_setMatch, sameFrame_setWillOverwrite
  | exact H ].

Lemma frame_checkTrailingPeriodConflict sp t tp i o d o' :
  checkTrailingPeriodConflict GOOS sp t tp i o = Ok (d, o') -> opFrame o o'.
Proof. by_frame (pres_checkTrailingPeriodConflict GOOS). Qed.

Lemma frame_checkPathLengthConflict fuel sp t tp i o d o' :
  checkPathLengthConflict GOOS filepath_Base filepath_Ext filepath_Join
                          fuel sp t tp i o = Ok (d, o') -> opFrame o o'.
Proof.
  by_frame (pres_checkPathLengthConflict GOOS filepath_Base filepath_Ext filepath_Join).
Qed.

Lemma frame_checkForbiddenCharactersConflict sp t tp i o d o' :
  checkForbiddenCharactersConflict GOOS sp t tp i o = Ok (d, o') -> opFrame o o'.
Proof. by_frame (pres_checkForbiddenCharactersConflict GOOS). Qed.

Lemma frame_checkPathExistsConflict fuel sp tp ch i o d o' :
  checkPathExistsConflict filepath_Base filepath_Ext filepath_Dir filepath_Join
                          strings_EqualFold os_Stat fuel sp tp ch i o = Ok (d, o') ->
  opFrame o o'.
Proof.
  by_frame (pres_checkPathExistsConflict filepath_Base filepath_Ext filepath_Dir
              filepath_Join strings_EqualFold os_Stat).
Qed.

Lemma frame_detectLoop fuel i o rp o' rp' :
  detectLoop GOOS filepath_Base filepath_Ext filepath_Dir filepath_Join
             strings_EqualFold os_Stat fuel i o rp = Ok (o', rp') ->
  opFrame o o'.
Proof.
  by_frame (pres_detectLoop GOOS filepath_Base filepath_Ext filepath_Dir
              filepath_Join strings_EqualFold os_Stat).
Qed.

Lemma frame_markOverwriting source o o' :
  markOverwriting source o = Ok o' -> opFrame o o'.
Proof. by_frame pres_markOverwriting. Qed.

Lemma frame_overwritingLoop fuel keys o rp o' rp' :
  overwritingLoop filepath_Base filepath_Ext filepath_Dir filepath_Join os_Stat
                  fuel keys o rp = Ok (o', rp') ->
  opFrame o o'.
Proof.
  by_frame (pres_overwritingLoop filepath_Base filepath_Ext filepath_Dir
              filepath_Join os_Stat).
Qed.

Lemma frame_detectConflicts fuel o o' :
  detectConflicts GOOS filepath_Base filepath_Ext filepath_Dir filepath_Join
                  strings_EqualFold os_Stat rangeKeys fuel o = Ok o' ->
  opFrame o o'.
Proof.
  intros H. apply (opFrame_trans _ _ _ (opFrame_withConflicts ∅ o)). revert H.
  by_frame (pres_detectConflicts GOOS filepath_Base filepath_Ext filepath_Dir
              filepath_Join strings_EqualFold os_Stat rangeKeys).
Qed.

End Frame.

(** ** Detection without auto-fix always finishes *)

Lemma opFrame_length o o' : opFrame o o' -> length (matches o) = length (matches o').
Proof. intros (H & _). eapply Forall2_length, H. Qed.

Lemma opFrame_fixConflicts o o' : opFrame o o' -> fixConflicts o = fixConflicts o'.
Proof. unfold opFrame. tauto. Qed.

Lemma setMatch_Some i f o ch :
  matches o !! i = Some ch ->
  setMatch i f o = Ok (withMatches (<[i := f ch]> (matches o)) o).
Proof. unfold setMatch. intros ->. reflexivity. Qed.

(** Every index recorded in [renamedPaths] is an index of [op.matches]. *)
Definition rpWf (n : nat) (rp : renamedMap) : Prop :=
  forall k l r, rp !! k = Some l -> r ∈ l -> (sourceIndex r < n)%nat.

Lemma rpWf_empty n : rpWf n ∅.
Proof. intros k l r H. rewrite lookup_empty in H. discriminate. Qed.

Lemma rpWf_claim n tp sp i rp :
  (i < n)%nat -> rpWf n rp -> rpWf n (claim tp sp i rp).
Proof.
  intros Hi Hwf k l r Hl Hr. unfold claim in Hl.
  destruct (decide (tp = k)) as [->|Hne].
  - rewrite lookup_insert_eq in Hl. inversion Hl; subst; clear Hl.
    apply elem_of_app in Hr as [Hr|Hr].
    + destruct (rp !! k) as [l0|] eqn:E; simpl in Hr.
      * eapply Hwf; eauto.
      * inversion Hr.
    + apply list_elem_of_singleton in Hr. subst. simpl. exact Hi.
  - rewrite lookup_insert_ne in Hl by assumption. eapply Hwf; eauto.
Qed.

Lemma rpWf_insert_nil n k rp : rpWf n rp -> rpWf n (<[k := []]> rp).
Proof.
  intros Hwf k' l r Hl Hr.
  destruct (decide (k = k')) as [->|Hne].
  - rewrite lookup_insert_eq in Hl. inversion Hl; subst. inversion Hr.
  - rewrite lookup_insert_ne in Hl by assumption. eapply Hwf; eauto.
Qed.

Section Totality.

Variable GOOS : platform.
Variable filepath_Base : string -> string.
Variable filepath_Ext : string -> string.
Variable filepath_Dir : string -> string.
Variable filepath_Join : list string -> string.
Variable strings_EqualFold : string -> string -> bool.
Variable os_Stat : string -> option statError.
Variable rangeKeys : renamedMap -> list string.

Local Abbreviation detectLoop :=
  (detectLoop GOOS filepath_Base filepath_Ext filepath_Dir filepath_Join
              strings_EqualFold os_Stat).
Local Abbreviation detectConflicts :=
  (detectConflicts GOOS filepath_Base filepath_Ext filepath_Dir filepath_Join
                   strings_EqualFold os_Stat rangeKeys).

Lemma detectLoop_wf fuel : forall i o rp o' rp',
  detectLoop fuel i o rp = Ok (o', rp') ->
  rpWf (length (matches o)) rp -> rpWf (length (matches o')) rp'.
Proof.
  induction fuel as [|fuel IH]; intros i o rp o' rp' H Hwf; simpl in H;
    [discriminate|].
  destruct (matches o !! i) as [ch|] eqn:Hch; [|inversion H; subst; exact Hwf].
  pose proof (lookup_lt_Some _ _ _ Hch) as Hi.
  destruct (String.eqb (Target ch) "." || String.eqb (Target ch) "") eqn:Hempty.
  - apply rbind_Ok in H as (o1 & H1 & H).
    apply rbind_Ok in H as (o2 & H2 & H).
    apply IH in H; [exact H|].
    assert (opFrame o o2) as F.
    { clear H. apply opFrame_setMatch in H1; [|apply sameFrame_setStatus].
      assert (opFrame o1 o2) as F2.
      { destruct (fixConflicts o1).
        - apply rbind_Ok in H2 as (o3 & H3 & H2).
          apply opFrame_setMatch in H3; [|apply sameFrame_setTarget].
          apply opFrame_setMatch in H2; [|apply sameFrame_setStatus].
          eapply opFrame_trans; eassumption.
        - inversion H2; subst. apply opFrame_refl. }
      eapply opFrame_trans; [apply opFrame_addConflict|].
      eapply opFrame_trans; eassumption. }
    rewrite <- (opFrame_length _ _ F). exact Hwf.
  - apply rbind_Ok in H as ([d1 o1] & H1 & H).
    apply frame_checkTrailingPeriodConflict in H1.
    pose proof (opFrame_length _ _ H1) as L1.
    destruct (d1 && fixConflicts o1);
      [apply IH in H; [exact H|rewrite <- L1; exact Hwf]|].
    apply rbind_Ok in H as ([d2 o2] & H2 & H).
    apply frame_checkPathLengthConflict in H2.
    pose proof (opFrame_length _ _ H2) as L2.
    destruct (d2 && fixConflicts o2);
      [apply IH in H; [exact H|rewrite <- L2, <- L1; exact Hwf]|].
    apply rbind_Ok in H as ([d3 o3] & H3 & H).
    apply frame_checkForbiddenCharactersConflict in H3.
    pose proof (opFrame_length _ _ H3) as L3.
    destruct (d3 && fixConflicts o3);
      [apply IH in H; [exact H|rewrite <- L3, <- L2, <- L1; exact Hwf]|].
    apply rbind_Ok in H as ([d4 o4] & H4 & H).
    apply frame_checkPathExistsConflict in H4.
    pose proof (opFrame_length _ _ H4) as L4.
    destruct (d4 && fixConflicts o4);
      (apply IH in H; [exact H|]); rewrite <- L4, <- L3, <- L2, <- L1;
      [exact Hwf|apply rpWf_claim; assumption].
Qed.

(** With auto-fix off every check returns, and leaves auto-fix off. *)
Lemma nofix_checkTrailingPeriodConflict sp t tp i o ch :
  matches o !! i = Some ch -> fixConflicts o = false ->
  exists d o', checkTrailingPeriodConflict GOOS sp t tp i o = Ok (d, o')
               /\ d && fixConflicts o' = false.
Proof.
  intros Hch Hfix. unfold checkTrailingPeriodConflict.
  destruct (isWindows GOOS); [|eauto using andb_false_intro2].
  destruct (existsb _ _); [|eauto using andb_false_intro2].
  erewrite setMatch_Some by exact Hch. simpl. rewrite Hfix.
  eauto using andb_false_intro2.
Qed.

Lemma nofix_checkPathLengthConflict fuel sp t tp i o ch :
  matches o !! i = Some ch -> fixConflicts o = false ->
  exists d o', checkPathLengthConflict GOOS filepath_Base filepath_Ext filepath_Join
                 fuel sp t tp i o = Ok (d, o')
               /\ d && fixConflicts o' = false.
Proof.
  intros Hch Hfix. unfold checkPathLengthConflict.
  destruct (checktTargetLength _ _ _); [|eauto using andb_false_intro2].
  erewrite setMatch_Some by exact Hch. simpl. rewrite Hfix.
  eauto using andb_false_intro2.
Qed.

Lemma nofix_checkForbiddenCharactersConflict sp t tp i o ch :
  matches o !! i = Some ch -> fixConflicts o = false ->
  exists d o', checkForbiddenCharactersConflict GOOS sp t tp i o = Ok (d, o')
               /\ d && fixConflicts o' = false.
Proof.
  intros Hch Hfix. unfold checkForbiddenCharactersConflict.
  destruct (checkForbiddenCharacters _ _); [|eauto using andb_false_intro2].
  erewrite setMatch_Some by exact Hch. simpl. rewrite Hfix.
  eauto using andb_false_intro2.
Qed.

Lemma nofix_checkPathExistsConflict fuel sp tp ch0 i o ch :
  matches o !! i = Some ch -> fixConflicts o = false ->
  exists d o', checkPathExistsConflict filepath_Base filepath_Ext filepath_Dir
                 filepath_Join strings_EqualFold os_Stat fuel sp tp ch0 i o
               = Ok (d, o')
               /\ d && fixConflicts o' = false.
Proof.
  intros Hch Hfix. unfold checkPathExistsConflict.
  destruct (statExists _ _); [|eauto using andb_false_intro2].
  destruct (strings_EqualFold _ _).
  { erewrite setMatch_Some by exact Hch. simpl. eauto. }
  destruct (allowOverwrites o).
  { erewrite setMatch_Some by exact Hch. simpl.
    erewrite setMatch_Some by (simpl; apply list_lookup_insert_eq;
                               eapply lookup_lt_Some; exact Hch).
    simpl. eauto. }
  destruct (vacatedEarlier _ _ _ _ _); [eauto using andb_false_intro2|].
  erewrite setMatch_Some by exact Hch. simpl. rewrite Hfix.
  eauto using andb_false_intro2.
Qed.

Lemma detectLoop_nofix_total n : forall fuel i o rp,
  fixConflicts o = false ->
  (length (matches o) - i <= n)%nat -> (n < fuel)%nat ->
  exists o' rp', detectLoop fuel i o rp = Ok (o', rp').
Proof.
  induction n as [|n IH]; intros fuel i o rp Hfix Hn Hfuel;
    (destruct fuel as [|fuel]; [lia|]); simpl.
  - rewrite lookup_ge_None_2 by lia. eauto.
  - destruct (matches o !! i) as [ch|] eqn:Hch; [|eauto].
    pose proof (lookup_lt_Some _ _ _ Hch) as Hi.
    destruct (String.eqb (Target ch) "." || String.eqb (Target ch) "").
    + erewrite setMatch_Some by exact Hch. simpl. rewrite Hfix. simpl.
      apply IH; simpl; [assumption|rewrite length_insert; lia|lia].
    + set (sp := filepath_Join [BaseDir ch; Source ch]).
      set (tp := filepath_Join [BaseDir ch; Target ch]).
      destruct (nofix_checkTrailingPeriodConflict sp (Target ch) tp i o ch Hch Hfix)
        as (d1 & o1 & E1 & F1).
      rewrite E1. simpl. rewrite F1.
      apply frame_checkTrailingPeriodConflict in E1.
      pose proof (opFrame_length _ _ E1) as L1.
      pose proof (opFrame_fixConflicts _ _ E1) as X1. rewrite Hfix in X1.
      destruct (lookup_lt_is_Some_2 (matches o1) i ltac:(lia)) as [c1 Hc1].
      destruct (nofix_checkPathLengthConflict fuel sp (Target ch) tp i o1 c1 Hc1
                  (eq_sym X1)) as (d2 & o2 & E2 & F2).
      rewrite E2. simpl. rewrite F2.
      apply frame_checkPathLengthConflict in E2.
      pose proof (opFrame_length _ _ E2) as L2.
      pose proof (opFrame_fixConflicts _ _ E2) as X2. rewrite <- X1 in X2.
      destruct (lookup_lt_is_Some_2 (matches o2) i ltac:(lia)) as [c2 Hc2].
      destruct (nofix_checkForbiddenCharactersConflict sp (Target ch) tp i o2 c2 Hc2
                  (eq_sym X2)) as (d3 & o3 & E3 & F3).
      rewrite E3. simpl. rewrite F3.
      apply frame_checkForbiddenCharactersConflict in E3.
      pose proof (opFrame_length _ _ E3) as L3.
      pose proof (opFrame_fixConflicts _ _ E3) as X3. rewrite <- X2 in X3.
      destruct (lookup_lt_is_Some_2 (matches o3) i ltac:(lia)) as [c3 Hc3].
      destruct (nofix_checkPathExistsConflict fuel sp tp ch i o3 c3 Hc3
                  (eq_sym X3)) as (d4 & o4 & E4 & F4).
      rewrite E4. simpl. rewrite F4.
      apply frame_checkPathExistsConflict in E4.
      pose proof (opFrame_length _ _ E4) as L4.
      pose proof (opFrame_fixConflicts _ _ E4) as X4. rewrite <- X3 in X4.
      apply IH; [auto|lia|lia].
Qed.

Lemma markOverwriting_total source : forall o,
  Forall (fun r => sourceIndex r < length (matches o))%nat source ->
  exists o', markOverwriting source o = Ok o'.
Proof.
  induction source as [|s source IH]; intros o Hall; simpl; [eauto|].
  inversion Hall as [|? ? Hs Hrest]; subst.
  destruct (lookup_lt_is_Some_2 (matches o) _ Hs) as [ch Hch].
  erewrite setMatch_Some by exact Hch. simpl.
  apply IH. simpl. rewrite length_insert. exact Hrest.
Qed.

Lemma overwritingLoop_nofix_total fuel keys : forall o rp,
  fixConflicts o = false -> rpWf (length (matches o)) rp ->
  exists o', overwritingLoop filepath_Base filepath_Ext filepath_Dir filepath_Join
               os_Stat fuel keys o rp = Ok (o', rp).
Proof.
  induction keys as [|k keys IH]; intros o rp Hfix Hwf; simpl; [eauto|].
  unfold overwritingAt.
  destruct (1 <? length _)%nat; simpl; [|apply IH; assumption].
  destruct (markOverwriting_total (default [] (rp !! k)) o) as [o1 E1].
  { apply Forall_forall. intros r Hr.
    destruct (rp !! k) as [l|] eqn:El; simpl in Hr; [|inversion Hr].
    eapply Hwf; eauto. }
  rewrite E1. simpl.
  apply frame_markOverwriting in E1.
  rewrite <- (opFrame_fixConflicts _ _ E1), Hfix. simpl.
  apply IH; simpl.
  - rewrite <- (opFrame_fixConflicts _ _ E1). exact Hfix.
  - rewrite <- (opFrame_length _ _ E1). exact Hwf.
Qed.

(** With auto-fix off, [detectConflicts] returns as soon as the fuel
    exceeds the number of matches. *)
Lemma detectConflicts_nofix_total fuel o :
  fixConflicts o = false -> (length (matches o) < fuel)%nat ->
  exists o', detectConflicts fuel o = Ok o'.
Proof.
  intros Hfix Hfuel. unfold detectConflicts, checkOverwritingPathConflict.
  destruct (detectLoop_nofix_total (length (matches o)) fuel 0
              (withConflicts ∅ o) ∅) as (o1 & rp1 & E1);
    [exact Hfix|simpl; lia|exact Hfuel|].
  rewrite E1. simpl.
  pose proof (detectLoop_wf _ _ _ _ _ _ E1 (rpWf_empty _)) as Hwf.
  apply frame_detectLoop in E1.
  destruct (overwritingLoop_nofix_total fuel (rangeKeys rp1) o1 rp1) as [o2 E2];
    [rewrite <- (opFrame_fixConflicts _ _ E1); exact Hfix|exact Hwf|].
  rewrite E2. simpl. eauto.
Qed.

End Totality.

(** ** Conflicts are only ever appended *)

Definition conflictsAt (o : Operation) (k : ConflictType) : list Conflict :=
  default [] (conflicts o !! k).

(** Every conflict recorded in [o] is still recorded, in place, in [o']. *)
Definition conflictsKept (o o' : Operation) : Prop :=
  forall k, conflictsAt o k `prefix_of` conflictsAt o' k.

Lemma conflictsKept_refl o : conflictsKept o o.
Proof. intros k. reflexivity. Qed.

Lemma conflictsKept_trans o1 o2 o3 :
  conflictsKept o1 o2 -> conflictsKept o2 o3 -> conflictsKept o1 o3.
Proof. intros H1 H2 k. etransitivity; [apply H1|apply H2]. Qed.

Lemma conflictsKept_addConflict k c o : conflictsKept o (addConflict k c o).
Proof.
  intros k'. unfold conflictsAt, addConflict. simpl.
  destruct (decide (k = k')) as [->|Hne].
  - rewrite lookup_insert_eq. simpl. apply prefix_app_r. reflexivity.
  - rewrite lookup_insert_ne by assumption. reflexivity.
Qed.

Lemma conflictsKept_setMatch i f o o' :
  setMatch i f o = Ok o' -> conflictsKept o o'.
Proof. intros H. apply setMatch_Ok_inv in H as (ch & _ & ->). intros k. reflexivity. Qed.

Lemma conflictsAt_addConflict k c o :
  conflictsAt (addConflict k c o) k = conflictsAt o k ++ [c].
Proof. unfold conflictsAt, addConflict. simpl. rewrite lookup_insert_eq. reflexivity. Qed.

Lemma conflictsKept_nonempty o o' k c :
  conflictsKept o o' -> c ∈ conflictsAt o k -> c ∈ conflictsAt o' k.
Proof. intros H Hc. destruct (H k) as [l ->]. apply elem_of_app. auto. Qed.

Lemma conflicts_size_pos o k c : c ∈ conflictsAt o k -> (0 < size (conflicts o))%nat.
Proof.
  unfold conflictsAt. intros Hc.
  destruct (conflicts o !! k) as [l|] eqn:E; simpl in Hc; [|inversion Hc].
  destruct (decide (size (conflicts o) = 0%nat)) as [Hz|]; [|lia].
  apply map_size_empty_inv in Hz. rewrite Hz, lookup_empty in E. discriminate.
Qed.

Section Kept.

Variable GOOS : platform.
Variable filepath_Base : string -> string.
Variable filepath_Ext : string -> string.
Variable filepath_Dir : string -> string.
Variable filepath_Join : list string -> string.
Variable strings_EqualFold : string -> string -> bool.
Variable os_Stat : string -> option statError.
Variable rangeKeys : renamedMap -> list string.

Local Ltac by_kept lem :=
  intros H;
  eapply (lem conflictsKept conflictsKept_refl conflictsKept_trans
              conflictsKept_addConflict);
  [ intros ? ? ? ?; apply conflictsKept_setMatch
  | intros ? ? ? ?; apply conflictsKept_setMatch
  | intros ? ? ? ?; apply conflictsKept_setMatch
  | exact H ].

Lemma kept_detectLoop fuel i o rp o' rp' :
  detectLoop GOOS filepath_Base filepath_Ext filepath_Dir filepath_Join
             strings_EqualFold os_Stat fuel i o rp = Ok (o', rp') ->
  conflictsKept o o'.
Proof.
  by_kept (pres_detectLoop GOOS filepath_Base filepath_Ext filepath_Dir
             filepath_Join strings_EqualFold os_Stat).
Qed.

Lemma kept_overwritingLoop fuel keys o rp o' rp' :
  overwritingLoop filepath_Base filepath_Ext filepath_Dir filepath_Join os_Stat
                  fuel keys o rp = Ok (o', rp') ->
  conflictsKept o o'.
Proof.
  by_kept (pres_overwritingLoop filepath_Base filepath_Ext filepath_Dir
             filepath_Join os_Stat).
Qed.

End Kept.

(** *** A check that detects a conflict records it *)

Lemma setMatch_conflicts i f o o' :
  setMatch i f o = Ok o' -> conflicts o' = conflicts o.
Proof. intros H. apply setMatch_Ok_inv in H as (ch & _ & ->). reflexivity. Qed.

Ltac conflicts_step :=
  match goal with
  | H : rbind _ _ = Ok _ |- _ =>
      apply rbind_Ok in H; destruct H as (? & ? & H)
  | H : setMatch _ _ _ = Ok _ |- _ => apply setMatch_conflicts in H
  | H : Ok _ = Ok _ |- _ => inversion H; subst; clear H
  | H : (if ?b then _ else _) = Ok _ |- _ => destruct b eqn:?
  | H : match ?x with Some _ => _ | None => _ end = Ok _ |- _ => destruct x eqn:?
  | H : Panic = Ok _ |- _ => discriminate H
  | H : OutOfFuel = Ok _ |- _ => discriminate H
  end.

Section Recorded.

Variable GOOS : platform.
Variable filepath_Base : string -> string.
Variable filepath_Ext : string -> string.
Variable filepath_Dir : string -> string.
Variable filepath_Join : list string -> string.
Variable strings_EqualFold : string -> string -> bool.
Variable os_Stat : string -> option statError.

Lemma recorded_checkTrailingPeriodConflict sp t tp i o d o' :
  checkTrailingPeriodConflict GOOS sp t tp i o = Ok (d, o') ->
  conflicts o'
  = if d then conflicts (addConflict trailingPeriod (mkConflict tp "" [sp]) o)
    else conflicts o.
Proof.
  unfold checkTrailingPeriodConflict. intros H.
  repeat conflicts_step; simpl in *; congruence.
Qed.

Lemma recorded_checkPathLengthConflict fuel sp t tp i o d o' :
  checkPathLengthConflict GOOS filepath_Base filepath_Ext filepath_Join
                          fuel sp t tp i o = Ok (d, o') ->
  if d
  then exists cause,
      checktTargetLength GOOS filepath_Base t = Some cause
      /\ conflicts o'
         = conflicts (addConflict maxFilenameLengthExceeded (mkConflict tp cause [sp]) o)
  else conflicts o' = conflicts o.
Proof.
  unfold checkPathLengthConflict. intros H.
  repeat conflicts_step; simpl in *; try congruence;
    eexists; (split; [reflexivity|]); congruence.
Qed.

Lemma recorded_checkForbiddenCharactersConflict sp t tp i o d o' :
  checkForbiddenCharactersConflict GOOS sp t tp i o = Ok (d, o') ->
  if d
  then exists cause,
      checkForbiddenCharacters GOOS t = Some cause
      /\ conflicts o'
         = conflicts (addConflict invalidCharacters (mkConflict tp cause [sp]) o)
  else conflicts o' = conflicts o.
Proof.
  unfold checkForbiddenCharactersConflict. intros H.
  repeat conflicts_step; simpl in *; try congruence;
    eexists; (split; [reflexivity|]); congruence.
Qed.

Lemma recorded_checkPathExistsConflict fuel sp tp ch i o d o' :
  checkPathExistsConflict filepath_Base filepath_Ext filepath_Dir filepath_Join
                          strings_EqualFold os_Stat fuel sp tp ch i o = Ok (d, o') ->
  conflicts o'
  = if d then conflicts (addConflict fileExists (mkConflict tp "" [sp]) o)
    else conflicts o.
Proof.
  unfold checkPathExistsConflict. intros H.
  repeat conflicts_step; simpl in *; congruence.
Qed.

End Recorded.

(** ** The commit pipeline *)

Section PipelineFacts.

Variable GOOS : platform.
Variable filepath_Base : string -> string.
Variable filepath_Ext : string -> string.
Variable filepath_Dir : string -> string.
Variable filepath_Join : list string -> string.
Variable strings_EqualFold : string -> string -> bool.
Variable rangeKeys : renamedMap -> list string.
Variable World : Type.
Variable os_Stat : World -> string -> option statError.
Variable os_MkdirAll : World -> string -> World * option string.
Variable os_Rename : World -> string -> string -> World * option string.
Variable os_Remove : World -> string -> World * option string.
Variable xdg_DataFile : World -> string -> World * (string + string).
Variable xdg_SearchDataFile : World -> string -> string + string.
Variable os_WriteJSON : World -> string -> string -> list Change -> World * option string.
Variable os_ReadJSON : World -> string -> list Change + string.
Variable stdin_ReadString : World -> World * option string.
Variable sortMatches : list Change -> list Change.
Variable sortBy : World -> Operation -> Operation + string.
Variable prepare : World -> Operation -> Operation + error.

Local Abbreviation state := (state World).
Local Abbreviation renameStep :=
  (renameStep GOOS filepath_Dir filepath_Join World os_MkdirAll os_Rename).
Local Abbreviation rename :=
  (rename GOOS filepath_Dir filepath_Join World os_MkdirAll os_Rename).
Local Abbreviation backup :=
  (backup GOOS filepath_Join World xdg_DataFile os_WriteJSON).
Local Abbreviation handleErrors :=
  (handleErrors GOOS filepath_Join World xdg_DataFile os_WriteJSON).
Local Abbreviation commit :=
  (commit GOOS filepath_Dir filepath_Join World os_MkdirAll os_Rename
          xdg_DataFile os_WriteJSON).
Local Abbreviation detect w :=
  (detectConflicts GOOS filepath_Base filepath_Ext filepath_Dir filepath_Join
                   strings_EqualFold (os_Stat w) rangeKeys).
Local Abbreviation apply :=
  (apply GOOS filepath_Base filepath_Ext filepath_Dir filepath_Join
         strings_EqualFold rangeKeys World os_Stat os_MkdirAll os_Rename
         xdg_DataFile os_WriteJSON stdin_ReadString sortMatches).

(** What [rename] does to the outside world for one change whose
    joined source and target differ: create the directories of the
    target if it has any, then rename; the error text of the step that
    failed, if one did. *)
Definition attempt (w : World) (ch : Change) : World * option string :=
  let source := filepath_Join [BaseDir ch; Source ch] in
  let target := filepath_Join [BaseDir ch; Target ch] in
  let needDir :=
    GoString.containsByte "/"%char (Target ch)
    || GoString.containsByte "\"%char (Target ch) && isWindows GOOS in
  let '(w, mkerr) :=
    if needDir
    then os_MkdirAll w (filepath_Join [BaseDir ch; filepath_Dir (Target ch)])
    else (w, None) in
  match mkerr with
  | Some e => (w, Some e)
  | None => os_Rename w source target
  end.

Definition unchangedPath (ch : Change) : bool :=
  String.eqb (filepath_Join [BaseDir ch; Source ch])
             (filepath_Join [BaseDir ch; Target ch]).

(** The batch as a whole: change after change in list order, each on
    the world the previous ones left, whatever their outcome.  Returns
    the final world, the changes with the error texts recorded, and
    the indices that failed ([i] is the index of the head of [chs]). *)
Fixpoint renameAll (w : World) (i : nat) (chs : list Change)
  : World * list Change * list nat :=
  match chs with
  | [] => (w, [], [])
  | ch :: rest =>
      if unchangedPath ch then
        let '(w', m, e) := renameAll w (S i) rest in (w', ch :: m, e)
      else
        let '(w1, r) := attempt w ch in
        let '(w', m, e) := renameAll w1 (S i) rest in
        match r with
        | Some err => (w', setError err ch :: m, i :: e)
        | None => (w', ch :: m, e)
        end
  end.

Lemma renameStep_spec (st : state) errs pre ch rest :
  matches (op World st) = pre ++ ch :: rest ->
  exists st' : state,
    renameStep (st, errs) (length pre)
    = (st',
       errs ++ (if unchangedPath ch then []
                else match snd (attempt (world World st) ch) with
                     | Some _ => [length pre] | None => [] end))
    /\ world World st'
       = (if unchangedPath ch then world World st
          else fst (attempt (world World st) ch))
    /\ op World st'
       = withMatches
           (pre ++ (if unchangedPath ch then ch
                    else match snd (attempt (world World st) ch) with
                         | Some e => setError e ch | None => ch end) :: rest)
           (op World st).
Proof.
  intros Hm. unfold renameStep, attempt, unchangedPath.
  assert (matches (op World st) !! length pre = Some ch) as Hl.
  { rewrite Hm. apply list_lookup_middle. reflexivity. }
  assert (<[length pre := ch]> (matches (op World st)) = pre ++ ch :: rest) as Hid.
  { rewrite list_insert_id by exact Hl. exact Hm. }
  assert (forall c, <[length pre := c]> (matches (op World st)) = pre ++ c :: rest) as Hins.
  { intros c. rewrite Hm. rewrite insert_app_r_alt by lia.
    replace (length pre - length pre)%nat with 0%nat by lia. reflexivity. }
  rewrite Hl.
  destruct (String.eqb _ _).
  { eexists. split; [rewrite app_nil_r; reflexivity|]. split; [reflexivity|].
    destruct st as [o w ou]; destruct o; simpl in *. rewrite Hm. reflexivity. }
  destruct (_ || _).
  - destruct (os_MkdirAll _ _) as [w1 [e|]]; simpl.
    + eexists. split; [reflexivity|]. split; [reflexivity|].
      simpl. rewrite Hins. reflexivity.
    + destruct (os_Rename _ _ _) as [w2 [e|]]; simpl.
      * destruct (verbose _); eexists; (split; [reflexivity|]);
          (split; [reflexivity|]); simpl; rewrite Hins; reflexivity.
      * destruct (verbose _ && _); eexists;
          (split; [rewrite app_nil_r; reflexivity|]);
          (split; [reflexivity|]); simpl;
          destruct st as [o w ou]; destruct o; simpl in *; rewrite Hm; reflexivity.
  - destruct (os_Rename _ _ _) as [w2 [e|]]; simpl.
    + destruct (verbose _); eexists; (split; [reflexivity|]);
        (split; [reflexivity|]); simpl; rewrite Hins; reflexivity.
    + destruct (verbose _ && _); eexists;
        (split; [rewrite app_nil_r; reflexivity|]);
        (split; [reflexivity|]); simpl;
        destruct st as [o w ou]; destruct o; simpl in *; rewrite Hm; reflexivity.
Qed.

Lemma rename_fold rest : forall pre (st : state) errs,
  matches (op World st) = pre ++ rest ->
  exists st' : state,
    fold_left renameStep (seq (length pre) (length rest)) (st, errs)
    = (st', errs ++ (renameAll (world World st) (length pre) rest).2)
    /\ world World st' = (renameAll (world World st) (length pre) rest).1.1
    /\ op World st'
       = withMatches (pre ++ (renameAll (world World st) (length pre) rest).1.2)
                     (op World st).
Proof.
  induction rest as [|ch rest IH]; intros pre st errs Hm;
    cbn [length seq fold_left renameAll].
  - exists st. simpl. rewrite !app_nil_r. repeat split.
    destruct st as [o w ou]; destruct o; simpl in *. rewrite Hm, app_nil_r. reflexivity.
  - destruct (renameStep_spec st errs pre ch rest Hm) as (st1 & E1 & W1 & O1).
    rewrite E1.
    destruct (IH (pre ++ [if unchangedPath ch then ch
                          else match (attempt (world World st) ch).2 with
                               | Some e => setError e ch | None => ch end])
                 st1
                 (errs ++ (if unchangedPath ch then []
                           else match (attempt (world World st) ch).2 with
                                | Some _ => [length pre] | None => [] end)))
      as (st' & E & W & O).
    { rewrite O1. simpl. rewrite <- app_assoc. reflexivity. }
    rewrite length_app in E, W, O. simpl in E, W, O.
    replace (length pre + 1)%nat with (S (length pre)) in E, W, O by lia.
    exists st'. rewrite E, W, O, W1, O1. clear E W O E1 W1 O1 IH.
    destruct (unchangedPath ch).
    + destruct (renameAll _ _ _) as [[w' m] e]. simpl.
      rewrite app_nil_r, <- app_assoc. repeat split.
    + destruct (attempt _ _) as [w1 [err|]]; simpl;
        destruct (renameAll _ _ _) as [[w' m] e]; simpl;
        rewrite <- !app_assoc; repeat split.
Qed.

(** [rename] is the batch [renameAll]. *)
Lemma rename_spec (st : state) :
  world World (rename st) = (renameAll (world World st) 0 (matches (op World st))).1.1
  /\ op World (rename st)
     = withErrors (renameAll (world World st) 0 (matches (op World st))).2
         (withMatches (renameAll (world World st) 0 (matches (op World st))).1.2
                      (op World st)).
Proof.
  unfold rename.
  destruct (rename_fold (matches (op World st)) [] st [] eq_refl)
    as (st' & E & W & O).
  simpl in E. rewrite E. simpl. rewrite W, O. split; reflexivity.
Qed.

Lemma renameAll_length chs : forall w i,
  length (renameAll w i chs).1.2 = length chs
  /\ (length (renameAll w i chs).2 <= length chs)%nat.
Proof.
  induction chs as [|ch chs IH]; intros w i; simpl; [split; reflexivity|].
  destruct (unchangedPath ch).
  - specialize (IH w (S i)). destruct (renameAll _ _ _) as [[w' m] e].
    simpl in *. lia.
  - destruct (attempt w ch) as [w1 r]. specialize (IH w1 (S i)).
    destruct (renameAll _ _ _) as [[w' m] e]. destruct r; simpl in *; lia.
Qed.

(** The changes [rename] does not skip: those whose joined source and
    target differ. *)
Definition attempted (chs : list Change) : list Change :=
  List.filter (fun ch => negb (unchangedPath ch)) chs.

(** Only an attempted change can fail. *)
Lemma renameAll_failures chs : forall w i,
  (length (renameAll w i chs).2 <= length (attempted chs))%nat.
Proof.
  induction chs as [|ch chs IH]; intros w i; simpl; [lia|].
  destruct (unchangedPath ch); simpl.
  - specialize (IH w (S i)). destruct (renameAll _ _ _) as [[w' m] e]. exact IH.
  - destruct (attempt w ch) as [w1 r]. specialize (IH w1 (S i)).
    destruct (renameAll _ _ _) as [[w' m] e]. destruct r; simpl in *; lia.
Qed.

(** *** [backup], [handleErrors] and [commit] leave the operation alone *)

Lemma backup_op (st : state) : op World (backup st).1 = op World st.
Proof.
  unfold backup, writeToFile.
  destruct (xdg_DataFile _ _) as [w [f|e]]; simpl; [|reflexivity].
  destruct (os_WriteJSON _ _ _ _) as [w' err]. reflexivity.
Qed.

Lemma backup_err (st : state) : (backup st).2 <> Some errConflictDetected.
Proof.
  unfold backup, writeToFile.
  destruct (xdg_DataFile _ _) as [w [f|e]]; simpl; [|discriminate].
  destruct (os_WriteJSON _ _ _ _) as [w' [err|]]; discriminate.
Qed.

(** The world [backup] leaves depends on the operation and the world
    only. *)
Definition backupWorld (o : Operation) (w : World) : World :=
  world World (backup (mkState World o w [])).1.

Lemma backup_world (st : state) :
  world World (backup st).1 = backupWorld (op World st) (world World st).
Proof.
  unfold backupWorld, backup, writeToFile. simpl.
  destruct (xdg_DataFile _ _) as [w [f|e]]; simpl; [|reflexivity].
  destruct (os_WriteJSON _ _ _ _) as [w' err]. reflexivity.
Qed.

Lemma reportErrors_op_world (st : state) :
  op World (reportErrors World st) = op World st
  /\ world World (reportErrors World st) = world World st.
Proof. unfold reportErrors. destruct (json _); split; reflexivity. Qed.

Lemma printChanges_op_world (st : state) :
  op World (printChanges World st) = op World st
  /\ world World (printChanges World st) = world World st.
Proof.
  unfold printChanges. destruct (quiet _); [split; reflexivity|].
  destruct (json _); split; reflexivity.
Qed.

Lemma handleErrors_spec (st : state) :
  op World (handleErrors st).1 = op World st
  /\ (handleErrors st).2 <> Some errConflictDetected
  /\ world World (handleErrors st).1
     = if (length (errors (op World st)) <? length (matches (op World st)))%nat
          && negb (revert (op World st))
       then backupWorld (op World st) (world World st)
       else world World st.
Proof.
  unfold handleErrors.
  destruct (reportErrors_op_world st) as [Ho Hw].
  set (st1 := reportErrors World st) in *.
  rewrite Ho.
  destruct ((length (errors (op World st)) <? length (matches (op World st)))%nat
            && negb (revert (op World st))).
  - pose proof (backup_op st1) as Hb. pose proof (backup_world st1) as Hbw.
    rewrite Ho, Hw in Hbw.
    destruct (backup st1) as [st2 err]. simpl in Hb, Hbw.
    destruct err; destruct (0 <? _)%nat; simpl; rewrite ?Hb, ?Ho;
      (split; [reflexivity|split; [discriminate|assumption]]).
  - destruct (0 <? _)%nat; simpl; rewrite ?Ho;
      (split; [reflexivity|split; [discriminate|assumption]]).
Qed.

Lemma commit_spec (st : state) :
  op World (commit st).1 = op World (rename st)
  /\ (commit st).2 <> Some errConflictDetected
  /\ (matches (op World st) <> [] ->
      world World (commit st).1
      = if (length (errors (op World (rename st)))
            <? length (matches (op World st)))%nat
           && negb (revert (op World st))
        then backupWorld (op World (rename st)) (world World (rename st))
        else world World (rename st)).
Proof.
  unfold commit.
  destruct (rename_spec st) as [Hw Ho].
  destruct (renameAll_length (matches (op World st)) (world World st) 0) as [Lm Le].
  set (st1 := rename st) in *.
  assert (length (matches (op World st1)) = length (matches (op World st))) as Hlen.
  { rewrite Ho. simpl. exact Lm. }
  assert (revert (op World st1) = revert (op World st)) as Hrev.
  { rewrite Ho. reflexivity. }
  set (st2 := if (length (errors (op World st1)) =? 0)%nat && json (op World st1)
              then printChanges World st1 else st1).
  assert (op World st2 = op World st1 /\ world World st2 = world World st1) as [Ho2 Hw2].
  { subst st2. destruct (_ && _); [apply printChanges_op_world|split; reflexivity]. }
  rewrite Ho2, <- Hlen, <- Hrev.
  destruct (0 <? length (errors (op World st1)))%nat eqn:Hpos.
  - destruct (handleErrors_spec st2) as (H1 & H2 & H3).
    rewrite Ho2, Hw2 in H3. rewrite Ho2 in H1.
    split; [exact H1|]. split; [exact H2|]. intros _. exact H3.
  - apply Nat.ltb_ge in Hpos.
    assert (length (errors (op World st1)) = 0%nat) as Hz by lia.
    rewrite Hz.
    destruct (revert (op World st1)) eqn:Hr; simpl.
    + rewrite Ho2. split; [reflexivity|]. split; [discriminate|].
      intros _. rewrite andb_false_r. exact Hw2.
    + pose proof (backup_op st2) as Hb. pose proof (backup_world st2) as Hbw.
      pose proof (backup_err st2) as He.
      rewrite Ho2 in Hb. rewrite Ho2, Hw2 in Hbw.
      split; [exact Hb|]. split; [exact He|]. intros Hne.
      rewrite andb_true_r.
      destruct (matches (op World st)) as [|c l] eqn:Em; [congruence|].
      rewrite Hlen. simpl. exact Hbw.
Qed.

(** *** [apply] *)

Definition report (st : state) : state :=
  if json (op World st) then printChanges World st else reportConflicts World st.

Lemma apply_conflict_branch fuel (st : state) o :
  matches (op World st) <> [] ->
  detect (world World st) fuel (op World st) = Ok o ->
  (0 < size (conflicts o))%nat -> fixConflicts o = false ->
  apply fuel st = Ok (report (withOp World o st), Some errConflictDetected).
Proof.
  intros Hne Hd Hsz Hfix. unfold apply.
  destruct (matches (op World st)) as [|c l] eqn:Em; [congruence|].
  cbn [length Nat.eqb]. rewrite Hd. cbn [rbind withOp op].
  apply Nat.ltb_lt in Hsz. rewrite Hsz, Hfix. reflexivity.
Qed.

Lemma apply_other_branch fuel (st st' : state) o err :
  matches (op World st) <> [] ->
  detect (world World st) fuel (op World st) = Ok o ->
  (0 <? size (conflicts o))%nat && negb (fixConflicts o) = false ->
  apply fuel st = Ok (st', err) ->
  err <> Some errConflictDetected
  /\ conflicts (op World st') = conflicts o
  /\ fixConflicts (op World st') = fixConflicts o
  /\ (exec o = false -> err = None).
Proof.
  intros Hne Hd Hc. unfold apply.
  destruct (matches (op World st)) as [|c l] eqn:Em; [congruence|].
  cbn [length Nat.eqb]. rewrite Hd. cbn [rbind withOp op]. rewrite Hc.
  set (st1 := if includeDir o || revert o
              then withOp World (withMatches (sortMatches (matches o)) o)
                     (withOp World o st)
              else withOp World o st).
  assert (conflicts (op World st1) = conflicts o
          /\ fixConflicts (op World st1) = fixConflicts o
          /\ exec (op World st1) = exec o
          /\ simpleMode (op World st1) = simpleMode o
          /\ json (op World st1) = json o) as (Hc1 & Hf1 & He1 & Hs1 & Hj1).
  { subst st1. destruct (_ || _); repeat split. }
  rewrite He1.
  assert (forall s : state,
             conflicts (op World s) = conflicts o ->
             fixConflicts (op World s) = fixConflicts o ->
             (commit s).2 <> Some errConflictDetected
             /\ conflicts (op World (commit s).1) = conflicts o
             /\ fixConflicts (op World (commit s).1) = fixConflicts o) as Hcommit.
  { intros s Hcs Hfs. destruct (commit_spec s) as (Ho & He & _).
    destruct (rename_spec s) as [_ Hr]. rewrite Ho, Hr. simpl. auto. }
  destruct (exec o) eqn:Hexec.
  - destruct (simpleMode (op World st1) && negb (json (op World st1))).
    + destruct (printChanges_op_world st1) as [Hp _].
      destruct (stdin_ReadString _) as [w [e|]]; intros H; inversion H; subst; clear H.
      * simpl. rewrite Hp. repeat split; try assumption; discriminate.
      * destruct (Hcommit (withWorld World w (emit World OutPrompt (printChanges World st1))))
          as (X1 & X2 & X3); [simpl; rewrite Hp; assumption..|].
        rewrite H1 in X1, X2, X3. simpl in X1. repeat split; try assumption.
        discriminate.
    + intros H. injection H as H. destruct (Hcommit st1 Hc1 Hf1) as (X1 & X2 & X3).
      rewrite H in X1, X2, X3. simpl in X1. repeat split; try assumption.
      discriminate.
  - unfold dryRun. destruct (printChanges_op_world st1) as [Hp _].
    destruct (negb (json _)); intros H; injection H as <- <-; simpl; rewrite Hp;
      (split; [discriminate|]); auto.
Qed.

(** *** The claims about [apply] and [commit] *)

(** C1.  For an operation with a non-empty match list and auto-fix
    disabled, [detectConflicts] returns (the fuel need only exceed the
    number of matches), and if it recorded at least one conflict then
    [apply] reports (through [reportConflicts], or [printChanges] in
    JSON mode) and returns [errConflictDetected] without reaching
    [commit]: the world is the one [apply] started in, so no rename and
    no directory creation happened for any item. *)
Theorem C1_apply_aborts_before_commit fuel (st : state) :
  matches (op World st) <> [] ->
  fixConflicts (op World st) = false ->
  (length (matches (op World st)) < fuel)%nat ->
  exists o,
    detect (world World st) fuel (op World st) = Ok o
    /\ ((0 < size (conflicts o))%nat ->
        apply fuel st = Ok (report (withOp World o st), Some errConflictDetected)
        /\ world World (report (withOp World o st)) = world World st
        /\ op World (report (withOp World o st)) = o).
Proof.
  intros Hne Hfix Hfuel.
  destruct (detectConflicts_nofix_total GOOS filepath_Base filepath_Ext filepath_Dir
              filepath_Join strings_EqualFold (os_Stat (world World st)) rangeKeys
              fuel (op World st) Hfix Hfuel) as [o Hd].
  exists o. split; [exact Hd|]. intros Hsz.
  pose proof (frame_detectConflicts _ _ _ _ _ _ _ _ _ _ _ Hd) as F.
  assert (fixConflicts o = false) as Hfo.
  { rewrite <- (opFrame_fixConflicts _ _ F). exact Hfix. }
  split; [apply apply_conflict_branch; assumption|].
  unfold report, reportConflicts.
  destruct (json _); [|split; reflexivity].
  destruct (printChanges_op_world (withOp World o st)) as [A B].
  split; [rewrite B; reflexivity|exact A].
Qed.

(** [rename] is the batch [renameAll]: every change whose joined
    source and target differ is attempted, in list order, on the world
    the earlier attempts left behind, whether they failed or not; a
    failed attempt records its error text on that change and adds
    exactly its index to the failure list.  After that, [commit] calls
    [backup] exactly when the failure list is shorter than the match
    list and the operation is not a revert. *)
Lemma rename_batch_then_backup (st : state) :
  matches (op World st) <> [] ->
  world World (rename st)
  = (renameAll (world World st) 0 (matches (op World st))).1.1
  /\ op World (rename st)
     = withErrors (renameAll (world World st) 0 (matches (op World st))).2
         (withMatches (renameAll (world World st) 0 (matches (op World st))).1.2
                      (op World st))
  /\ length (renameAll (world World st) 0 (matches (op World st))).1.2
     = length (matches (op World st))
  /\ world World (commit st).1
     = (if (length (renameAll (world World st) 0 (matches (op World st))).2
            <? length (matches (op World st)))%nat
           && negb (revert (op World st))
        then backupWorld (op World (rename st))
                         (renameAll (world World st) 0 (matches (op World st))).1.1
        else (renameAll (world World st) 0 (matches (op World st))).1.1).
Proof.
  intros Hne.
  destruct (rename_spec st) as [Hw Ho].
  destruct (renameAll_length (matches (op World st)) (world World st) 0) as [Lm Le].
  destruct (commit_spec st) as (_ & _ & Hc). specialize (Hc Hne).
  assert (errors (op World (rename st))
          = (renameAll (world World st) 0 (matches (op World st))).2) as He
      by (rewrite Ho; reflexivity).
  rewrite He, Hw in Hc.
  repeat split; assumption.
Qed.

(** C2.  [rename] goes through the whole batch: it leaves the world
    and the failure list of [renameAll], where a failed attempt never
    stops the later ones, and only an attempted change (one whose
    joined source and target differ) can be in the failure list.
    [commit] then decides on the backup by comparing the failure list
    with the whole match list, the changes [rename] skipped included.
    So in a forward run over a batch that holds a skipped change the
    backup is written whatever the attempts did: also when the failure
    list is as long as the list of attempted changes, that is when
    every rename failed and no file was renamed.  Without a skipped
    change the backup is written exactly when some attempt
    succeeded. *)
Theorem C2_backup_written_though_every_rename_failed (st : state) :
  matches (op World st) <> [] ->
  revert (op World st) = false ->
  let batch := renameAll (world World st) 0 (matches (op World st)) in
  let tried := attempted (matches (op World st)) in
  world World (rename st) = batch.1.1
  /\ errors (op World (rename st)) = batch.2
  /\ (length batch.2 <= length tried)%nat
  /\ ((length tried < length (matches (op World st)))%nat ->
      world World (commit st).1 = backupWorld (op World (rename st)) batch.1.1)
  /\ (length tried = length (matches (op World st)) ->
      world World (commit st).1
      = if (length batch.2 <? length tried)%nat
        then backupWorld (op World (rename st)) batch.1.1
        else batch.1.1).
Proof.
  intros Hne Hrev batch tried.
  destruct (rename_batch_then_backup st Hne) as (Hw & Ho & _ & Hc).
  pose proof (renameAll_failures (matches (op World st)) (world World st) 0) as Hf.
  fold batch in Hw, Ho, Hc, Hf. fold tried in Hf.
  rewrite Hrev in Hc. cbn [negb] in Hc. rewrite andb_true_r in Hc.
  split; [exact Hw|]. split; [rewrite Ho; reflexivity|]. split; [exact Hf|].
  split.
  - intros Hskip. rewrite Hc.
    destruct (Nat.ltb_spec (length batch.2) (length (matches (op World st))));
      [reflexivity|lia].
  - intros Hall. rewrite Hc, Hall. reflexivity.
Qed.

Lemma apply_conflict_error_iff fuel (st st' : state) err :
  matches (op World st) <> [] \/ conflicts (op World st) = ∅ ->
  apply fuel st = Ok (st', err) ->
  (err = Some errConflictDetected
   <-> conflicts (op World st') <> ∅ /\ fixConflicts (op World st') = false)
  /\ (matches (op World st) <> [] ->
      fixConflicts (op World st) = true ->
      exists o,
        detect (world World st) fuel (op World st) = Ok o
        /\ conflicts (op World st') = conflicts o
        /\ err <> Some errConflictDetected
        /\ (exec (op World st) = false -> err = None)).
Proof.
  intros Hpre Happ.
  destruct (matches (op World st)) as [|c0 l0] eqn:Em.
  { destruct Hpre as [Hpre|Hpre]; [congruence|].
    unfold apply in Happ. rewrite Em in Happ. cbn [length Nat.eqb] in Happ.
    injection Happ as <- <-. split; [|congruence].
    assert (conflicts (op World (noMatches World st)) = ∅) as He.
    { unfold noMatches. destruct (json _); simpl; exact Hpre. }
    split; [discriminate|]. intros [Hnon _]. congruence. }
  assert (matches (op World st) <> []) as Hne by (rewrite Em; discriminate).
  rewrite <- Em in *. clear Em Hpre.
  assert (exists o, detect (world World st) fuel (op World st) = Ok o) as [o Hd].
  { revert Happ. unfold apply.
    destruct (matches (op World st)) as [|c l]; [congruence|]. cbn [length Nat.eqb].
    destruct (detect _ _ _) as [o| |]; [eauto|discriminate..]. }
  pose proof (frame_detectConflicts _ _ _ _ _ _ _ _ _ _ _ Hd) as F.
  destruct ((0 <? size (conflicts o))%nat && negb (fixConflicts o)) eqn:Hc.
  - apply andb_true_iff in Hc as [Hsz Hfix].
    apply Nat.ltb_lt in Hsz. apply negb_true_iff in Hfix.
    rewrite (apply_conflict_branch fuel st o Hne Hd Hsz Hfix) in Happ.
    injection Happ as <- <-.
    assert (op World (report (withOp World o st)) = o) as Hop.
    { unfold report, reportConflicts.
      destruct (json _); [apply printChanges_op_world|reflexivity]. }
    rewrite Hop. split.
    + split; [|reflexivity]. intros _. split; [|exact Hfix].
      intros He. rewrite He, map_size_empty in Hsz. lia.
    + intros _ Hf. rewrite (opFrame_fixConflicts _ _ F), Hfix in Hf. discriminate.
  - destruct (apply_other_branch fuel st st' o err Hne Hd Hc Happ)
      as (He & Hcf & Hfx & Hdry).
    split.
    + split; [intros ->; congruence|].
      intros [Hnon Hfix]. exfalso.
      rewrite Hcf in Hnon. rewrite Hfx in Hfix. rewrite Hfix in Hc.
      rewrite andb_true_r in Hc. apply Nat.ltb_ge in Hc.
      apply Hnon. apply map_size_empty_inv. lia.
    + intros _ Hf. exists o. split; [exact Hd|].
      split; [exact Hcf|]. split; [exact He|].
      intros Hex. apply Hdry.
      destruct F as (_ & F). decompose [and] F. congruence.
Qed.

(** C10.  [apply] returns [errConflictDetected] exactly when the
    conflict map it leaves is non-empty and auto-fix is off (for an
    operation that has matches, or whose conflict map is still empty).
    With auto-fix on, the conflict map after [apply] is the one
    [detectConflicts] built, [apply] does not return
    [errConflictDetected], and a dry run returns no error at all.  The
    map is not cleared by fixing: a check that detects a conflict
    appends it, whether it then fixes it or not, and nothing is ever
    removed during the per-item pass or the cross-item pass. *)
Theorem C10_conflict_error_iff :
  (forall fuel (st st' : state) err,
      matches (op World st) <> [] \/ conflicts (op World st) = ∅ ->
      apply fuel st = Ok (st', err) ->
      (err = Some errConflictDetected
       <-> conflicts (op World st') <> ∅ /\ fixConflicts (op World st') = false)
      /\ (matches (op World st) <> [] ->
          fixConflicts (op World st) = true ->
          exists o,
            detect (world World st) fuel (op World st) = Ok o
            /\ conflicts (op World st') = conflicts o
            /\ err <> Some errConflictDetected
            /\ (exec (op World st) = false -> err = None)))
  /\ (forall w fuel i o rp o' rp',
         detectLoop GOOS filepath_Base filepath_Ext filepath_Dir filepath_Join
                    strings_EqualFold (os_Stat w) fuel i o rp = Ok (o', rp') ->
         conflictsKept o o')
  /\ (forall w fuel keys o rp o' rp',
         overwritingLoop filepath_Base filepath_Ext filepath_Dir filepath_Join
                         (os_Stat w) fuel keys o rp = Ok (o', rp') ->
         conflictsKept o o')
  /\ (forall w fuel sp tp ch i o o',
         checkPathExistsConflict filepath_Base filepath_Ext filepath_Dir filepath_Join
                                 strings_EqualFold (os_Stat w) fuel sp tp ch i o
         = Ok (true, o') ->
         conflictsAt o' fileExists
         = conflictsAt o fileExists ++ [mkConflict tp "" [sp]])
  /\ (forall fuel sp t tp i o o',
         checkPathLengthConflict GOOS filepath_Base filepath_Ext filepath_Join
                                 fuel sp t tp i o = Ok (true, o') ->
         exists cause,
           conflictsAt o' maxFilenameLengthExceeded
           = conflictsAt o maxFilenameLengthExceeded ++ [mkConflict tp cause [sp]])
  /\ (forall sp t tp i o o',
         checkForbiddenCharactersConflict GOOS sp t tp i o = Ok (true, o') ->
         exists cause,
           conflictsAt o' invalidCharacters
           = conflictsAt o invalidCharacters ++ [mkConflict tp cause [sp]])
  /\ (forall sp t tp i o o',
         checkTrailingPeriodConflict GOOS sp t tp i o = Ok (true, o') ->
         conflictsAt o' trailingPeriod
         = conflictsAt o trailingPeriod ++ [mkConflict tp "" [sp]]).
Proof.
  split; [intros; apply apply_conflict_error_iff; assumption|].
  split; [intros w fuel i o rp o' rp'; apply kept_detectLoop|].
  split; [intros w fuel keys o rp o' rp'; apply kept_overwritingLoop|].
  split; [|split; [|split]].
  - intros w fuel sp tp ch i o o' H.
    apply recorded_checkPathExistsConflict in H.
    unfold conflictsAt at 1. rewrite H. apply conflictsAt_addConflict.
  - intros fuel sp t tp i o o' H.
    apply recorded_checkPathLengthConflict in H as (cause & _ & H).
    exists cause. unfold conflictsAt at 1. rewrite H. apply conflictsAt_addConflict.
  - intros sp t tp i o o' H.
    apply recorded_checkForbiddenCharactersConflict in H as (cause & _ & H).
    exists cause. unfold conflictsAt at 1. rewrite H. apply conflictsAt_addConflict.
  - intros sp t tp i o o' H.
    apply recorded_checkTrailingPeriodConflict in H.
    unfold conflictsAt at 1. rewrite H. apply conflictsAt_addConflict.
Qed.

(** *** Undo *)

Local Abbreviation undo :=
  (undo GOOS filepath_Base filepath_Ext filepath_Dir filepath_Join
        strings_EqualFold rangeKeys World os_Stat os_MkdirAll os_Rename os_Remove
        xdg_DataFile os_WriteJSON os_ReadJSON stdin_ReadString sortMatches sortBy).
Local Abbreviation run :=
  (run GOOS filepath_Base filepath_Ext filepath_Dir filepath_Join
       strings_EqualFold rangeKeys World os_Stat os_MkdirAll os_Rename os_Remove
       xdg_DataFile xdg_SearchDataFile os_WriteJSON os_ReadJSON stdin_ReadString
       sortMatches sortBy prepare).
Local Abbreviation retrieveBackupFile :=
  (retrieveBackupFile GOOS filepath_Join World xdg_SearchDataFile).

(** What [undo] does once [apply] has returned [err] in state [st]:
    the backup file is removed only if there was no error and the run
    was executed; a failed removal is a warning. *)
Definition afterApply (path : string) (st : state) (err : option error)
  : state * option error :=
  match err with
  | Some e => (st, Some e)
  | None =>
      if exec (op World st) then
        match os_Remove (world World st) path with
        | (w, Some _) => (emit World (OutWarning path) (withWorld World w st), None)
        | (w, None) => (withWorld World w st, None)
        end
      else (st, None)
  end.

(** C8.  On a revert, [run] fails with [errBackupNotFound], printing
    nothing and changing nothing, when no backup record is found for
    the working directory, and otherwise is [undo] on the record.
    [undo] loads the record, exchanges [Source] and [Target] of every
    change (sorting them in print mode when a sort is set) and runs
    [apply] on them; its result is the one of [apply], except that after
    an executed run without error the backup file is removed, a failure
    of which only emits a warning. *)
Theorem C8_undo_reenters_apply fuel (st : state) :
  revert (op World st) = true ->
  (forall e, retrieveBackupFile st = inr e ->
             run fuel st = Ok (st, Some errBackupNotFound))
  /\ (forall path, retrieveBackupFile st = inl path ->
                   run fuel st = undo fuel path st)
  /\ (forall path ops o1 st2 err,
        os_ReadJSON (world World st) path = inl ops ->
        let swapped := withMatches (map swap ops) (op World st) in
        (if negb (exec swapped) && negb (String.eqb (sort swapped) "")
         then sortBy (world World st) swapped else inl swapped) = inl o1 ->
        Forall2 (fun a b => Source b = Target a /\ Target b = Source a)
                ops (matches swapped)
        /\ (apply fuel (withOp World o1 st) = Ok (st2, err) ->
            undo fuel path st = Ok (afterApply path st2 err))).
Proof.
  intros Hrev. unfold run, undo. rewrite Hrev. split; [|split].
  - intros e ->. reflexivity.
  - intros path ->. reflexivity.
  - intros path ops o1 st2 err Hread Hsort. split.
    + clear. simpl.
      induction ops as [|c l IH]; simpl; constructor; [split; reflexivity|exact IH].
    + intros Happ. revert Hsort. rewrite Hread. cbn [withOp op world].
      intros ->.
      change (withOp World o1 (withOp World _ st)) with (withOp World o1 st).
      rewrite Happ. cbn [rbind]. unfold afterApply.
      destruct err as [e|]; [reflexivity|].
      destruct (exec (op World st2)); [|reflexivity].
      destruct (os_Remove _ _) as [w [e|]]; reflexivity.
Qed.

End PipelineFacts.

(** ** Concrete runs of the pipeline *)

(** [abc.pdf -> abc.epub] while [abc.epub] exists; auto-fix off. *)
Definition stExists : state Sim.World :=
  mkState Sim.World
          (operation [change "d" "abc.pdf" "abc.epub"] false)
          (Sim.mkWorld ["d/abc.pdf"; "d/abc.epub"] []) [].

Lemma C1_witness :
  matches (op Sim.World stExists) <> []
  /\ fixConflicts (op Sim.World stExists) = false
  /\ (length (matches (op Sim.World stExists)) < 5)%nat
  /\ exists st',
       Sim.apply 5 stExists = Ok (st', Some errConflictDetected)
       /\ world Sim.World st' = world Sim.World stExists.
Proof.
  split; [discriminate|]. split; [reflexivity|]. split; [vm_compute; lia|].
  destruct (C1_apply_aborts_before_commit
              Linux Filepath.Unix.Base Filepath.Unix.Ext Filepath.Unix.Dir
              Filepath.Unix.Join Linux.EqualFold Linux.rangeKeys Sim.World Sim.Stat
              Sim.MkdirAll Sim.Rename Sim.DataFile Sim.WriteJSON Sim.ReadString
              Sim.sortMatches 5 stExists)
    as (o & Hd & Himp);
    [discriminate|reflexivity|vm_compute; lia|].
  vm_compute in Hd. injection Hd as <-.
  destruct Himp as (Ha & Hw & _); [vm_compute; lia|].
  eexists. split; [exact Ha|exact Hw].
Defined.

(** Three renames of which the second has no source file any more. *)
Definition stPartial (rev : bool) : state Sim.World :=
  mkState Sim.World
          (mkOperation ∅ "" "/home/u"
                       [change "d" "a.txt" "1.txt"; change "d" "gone.txt" "2.txt";
                        change "d" "c.txt" "c.txt"; change "d" "e.txt" "3.txt"]
                       [] rev false false false false false true false false)
          (Sim.mkWorld ["d/a.txt"; "d/c.txt"; "d/e.txt"] []) [].

(** A failure does not stop the batch: the second of four changes
    fails, the fourth is renamed all the same. *)
Example rename_continues_after_failure :
  errors (op Sim.World (Sim.rename (stPartial false))) = [1%nat]
  /\ map Error (matches (op Sim.World (Sim.rename (stPartial false))))
     = [""; "rename d/gone.txt d/2.txt: no such file or directory"; ""; ""]
  /\ Sim.files (world Sim.World (Sim.rename (stPartial false)))
     = ["d/3.txt"; "d/1.txt"; "d/c.txt"]
  /\ map fst (Sim.backups (world Sim.World (Sim.commit (stPartial false)).1))
     = ["/data/f2/backups/_home_u.json"].
Proof. vm_compute. repeat split. Qed.

(** The directory [d] holds [c.txt] alone.  The batch keeps [c.txt]
    under its name and renames [gone.txt], which is not there. *)
Definition stNoneRenamed : state Sim.World :=
  mkState Sim.World
          (mkOperation ∅ "" "/home/u"
                       [change "d" "c.txt" "c.txt"; change "d" "gone.txt" "2.txt"]
                       [] false false false false false false true false false)
          (Sim.mkWorld ["d/c.txt"] []) [].

(** On that batch the one rename that is attempted fails and the
    directory is as it was, yet [commit] writes a backup record. *)
Lemma C2_witness :
  matches (op Sim.World stNoneRenamed) <> []
  /\ revert (op Sim.World stNoneRenamed) = false
  /\ map Source (attempted Filepath.Unix.Join (matches (op Sim.World stNoneRenamed)))
     = ["gone.txt"]
  /\ errors (op Sim.World (Sim.rename stNoneRenamed)) = [1%nat]
  /\ Sim.files (world Sim.World (Sim.rename stNoneRenamed)) = ["d/c.txt"]
  /\ Sim.files (world Sim.World (Sim.commit stNoneRenamed).1) = ["d/c.txt"]
  /\ map fst (Sim.backups (world Sim.World (Sim.commit stNoneRenamed).1))
     = ["/data/f2/backups/_home_u.json"]
  /\ (Sim.commit stNoneRenamed).2 = Some (errorString "Some files could not be renamed.").
Proof.
  split; [discriminate|]. split; [reflexivity|].
  destruct (C2_backup_written_though_every_rename_failed
              Linux Filepath.Unix.Dir Filepath.Unix.Join Sim.World
              Sim.MkdirAll Sim.Rename Sim.DataFile Sim.WriteJSON stNoneRenamed)
    as (Hw & He & _ & Hc & _); [discriminate|reflexivity|].
  specialize (Hc ltac:(vm_compute; lia)).
  unfold Sim.rename, Sim.commit. rewrite Hw, He, Hc.
  vm_compute. repeat split.
Defined.

(** The same batch with auto-fix on and a conflict to fix, as a dry
    run. *)
Definition stFixed : state Sim.World :=
  mkState Sim.World
          (operation [change "conflicts" "abc.txt" "123.txt";
                      change "conflicts" "xyz.txt" "123.txt"] true)
          (Sim.mkWorld conflictsDir []) [].

Lemma C10_witness :
  (matches (op Sim.World stFixed) <> [] \/ conflicts (op Sim.World stFixed) = ∅)
  /\ exists st',
       Sim.apply 20 stFixed = Ok (st', None)
       /\ length (conflictsAt (op Sim.World st') fileExists) = 2%nat
       /\ length (conflictsAt (op Sim.World st') overwritingNewPath) = 1%nat
       /\ (None = Some errConflictDetected
           <-> conflicts (op Sim.World st') <> ∅
               /\ fixConflicts (op Sim.World st') = false).
Proof.
  split; [left; discriminate|].
  eexists. split; [vm_compute; reflexivity|].
  split; [vm_compute; reflexivity|]. split; [vm_compute; reflexivity|].
  refine (proj1 (proj1 (C10_conflict_error_iff
            Linux Filepath.Unix.Base Filepath.Unix.Ext Filepath.Unix.Dir
            Filepath.Unix.Join Linux.EqualFold Linux.rangeKeys Sim.World Sim.Stat
            Sim.MkdirAll Sim.Rename Sim.DataFile Sim.WriteJSON Sim.ReadString
            Sim.sortMatches) 20%nat stFixed _ None _ _)).
  - left. discriminate.
  - vm_compute. reflexivity.
Defined.

(** ** The claims about the single checks *)

(** The frame as the specification words it: nothing but [Target] and
    [status] may differ. *)
Definition strictFrame (a b : Change) : Prop :=
  sameFrame a b /\ WillOverwrite a = WillOverwrite b.

Section EngineClaims.

Variable GOOS : platform.
Variable filepath_Base : string -> string.
Variable filepath_Ext : string -> string.
Variable filepath_Dir : string -> string.
Variable filepath_Join : list string -> string.
Variable strings_EqualFold : string -> string -> bool.
Variable os_Stat : string -> option statError.
Variable rangeKeys : renamedMap -> list string.

Local Abbreviation newTargetLoop :=
  (newTargetLoop filepath_Ext filepath_Dir filepath_Join os_Stat).
Local Abbreviation newTarget :=
  (newTarget filepath_Base filepath_Ext filepath_Dir filepath_Join os_Stat).
Local Abbreviation candidate := (candidate filepath_Ext filepath_Dir filepath_Join).
Local Abbreviation checkPathExistsConflict :=
  (checkPathExistsConflict filepath_Base filepath_Ext filepath_Dir filepath_Join
                           strings_EqualFold os_Stat).

(** A candidate is free when [os.Stat] reports not-exists for its path
    and the path is no key of [renamedPaths]. *)
Definition free (ch : Change) (renamedPaths : renamedMap) (target : string) : Prop :=
  os_Stat (filepath_Join [BaseDir ch; target]) = Some ErrNotExist
  /\ renamedPaths !! filepath_Join [BaseDir ch; target] = None.

Lemma free_iff ch rp target :
  statNotExist os_Stat (filepath_Join [BaseDir ch; target])
  && negb (claimed rp (filepath_Join [BaseDir ch; target])) = true
  <-> free ch rp target.
Proof.
  unfold free, statNotExist, claimed. rewrite andb_true_iff, negb_true_iff.
  rewrite bool_decide_eq_false, <- eq_None_not_Some.
  destruct (os_Stat _) as [[]|]; split; intros [A B]; split;
    try assumption; try reflexivity; discriminate.
Qed.

Lemma newTargetLoop_sound fuel : forall ch rp fileNoExt num t,
  newTargetLoop fuel ch rp fileNoExt num = Ok t -> free ch rp t.
Proof.
  induction fuel as [|fuel IH]; intros ch rp f num t H; simpl in H; [discriminate|].
  destruct (statNotExist _ _ && _) eqn:E.
  - injection H as <-. apply free_iff. exact E.
  - eapply IH. exact H.
Qed.

Lemma newTargetLoop_complete k : forall fuel ch rp fileNoExt num,
  free ch rp (candidate ch fileNoExt (Nat.iter k GoInt.incr num)) ->
  (k < fuel)%nat ->
  exists t, newTargetLoop fuel ch rp fileNoExt num = Ok t.
Proof.
  induction k as [|k IH]; intros fuel ch rp f num Hfree Hfuel;
    (destruct fuel as [|fuel]; [lia|]); simpl.
  - apply free_iff in Hfree. simpl in Hfree. rewrite Hfree. eauto.
  - destruct (statNotExist _ _ && _); [eauto|].
    apply IH; [|lia]. rewrite <- Nat.iter_succ_r. exact Hfree.
Qed.

(** C3, as the code has it.  Whatever [newTarget] returns is a path for
    which [os.Stat] reports not-exists and which is no key of the
    [renamedPaths] map it was given; and it does return as soon as some
    counter value gives such a path.  ([checkPathExistsConflict] passes
    the nil map, so there only the filesystem is consulted.) *)
Theorem C3_newTarget_unclaimed_in_given_map fuel ch (renamedPaths : renamedMap) :
  (forall t, newTarget fuel ch renamedPaths = Ok t -> free ch renamedPaths t)
  /\ (forall k,
        (k < fuel)%nat ->
        (let start := newTargetStart
                        (FilenameWithoutExtension filepath_Ext
                                                  (filepath_Base (Target ch))) in
         free ch renamedPaths
              (candidate ch start.1 (Nat.iter k GoInt.incr start.2))) ->
        exists t, newTarget fuel ch renamedPaths = Ok t /\ free ch renamedPaths t).
Proof.
  unfold newTarget.
  destruct (newTargetStart _) as [fileNoExt num]. split.
  - intros t. apply newTargetLoop_sound.
  - intros k Hk Hfree. simpl in Hfree.
    destruct (newTargetLoop_complete k fuel ch renamedPaths fileNoExt num Hfree Hk)
      as [t Ht].
    exists t. split; [exact Ht|]. eapply newTargetLoop_sound. exact Ht.
Qed.

(** The item [j] frees [targetPath] before item [i] is renamed: it comes
    earlier, [targetPath] is its source path, and its own source and
    target paths are not equal under case folding. *)
Definition vacates (targetPath : string) (i : nat) (o : Operation) (j : nat) : Prop :=
  exists cj, matches o !! j = Some cj
             /\ (j < i)%nat
             /\ targetPath = filepath_Join [BaseDir cj; Source cj]
             /\ strings_EqualFold (filepath_Join [BaseDir cj; Source cj])
                                  (filepath_Join [BaseDir cj; Target cj]) = false.

Lemma vacatedEarlier_iff targetPath i o :
  vacatedEarlier filepath_Join strings_EqualFold targetPath i o = true
  <-> exists j, vacates targetPath i o j.
Proof.
  unfold vacatedEarlier, vacates. rewrite existsb_exists. split.
  - intros ([j cj] & Hin & Hc).
    apply list_elem_of_In, elem_of_lookup_imap in Hin as (j' & c' & Heq & Hl).
    injection Heq as -> ->.
    apply andb_true_iff in Hc as [Hc Hlt]. apply andb_true_iff in Hc as [He Hf].
    exists j', c'. repeat split; try assumption.
    + apply Nat.ltb_lt. exact Hlt.
    + apply String.eqb_eq. exact He.
    + apply negb_true_iff. exact Hf.
  - intros (j & cj & Hl & Hlt & He & Hf).
    exists (j, cj). split.
    + apply list_elem_of_In, elem_of_lookup_imap. eauto.
    + apply andb_true_iff. split; [apply andb_true_iff; split|].
      * apply String.eqb_eq. exact He.
      * rewrite Hf. reflexivity.
      * apply Nat.ltb_lt. exact Hlt.
Qed.

(** C4, as the code has it.  When the target path of item [i] exists:
    source and target equal under case folding give status unchanged and
    no conflict; otherwise allowed overwrites give [WillOverwrite],
    status overwriting and no conflict; otherwise an earlier item that
    vacates the path (its own source and target not equal under case
    folding) gives no conflict and no change; otherwise a [fileExists]
    conflict is recorded with status path-exists, and under auto-fix the
    item gets the target [newTarget] returns, which does not exist on
    the filesystem, and status ok. *)
Theorem C4_path_exists_decision fuel sourcePath targetPath ch i o ci :
  statExists os_Stat targetPath = true ->
  matches o !! i = Some ci ->
  let recorded :=
    addConflict fileExists (mkConflict targetPath "" [sourcePath]) o in
  (strings_EqualFold sourcePath targetPath = true ->
   checkPathExistsConflict fuel sourcePath targetPath ch i o
   = Ok (false, withMatches (<[i := setStatus statusUnchanged ci]> (matches o)) o))
  /\ (strings_EqualFold sourcePath targetPath = false ->
      allowOverwrites o = true ->
      checkPathExistsConflict fuel sourcePath targetPath ch i o
      = Ok (false,
            withMatches (<[i := setStatus statusOverwriting (setWillOverwrite true ci)]>
                           (matches o)) o))
  /\ (strings_EqualFold sourcePath targetPath = false ->
      allowOverwrites o = false ->
      (exists j, vacates targetPath i o j) ->
      checkPathExistsConflict fuel sourcePath targetPath ch i o = Ok (false, o))
  /\ (strings_EqualFold sourcePath targetPath = false ->
      allowOverwrites o = false ->
      ~ (exists j, vacates targetPath i o j) ->
      fixConflicts o = false ->
      checkPathExistsConflict fuel sourcePath targetPath ch i o
      = Ok (true,
            withMatches (<[i := setStatus statusPathExists ci]> (matches o)) recorded))
  /\ (strings_EqualFold sourcePath targetPath = false ->
      allowOverwrites o = false ->
      ~ (exists j, vacates targetPath i o j) ->
      fixConflicts o = true ->
      forall t,
        newTarget fuel ch ∅ = Ok t ->
        checkPathExistsConflict fuel sourcePath targetPath ch i o
        = Ok (true,
              withMatches (<[i := setStatus statusOK (setTarget t ci)]> (matches o))
                          recorded)
        /\ os_Stat (filepath_Join [BaseDir ch; t]) = Some ErrNotExist).
Proof.
  intros Hex Hi recorded. unfold checkPathExistsConflict. rewrite Hex.
  split; [|split; [|split; [|split]]].
  - intros ->. erewrite setMatch_Some by exact Hi. reflexivity.
  - intros -> ->. erewrite setMatch_Some by exact Hi. simpl.
    erewrite setMatch_Some
      by (simpl; apply list_lookup_insert_eq; eapply lookup_lt_Some; exact Hi).
    simpl. rewrite list_insert_insert_eq. reflexivity.
  - intros -> -> Hv. apply vacatedEarlier_iff in Hv. rewrite Hv. reflexivity.
  - intros -> -> Hv Hfix.
    destruct (vacatedEarlier _ _ _ _ _) eqn:E;
      [exfalso; apply Hv, vacatedEarlier_iff; exact E|].
    erewrite setMatch_Some by exact Hi. simpl. rewrite Hfix. reflexivity.
  - intros -> -> Hv Hfix t Ht. split.
    + destruct (vacatedEarlier _ _ _ _ _) eqn:E;
        [exfalso; apply Hv, vacatedEarlier_iff; exact E|].
      erewrite setMatch_Some by exact Hi. simpl. rewrite Hfix, Ht. simpl.
      erewrite setMatch_Some
        by (simpl; apply list_lookup_insert_eq; eapply lookup_lt_Some; exact Hi).
      simpl.
      erewrite setMatch_Some
        by (simpl; apply list_lookup_insert_eq; rewrite length_insert;
            eapply lookup_lt_Some; exact Hi).
      simpl. rewrite !list_insert_insert_eq. reflexivity.
    + unfold newTarget in Ht. destruct (newTargetStart _) as [f num].
      apply newTargetLoop_sound in Ht. apply Ht.
Qed.

End EngineClaims.

(** C9, as the code has it.  A run of the conflict engine that returns
    leaves every field of every change other than [Target], [status] and
    [WillOverwrite] as it was, keeps the number of changes, and changes
    nothing of the operation besides its changes and its conflict map. *)
Theorem C9_engine_frame GOOS filepath_Base filepath_Ext filepath_Dir filepath_Join
        strings_EqualFold os_Stat rangeKeys fuel o o' :
  detectConflicts GOOS filepath_Base filepath_Ext filepath_Dir filepath_Join
                  strings_EqualFold os_Stat rangeKeys fuel o = Ok o' ->
  opFrame o o' /\ length (matches o') = length (matches o).
Proof.
  intros H. apply frame_detectConflicts in H.
  split; [exact H|]. symmetry. apply opFrame_length. exact H.
Qed.

Lemma C9_witness :
  exists o',
    Linux.detectConflicts conflictsDir 20 (op Sim.World stFixed) = Ok o'
    /\ opFrame (op Sim.World stFixed) o'
    /\ length (matches o') = length (matches (op Sim.World stFixed)).
Proof.
  eexists. split; [vm_compute; reflexivity|].
  apply (C9_engine_frame Linux Filepath.Unix.Base Filepath.Unix.Ext Filepath.Unix.Dir
           Filepath.Unix.Join Linux.EqualFold (Linux.Stat conflictsDir)
           Linux.rangeKeys 20).
  vm_compute. reflexivity.
Defined.

(** [a.txt -> b.txt] with overwrites allowed while [b.txt] exists. *)
Definition opOverwrite : Operation :=
  mkOperation ∅ "" "" [change "d" "a.txt" "b.txt"] []
              false false true false false false false false false.

(** The engine sets [WillOverwrite], a field other than [Target] and
    [status]. *)
Lemma C9_counterexample :
  exists o',
    Linux.detectConflicts ["d/a.txt"; "d/b.txt"] 5 opOverwrite = Ok o'
    /\ ~ Forall2 strictFrame (matches opOverwrite) (matches o').
Proof.
  eexists. split; [vm_compute; reflexivity|].
  intros H. inversion H as [|a b l l' [_ Hw] Hrest]; subst.
  vm_compute in Hw. discriminate.
Qed.

(** The per-item pass on the auto-fix test directory: the target
    generated for [xyz.txt] is the one [abc.txt] already holds. *)
Lemma C3_counterexample :
  exists o rp,
    Linux.detectLoop conflictsDir 10 0 (withConflicts ∅ (op Sim.World stFixed)) ∅
    = Ok (o, rp)
    /\ Linux.newTarget conflictsDir 10 (change "conflicts" "xyz.txt" "123.txt") ∅
       = Ok "123 (2).txt"
    /\ map Target (matches o) = ["123 (2).txt"; "123 (2).txt"]
    /\ map sourcePath (default [] (rp !! "conflicts/123 (2).txt"))
       = ["conflicts/abc.txt"; "conflicts/xyz.txt"].
Proof.
  eexists. eexists. split; [vm_compute; reflexivity|].
  repeat split; vm_compute; reflexivity.
Qed.

Lemma C3_witness :
  exists t,
    Linux.newTarget conflictsDir 10 (change "conflicts" "xyz.txt" "123 (2).txt")
                    {["conflicts/123 (2).txt" := []]}
    = Ok t
    /\ t = "123 (4).txt"
    /\ Linux.Stat conflictsDir (Filepath.Unix.Join ["conflicts"; t]) = Some ErrNotExist.
Proof.
  pose proof (C3_newTarget_unclaimed_in_given_map
                Filepath.Unix.Base Filepath.Unix.Ext Filepath.Unix.Dir
                Filepath.Unix.Join (Linux.Stat conflictsDir) 10
                (change "conflicts" "xyz.txt" "123 (2).txt")
                {["conflicts/123 (2).txt" := []]}) as [Hsound _].
  eexists. split; [vm_compute; reflexivity|]. split; [reflexivity|].
  apply (Hsound "123 (4).txt"). vm_compute. reflexivity.
Defined.

(** [a.txt -> A.txt] followed by [b.txt -> a.txt]: the first item
    renames the path the second wants, yet its own source and target are
    equal under case folding. *)
Definition opCase : Operation :=
  operation [change "d" "a.txt" "A.txt"; change "d" "b.txt" "a.txt"] false.

Lemma C4_counterexample :
  Linux.Stat ["d/a.txt"; "d/b.txt"] "d/a.txt" = None
  /\ Linux.EqualFold "d/b.txt" "d/a.txt" = false
  /\ allowOverwrites opCase = false
  /\ (exists cj, matches opCase !! 0%nat = Some cj
                 /\ Filepath.Unix.Join [BaseDir cj; Source cj] = "d/a.txt"
                 /\ Filepath.Unix.Join [BaseDir cj; Source cj]
                    <> Filepath.Unix.Join [BaseDir cj; Target cj])
  /\ exists o',
       Linux.checkPathExistsConflict ["d/a.txt"; "d/b.txt"] 5 "d/b.txt" "d/a.txt"
                                     (change "d" "b.txt" "a.txt") 1 opCase
       = Ok (true, o')
       /\ conflictsAt o' fileExists = [mkConflict "d/a.txt" "" ["d/b.txt"]].
Proof.
  split; [reflexivity|]. split; [reflexivity|]. split; [reflexivity|].
  split.
  - eexists. split; [reflexivity|]. split; [reflexivity|]. vm_compute. discriminate.
  - eexists. split; vm_compute; reflexivity.
Qed.

(** [a.txt -> c.txt] followed by [b.txt -> a.txt]: no conflict for the
    second item. *)
Definition opVacate : Operation :=
  operation [change "d" "a.txt" "c.txt"; change "d" "b.txt" "a.txt"] false.

Lemma C4_witness :
  statExists (Linux.Stat ["d/a.txt"; "d/b.txt"]) "d/a.txt" = true
  /\ matches opVacate !! 1%nat = Some (change "d" "b.txt" "a.txt")
  /\ Linux.checkPathExistsConflict ["d/a.txt"; "d/b.txt"] 5 "d/b.txt" "d/a.txt"
                                   (change "d" "b.txt" "a.txt") 1 opVacate
     = Ok (false, opVacate).
Proof.
  split; [reflexivity|]. split; [reflexivity|].
  refine (proj1 (proj2 (proj2 (C4_path_exists_decision
            Filepath.Unix.Base Filepath.Unix.Ext Filepath.Unix.Dir Filepath.Unix.Join
            Linux.EqualFold (Linux.Stat ["d/a.txt"; "d/b.txt"])
            5 "d/b.txt" "d/a.txt" (change "d" "b.txt" "a.txt") 1 opVacate
            (change "d" "b.txt" "a.txt") _ _))) _ _ _).
  - reflexivity.
  - reflexivity.
  - reflexivity.
  - reflexivity.
  - exists 0%nat. eexists. split; [reflexivity|]. split; [lia|].
    split; reflexivity.
Defined.

(** An executed undo of [a.txt -> 1.txt] recorded for [/home/u]. *)
Definition stUndo : state Sim.World :=
  mkState Sim.World
          (mkOperation ∅ "" "/home/u" [] []
                       true false false false false false true false false)
          (Sim.mkWorld ["d/1.txt"]
                       [("/data/f2/backups/_home_u.json", [change "d" "a.txt" "1.txt"])])
          [].

Lemma C8_witness :
  revert (op Sim.World stUndo) = true
  /\ exists st',
       Sim.run 10 stUndo = Ok (st', None)
       /\ Sim.files (world Sim.World st') = ["d/a.txt"]
       /\ Sim.backups (world Sim.World st') = []
       /\ map Source (matches (op Sim.World st')) = ["1.txt"]
       /\ map Target (matches (op Sim.World st')) = ["a.txt"].
Proof.
  split; [reflexivity|].
  destruct (C8_undo_reenters_apply
              Linux Filepath.Unix.Base Filepath.Unix.Ext Filepath.Unix.Dir
              Filepath.Unix.Join Linux.EqualFold Linux.rangeKeys Sim.World Sim.Stat
              Sim.MkdirAll Sim.Rename Sim.Remove Sim.DataFile Sim.SearchDataFile
              Sim.WriteJSON Sim.ReadJSON Sim.ReadString Sim.sortMatches Sim.sortBy
              Sim.prepare 10 stUndo eq_refl) as (_ & Hrun & _).
  unfold Sim.run. rewrite (Hrun "/data/f2/backups/_home_u.json" eq_refl).
  eexists. split; [vm_compute; reflexivity|]. repeat split.
Defined.

(** ** UTF-8: decoding what was encoded *)

(** The runes [[]rune(s)] can produce: Unicode scalar values. *)
Definition validRune (r : Z) : Prop :=
  0 <= r < 55296 \/ 57344 <= r <= 1114111.

Lemma byteZ_Zbyte z : 0 <= z < 256 -> Utf8.byteZ (Utf8.Zbyte z) = z.
Proof.
  intros H. unfold Utf8.byteZ, Utf8.Zbyte. rewrite N_ascii_embedding; lia.
Qed.

Lemma byteZ_range c : 0 <= Utf8.byteZ c < 256.
Proof. unfold Utf8.byteZ. pose proof (N_ascii_bounded c). lia. Qed.

(** Decide the comparisons in the goal one after the other, closing the
    impossible cases by arithmetic. *)
Ltac split_cmp :=
  repeat (match goal with
          | |- context [Z.leb ?a ?b] =>
              destruct (Z.leb_spec a b); try (exfalso; lia)
          | |- context [Z.ltb ?a ?b] =>
              destruct (Z.ltb_spec a b); try (exfalso; lia)
          | |- context [Z.eqb ?a ?b] =>
              destruct (Z.eqb_spec a b); try (exfalso; lia)
          end;
          cbn [andb negb orb Nat.ltb Nat.leb length nth]).

Lemma decode1 b rest :
  0 <= b < 128 -> Utf8.DecodeRune (Utf8.Zbyte b :: rest) = (b, 1%nat).
Proof.
  intros H. unfold Utf8.DecodeRune. rewrite byteZ_Zbyte by lia.
  split_cmp. reflexivity.
Qed.

Lemma decode2 b0 b1 rest :
  194 <= b0 <= 223 -> 128 <= b1 <= 191 ->
  Utf8.DecodeRune (Utf8.Zbyte b0 :: Utf8.Zbyte b1 :: rest)
  = ((b0 mod 32) * 64 + b1 mod 64, 2%nat).
Proof.
  intros H0 H1. unfold Utf8.DecodeRune, Utf8.first, Utf8.between.
  cbn [nth length]. rewrite !byteZ_Zbyte by lia.
  split_cmp. reflexivity.
Qed.

Lemma decode3 b0 b1 b2 rest :
  224 <= b0 <= 239 -> 128 <= b1 <= 191 -> 128 <= b2 <= 191 ->
  (b0 = 224 -> 160 <= b1) -> (b0 = 237 -> b1 <= 159) ->
  Utf8.DecodeRune (Utf8.Zbyte b0 :: Utf8.Zbyte b1 :: Utf8.Zbyte b2 :: rest)
  = ((b0 mod 16) * 4096 + (b1 mod 64) * 64 + b2 mod 64, 3%nat).
Proof.
  intros H0 H1 H2 Ha Hb. unfold Utf8.DecodeRune, Utf8.first, Utf8.between.
  cbn [nth length]. rewrite !byteZ_Zbyte by lia.
  split_cmp; reflexivity.
Qed.

Lemma decode4 b0 b1 b2 b3 rest :
  240 <= b0 <= 244 -> 128 <= b1 <= 191 -> 128 <= b2 <= 191 -> 128 <= b3 <= 191 ->
  (b0 = 240 -> 144 <= b1) -> (b0 = 244 -> b1 <= 143) ->
  Utf8.DecodeRune (Utf8.Zbyte b0 :: Utf8.Zbyte b1 :: Utf8.Zbyte b2
                     :: Utf8.Zbyte b3 :: rest)
  = ((b0 mod 8) * 262144 + (b1 mod 64) * 4096 + (b2 mod 64) * 64 + b3 mod 64,
     4%nat).
Proof.
  intros H0 H1 H2 H3 Ha Hb. unfold Utf8.DecodeRune, Utf8.first, Utf8.between.
  cbn [nth length]. rewrite !byteZ_Zbyte by lia.
  split_cmp; reflexivity.
Qed.

Lemma DecodeRune_EncodeRune r rest :
  validRune r ->
  Utf8.DecodeRune (Utf8.EncodeRune r ++ rest) = (r, length (Utf8.EncodeRune r)).
Proof.
  intros Hv. unfold Utf8.EncodeRune, Utf8.between, Utf8.MaxRune.
  destruct Hv as [Hv|Hv].
  - destruct (Z_lt_dec r 128); [|destruct (Z_lt_dec r 2048)].
    + split_cmp. cbn [app length andb negb]. apply decode1. lia.
    + split_cmp. cbn [app length andb negb]. rewrite decode2.
      * f_equal. Z.to_euclidean_division_equations. lia.
      * Z.to_euclidean_division_equations. lia.
      * Z.to_euclidean_division_equations. lia.
    + split_cmp. cbn [app length andb negb]. rewrite decode3.
      * f_equal. Z.to_euclidean_division_equations. lia.
      * Z.to_euclidean_division_equations. lia.
      * Z.to_euclidean_division_equations. lia.
      * Z.to_euclidean_division_equations. lia.
      * Z.to_euclidean_division_equations. lia.
      * Z.to_euclidean_division_equations. lia.
  - destruct (Z_lt_dec r 65536).
    + split_cmp. cbn [app length andb negb]. rewrite decode3.
      * f_equal. Z.to_euclidean_division_equations. lia.
      * Z.to_euclidean_division_equations. lia.
      * Z.to_euclidean_division_equations. lia.
      * Z.to_euclidean_division_equations. lia.
      * Z.to_euclidean_division_equations. lia.
      * Z.to_euclidean_division_equations. lia.
    + split_cmp. cbn [app length andb negb]. rewrite decode4.
      * f_equal. Z.to_euclidean_division_equations. lia.
      * Z.to_euclidean_division_equations. lia.
      * Z.to_euclidean_division_equations. lia.
      * Z.to_euclidean_division_equations. lia.
      * Z.to_euclidean_division_equations. lia.
      * Z.to_euclidean_division_equations. lia.
      * Z.to_euclidean_division_equations. lia.
Qed.

Lemma validRune_RuneError : validRune Utf8.RuneError.
Proof. unfold validRune, Utf8.RuneError. lia. Qed.

Lemma DecodeRune_spec c l :
  validRune (Utf8.DecodeRune (c :: l)).1
  /\ (1 <= (Utf8.DecodeRune (c :: l)).2 <= S (length l))%nat.
Proof.
  unfold Utf8.DecodeRune, Utf8.first, Utf8.between.
  pose proof (byteZ_range c) as Hc.
  pose proof (byteZ_range (nth 0 l zero)) as H1.
  pose proof (byteZ_range (nth 1 l zero)) as H2.
  pose proof (byteZ_range (nth 2 l zero)) as H3.
  set (s0 := Utf8.byteZ c) in *. set (s1 := Utf8.byteZ (nth 0 l zero)) in *.
  set (s2 := Utf8.byteZ (nth 1 l zero)) in *.
  set (s3 := Utf8.byteZ (nth 2 l zero)) in *.
  pose proof validRune_RuneError as HE.
  cbn [length].
  split_cmp; cbn [fst snd];
    repeat match goal with
      | |- context [Nat.leb ?a ?b] => destruct (Nat.leb_spec a b)
      end; cbn [fst snd]; (split; [try exact HE|try lia]);
    unfold validRune; Z.to_euclidean_division_equations; lia.
Qed.

(** *** [[]rune(s)] over lists of bytes *)

Definition runesL (l : list ascii) : list Z := Utf8.runesFuel (length l) l.

Lemma runesFuel_enough f1 : forall f2 l,
  (length l <= f1)%nat -> (length l <= f2)%nat ->
  Utf8.runesFuel f1 l = Utf8.runesFuel f2 l.
Proof.
  induction f1 as [|f1 IH]; intros f2 l H1 H2.
  - destruct l; [|simpl in H1; lia]. destruct f2; reflexivity.
  - destruct l as [|c l]; [destruct f2; reflexivity|].
    destruct f2 as [|f2]; [simpl in H2; lia|].
    cbn [Utf8.runesFuel].
    destruct (DecodeRune_spec c l) as [_ Hsz].
    destruct (Utf8.DecodeRune (c :: l)) as [r sz]. cbn [snd] in Hsz.
    f_equal. apply IH; rewrite length_skipn; simpl in *; lia.
Qed.

Lemma runesL_cons c l :
  runesL (c :: l)
  = (Utf8.DecodeRune (c :: l)).1 :: runesL (skipn (Utf8.DecodeRune (c :: l)).2 (c :: l)).
Proof.
  unfold runesL. cbn [length Utf8.runesFuel].
  destruct (DecodeRune_spec c l) as [_ Hsz].
  destruct (Utf8.DecodeRune (c :: l)) as [r sz]. cbn [fst snd] in *.
  f_equal. apply runesFuel_enough; rewrite length_skipn; simpl; lia.
Qed.

Lemma runesL_valid l : Forall validRune (runesL l).
Proof.
  remember (length l) as n eqn:Hn. revert l Hn.
  induction n as [n IH] using lt_wf_ind. intros l Hn.
  destruct l as [|c l]; [constructor|].
  rewrite runesL_cons.
  destruct (DecodeRune_spec c l) as [Hv Hsz].
  constructor; [exact Hv|].
  eapply IH; [|reflexivity]. rewrite length_skipn. simpl in *. lia.
Qed.

Lemma EncodeRune_nonempty r : Utf8.EncodeRune r <> [].
Proof.
  unfold Utf8.EncodeRune.
  repeat match goal with |- context [if ?b then _ else _] => destruct b end;
    discriminate.
Qed.

Lemma runesL_encode rs rest :
  Forall validRune rs ->
  runesL (concat (map Utf8.EncodeRune rs) ++ rest) = rs ++ runesL rest.
Proof.
  induction 1 as [|r rs Hr Hrs IH]; [reflexivity|].
  cbn [map concat]. rewrite <- app_assoc.
  pose proof (EncodeRune_nonempty r) as Hne.
  pose proof (DecodeRune_EncodeRune r (concat (map Utf8.EncodeRune rs) ++ rest) Hr) as Hd.
  destruct (Utf8.EncodeRune r) as [|c e] eqn:He; [congruence|].
  change ((c :: e) ++ concat (map Utf8.EncodeRune rs) ++ rest)
    with (c :: (e ++ concat (map Utf8.EncodeRune rs) ++ rest)) in *.
  rewrite runesL_cons, Hd. cbn [fst snd app].
  f_equal. change (c :: e ++ concat (map Utf8.EncodeRune rs) ++ rest)
    with ((c :: e) ++ (concat (map Utf8.EncodeRune rs) ++ rest)).
  rewrite skipn_app, skipn_all, Nat.sub_diag. exact IH.
Qed.

Lemma runes_runesL s : Utf8.runes s = runesL (list_ascii_of_string s).
Proof.
  unfold Utf8.runes, runesL. f_equal.
  induction s as [|c s IH]; simpl; congruence.
Qed.

Lemma runes_valid s : Forall validRune (Utf8.runes s).
Proof. rewrite runes_runesL. apply runesL_valid. Qed.

(** Decoding what was encoded gives the runes back. *)
Lemma runes_encode rs : Forall validRune rs -> Utf8.runes (Utf8.encode rs) = rs.
Proof.
  intros H. rewrite runes_runesL. unfold Utf8.encode.
  rewrite list_ascii_of_string_of_list_ascii.
  rewrite <- (app_nil_r (concat _)), runesL_encode by exact H.
  apply app_nil_r.
Qed.


(** ** Strings: lengths and suffixes *)

Lemma append_String c a b : String c a +:+ b = String c (a +:+ b).
Proof. reflexivity. Qed.

Lemma append_Empty b : EmptyString +:+ b = b.
Proof. reflexivity. Qed.

Lemma strlen_append a b : String.length (a +:+ b) = (String.length a + String.length b)%nat.
Proof.
  induction a as [|c a IH]; [reflexivity|].
  rewrite append_String. simpl. rewrite IH. reflexivity.
Qed.

Lemma strlen_of_list l : String.length (string_of_list_ascii l) = length l.
Proof. induction l as [|c l IH]; simpl; congruence. Qed.

Lemma strlen_to_list s : length (list_ascii_of_string s) = String.length s.
Proof. induction s as [|c s IH]; simpl; congruence. Qed.

Lemma string_of_list_app a b :
  string_of_list_ascii (a ++ b) = string_of_list_ascii a +:+ string_of_list_ascii b.
Proof.
  induction a as [|c a IH]; [reflexivity|].
  simpl. rewrite append_String, IH. reflexivity.
Qed.

Lemma substring_prefix pre suf :
  substring 0 (String.length pre) (pre +:+ suf) = pre.
Proof.
  induction pre as [|c pre IH].
  - destruct suf; reflexivity.
  - rewrite append_String. simpl. rewrite IH. reflexivity.
Qed.

Lemma substring_all s : substring 0 (String.length s) s = s.
Proof. induction s as [|c s IH]; [reflexivity|simpl; rewrite IH; reflexivity]. Qed.

Lemma substring_suffix pre suf :
  substring (String.length pre) (String.length suf) (pre +:+ suf) = suf.
Proof.
  induction pre as [|c pre IH]; [apply substring_all|].
  rewrite append_String. exact IH.
Qed.

Lemma trimSuffix_append pre suf : GoString.trimSuffix (pre +:+ suf) suf = pre.
Proof.
  unfold GoString.trimSuffix. rewrite strlen_append.
  replace (String.length pre + String.length suf - String.length suf)%nat
    with (String.length pre) by lia.
  rewrite substring_suffix, String.eqb_refl, substring_prefix.
  destruct (Nat.leb_spec (String.length suf) (String.length pre + String.length suf));
    [reflexivity|lia].
Qed.

Lemma extRev_suffix isSep r : forall acc,
  exists pre, rev r ++ acc = pre ++ Filepath.extRev isSep r acc.
Proof.
  induction r as [|c r IH]; intros acc; simpl.
  - exists acc. rewrite app_nil_r. reflexivity.
  - destruct (isSep c); [exists (rev r ++ [c] ++ acc); rewrite app_nil_r, <- app_assoc;
                         reflexivity|].
    destruct (Ascii.eqb_spec c Filepath.dot) as [->|Hne].
    + exists (rev r). rewrite <- app_assoc. reflexivity.
    + destruct (IH (c :: acc)) as [pre Hpre]. exists pre.
      rewrite <- app_assoc. exact Hpre.
Qed.

(** [filepath.Ext] returns a suffix of its argument. *)
Lemma Ext_suffix isSep path :
  exists pre, path = pre +:+ Filepath.Ext isSep path.
Proof.
  unfold Filepath.Ext.
  destruct (extRev_suffix isSep (rev (list_ascii_of_string path)) []) as [pre Hpre].
  rewrite rev_involutive, app_nil_r in Hpre.
  exists (string_of_list_ascii pre).
  rewrite <- string_of_list_app, <- Hpre. symmetry.
  apply string_of_list_ascii_of_string.
Qed.

Lemma takeWhile_length f l : (length (GoString.takeWhile f l) <= length l)%nat.
Proof. induction l as [|c l IH]; simpl; [lia|]. destruct (f c); simpl; lia. Qed.

Lemma dropWhile_length f l : (length (GoString.dropWhile f l) <= length l)%nat.
Proof. induction l as [|c l IH]; simpl; [lia|]. destruct (f c); simpl; lia. Qed.

(** [filepath.Base] never returns more bytes than it was given, a lone
    [.] or separator apart. *)
Lemma Base_length isSep sep vol path :
  (String.length (Filepath.Base isSep sep vol path) <= Nat.max 1 (String.length path))%nat.
Proof.
  unfold Filepath.Base. destruct path as [|c path]; [simpl; lia|].
  set (l := list_ascii_of_string (String c path)).
  assert (length l = String.length (String c path)) as Hl by apply strlen_to_list.
  set (stripped := rev (GoString.dropWhile isSep (rev l))).
  assert (length stripped <= length l)%nat as H1.
  { subst stripped. rewrite length_rev.
    etransitivity; [apply dropWhile_length|]. rewrite length_rev. lia. }
  set (p := skipn (vol stripped) stripped).
  assert (length p <= length stripped)%nat as H2.
  { subst p. rewrite length_skipn. lia. }
  set (last := rev (GoString.takeWhile (fun c0 => negb (isSep c0)) (rev p))).
  assert (length last <= length p)%nat as H3.
  { subst last. rewrite length_rev.
    etransitivity; [apply takeWhile_length|]. rewrite length_rev. lia. }
  destruct last as [|d last']; [simpl; lia|].
  rewrite strlen_of_list. lia.
Qed.

(** ** The trimming loop of the length fix *)

Lemma runes_nonempty c s : Utf8.runes (String c s) <> [].
Proof. rewrite runes_runesL. simpl. rewrite runesL_cons. discriminate. Qed.

Lemma encode_nil : Utf8.encode [] = "".
Proof. reflexivity. Qed.

Lemma sliceTo_last {A : Type} (l : list A) :
  l <> [] ->
  sliceTo (Z.of_nat (length l) - 1) l = Ok (take (length l - 1) l).
Proof.
  intros Hne. unfold sliceTo.
  destruct l as [|a l]; [congruence|].
  destruct (Z.ltb_spec (Z.of_nat (length (a :: l)) - 1) 0); [simpl in *; lia|].
  destruct (Z.ltb_spec (Z.of_nat (length (a :: l))) (Z.of_nat (length (a :: l)) - 1));
    [lia|].
  cbn [orb]. do 2 f_equal. simpl length. lia.
Qed.

(** On a valid string the loop stops after dropping some runes. *)
Lemma trimLoop_encode n : forall rs index fuel,
  Forall validRune rs -> length rs = n -> 0 <= index -> (n < fuel)%nat ->
  exists k, (k <= n)%nat
            /\ trimLoop fuel (Utf8.encode rs) index = Ok (Utf8.encode (take k rs))
            /\ Z.of_nat (String.length (Utf8.encode (take k rs))) <= index.
Proof.
  induction n as [|n IH]; intros rs index fuel Hv Hn Hi Hf;
    (destruct fuel as [|fuel]; [lia|]); cbn [trimLoop].
  - destruct rs; [|discriminate]. rewrite encode_nil. simpl String.length.
    destruct (Z.ltb_spec index (Z.of_nat 0)); [lia|].
    exists 0%nat. split; [lia|]. split; [reflexivity|simpl; lia].
  - destruct (Z.ltb_spec index (Z.of_nat (String.length (Utf8.encode rs)))) as [Hlt|Hge].
    + rewrite runes_encode by exact Hv.
      rewrite sliceTo_last by (destruct rs; [discriminate|congruence]).
      cbn [rbind]. rewrite Hn. replace (S n - 1)%nat with n by lia.
      destruct (IH (take n rs) index fuel) as (k & Hk & Hr & Hl);
        [apply Forall_take; exact Hv|rewrite length_take; lia|exact Hi|lia|].
      rewrite take_take in Hr, Hl. replace (k `min` n)%nat with k in Hr, Hl by lia.
      exists k. split; [lia|]. split; [exact Hr|exact Hl].
    + exists (S n). rewrite <- Hn, firstn_all. split; [lia|]. split; [reflexivity|exact Hge].
Qed.

(** On any string longer than [index] bytes the loop drops at least one
    rune and stops with a name of at most [index] bytes. *)
Lemma trimLoop_spec s index fuel :
  0 <= index -> index < Z.of_nat (String.length s) ->
  (length (Utf8.runes s) < fuel)%nat ->
  exists k, (k < length (Utf8.runes s))%nat
            /\ trimLoop fuel s index = Ok (Utf8.encode (take k (Utf8.runes s)))
            /\ Z.of_nat (String.length (Utf8.encode (take k (Utf8.runes s)))) <= index.
Proof.
  intros Hi Hlt Hf. destruct fuel as [|fuel]; [lia|]. cbn [trimLoop].
  destruct (Z.ltb_spec index (Z.of_nat (String.length s))); [|lia].
  assert (Utf8.runes s <> []) as Hne.
  { destruct s; [simpl in Hlt; lia|apply runes_nonempty]. }
  rewrite sliceTo_last by exact Hne. cbn [rbind].
  set (rs := Utf8.runes s) in *.
  assert (0 < length rs)%nat as Hpos by (destruct rs; [congruence|simpl; lia]).
  destruct (trimLoop_encode (length rs - 1) (take (length rs - 1) rs) index fuel)
    as (k & Hk & Hr & Hl);
    [apply Forall_take, runes_valid|rewrite length_take; lia|exact Hi|lia|].
  rewrite take_take in Hr, Hl.
  replace (k `min` (length rs - 1))%nat with k in Hr, Hl by lia.
  exists k. split; [lia|]. split; [exact Hr|exact Hl].
Qed.

(** C7, as the code has it.  A length conflict is reported exactly when
    the base name of the target has more than 260 runes (Unicode code
    points) on Windows, or more than 255 bytes elsewhere.  Elsewhere than
    on Windows, under auto-fix and for an extension of at most 255 bytes,
    the conflict is recorded and the target becomes the base name
    without its extension, cut by whole runes from the end, followed by
    the unchanged extension; the new name has at most 255 bytes and
    passes the length check. *)
Theorem C7_length_conflict_and_fix :
  (forall GOOS filepath_Base target,
      checktTargetLength GOOS filepath_Base target <> None
      <-> (if isWindows GOOS
           then 260 < Z.of_nat (length (Utf8.runes (filepath_Base target)))
           else 255 < Z.of_nat (String.length (filepath_Base target))))
  /\ (forall GOOS fuel sourcePath target targetPath i o ci,
         isWindows GOOS = false ->
         fixConflicts o = true ->
         matches o !! i = Some ci ->
         let filename := Filepath.Unix.Base target in
         let ext := Filepath.Unix.Ext filename in
         let fileNoExt := FilenameWithoutExtension Filepath.Unix.Ext filename in
         255 < Z.of_nat (String.length filename) ->
         (String.length ext <= 255)%nat ->
         (length (Utf8.runes fileNoExt) < fuel)%nat ->
         exists k,
           let t := Utf8.encode (take k (Utf8.runes fileNoExt)) in
           (k < length (Utf8.runes fileNoExt))%nat
           /\ checkPathLengthConflict GOOS Filepath.Unix.Base Filepath.Unix.Ext
                                      Filepath.Unix.Join fuel
                                      sourcePath target targetPath i o
              = Ok (true,
                    withMatches
                      (<[i := setStatus statusOK (setTarget (t +:+ ext) ci)]> (matches o))
                      (addConflict maxFilenameLengthExceeded
                                   (mkConflict targetPath "255 bytes" [sourcePath]) o))
           /\ (String.length (t +:+ ext) <= 255)%nat
           /\ checktTargetLength GOOS Filepath.Unix.Base (t +:+ ext) = None).
Proof.
  split.
  - intros GOOS B target. unfold checktTargetLength, windowsMaxLength, unixMaxBytes.
    destruct (isWindows GOOS); cbn [andb negb].
    + destruct (Z.ltb_spec 260 (Z.of_nat (length (Utf8.runes (B target)))));
        split; try discriminate; try lia; congruence.
    + destruct (Z.ltb_spec 255 (Z.of_nat (String.length (B target))));
        split; try discriminate; try lia; congruence.
  - intros GOOS fuel sp target tp i o ci Hw Hfix Hi filename ext fileNoExt Hlong Hext Hfuel.
    destruct (Ext_suffix Filepath.Unix.isSep filename) as [pre Hpre].
    fold (Filepath.Unix.Ext filename) in Hpre. fold ext in Hpre.
    assert (fileNoExt = pre) as Hfn.
    { subst fileNoExt. unfold FilenameWithoutExtension. fold ext.
      rewrite Hpre at 1. apply trimSuffix_append. }
    assert (String.length filename = (String.length pre + String.length ext)%nat) as Hlen.
    { rewrite Hpre at 1. apply strlen_append. }
    destruct (trimLoop_spec fileNoExt (255 - Z.of_nat (String.length ext)) fuel)
      as (k & Hk & Hr & Hl); [lia|rewrite Hfn; lia|exact Hfuel|].
    exists k. cbn zeta.
    set (t := Utf8.encode (take k (Utf8.runes fileNoExt))) in *.
    assert (String.length (t +:+ ext) <= 255)%nat as Hfit.
    { rewrite strlen_append. lia. }
    split; [exact Hk|]. split; [|split; [exact Hfit|]].
    + unfold checkPathLengthConflict, checktTargetLength, unixMaxBytes.
      rewrite Hw. cbn [andb negb]. fold filename.
      destruct (Z.ltb_spec 255 (Z.of_nat (String.length filename))); [|lia].
      erewrite setMatch_Some by exact Hi. cbn [rbind].
      change (fixConflicts (withMatches _ (addConflict _ _ o))) with (fixConflicts o).
      rewrite Hfix. fold ext fileNoExt.
      change (Z.of_nat 255) with 255 in *.
      unfold unixMaxBytes in Hr. rewrite Hr. cbn [rbind]. fold t.
      erewrite setMatch_Some
        by (simpl; apply list_lookup_insert_eq; eapply lookup_lt_Some; exact Hi).
      cbn [rbind].
      erewrite setMatch_Some
        by (simpl; apply list_lookup_insert_eq; rewrite length_insert;
            eapply lookup_lt_Some; exact Hi).
      cbn [rbind]. simpl. rewrite !list_insert_insert_eq. reflexivity.
    + unfold checktTargetLength, unixMaxBytes. rewrite Hw. cbn [andb negb].
      pose proof (Base_length Filepath.Unix.isSep Filepath.Unix.Separator
                              Filepath.Unix.volumeNameLen (t +:+ ext)) as Hb.
      fold (Filepath.Unix.Base (t +:+ ext)) in Hb.
      destruct (Z.ltb_spec 255 (Z.of_nat (String.length (Filepath.Unix.Base (t +:+ ext)))));
        [lia|reflexivity].
Qed.

(** A name of 131 characters outside the Basic Multilingual Plane
    (U+1F600, four bytes and two UTF-16 units each). *)
Definition grinning : list ascii :=
  [ascii_of_nat 240; ascii_of_nat 159; ascii_of_nat 152; ascii_of_nat 128].

Definition emojiName : string := string_of_list_ascii (concat (repeat grinning 131)).

(** On Windows a base name of 262 UTF-16 units (more than 260) made of
    131 runes is not reported. *)
Lemma C7_counterexample :
  Filepath.Windows.Base emojiName = emojiName
  /\ Utf8.utf16Len emojiName = 262%nat
  /\ length (Utf8.runes emojiName) = 131%nat
  /\ checktTargetLength Windows Filepath.Windows.Base emojiName = None.
Proof. repeat split; vm_compute; reflexivity. Qed.

(** A name of 300 letters and [.txt] in a directory. *)
Definition tooLong : string := "sub/" +:+ string_of_list_ascii (repeat "b"%char 300) +:+ ".txt".

Lemma C7_witness :
  isWindows Linux = false
  /\ fixConflicts (operation [change "d" "a.txt" tooLong] true) = true
  /\ matches (operation [change "d" "a.txt" tooLong] true) !! 0%nat
     = Some (change "d" "a.txt" tooLong)
  /\ 255 < Z.of_nat (String.length (Filepath.Unix.Base tooLong))
  /\ (String.length (Filepath.Unix.Ext (Filepath.Unix.Base tooLong)) <= 255)%nat
  /\ (length (Utf8.runes (FilenameWithoutExtension Filepath.Unix.Ext
                            (Filepath.Unix.Base tooLong))) < 400)%nat
  /\ exists k o',
       Linux.checkPathLengthConflict 400%nat "d/a.txt" tooLong "d/sub/x" 0%nat
                                     (operation [change "d" "a.txt" tooLong] true)
       = Ok (true, o')
       /\ map Target (matches o')
          = [string_of_list_ascii (repeat "b"%char k) +:+ ".txt"]
       /\ k = 251%nat.
Proof.
  split; [reflexivity|]. split; [reflexivity|]. split; [reflexivity|].
  split; [vm_compute; reflexivity|]. split; [vm_compute; lia|].
  split; [vm_compute; lia|].
  destruct (proj2 C7_length_conflict_and_fix Linux 400%nat "d/a.txt" tooLong "d/sub/x" 0%nat
                  (operation [change "d" "a.txt" tooLong] true)
                  (change "d" "a.txt" tooLong))
    as (k & Hk & Hr & _); [reflexivity|reflexivity|reflexivity|vm_compute; reflexivity
                           |vm_compute; lia|vm_compute; lia|].
  exists 251%nat. eexists. split; [vm_compute; reflexivity|].
  split; vm_compute; reflexivity.
Defined.

(** An extension longer than 255 bytes makes the length fix panic: the
    loop runs out of runes to drop. *)
Example length_fix_panics :
  Linux.checkPathLengthConflict 400%nat "d/a.txt"
    ("." +:+ string_of_list_ascii (repeat "b"%char 300)) "d/x" 0%nat
    (operation [change "d" "a.txt" ("." +:+ string_of_list_ascii (repeat "b"%char 300))]
               true)
  = Panic.
Proof. vm_compute. reflexivity. Qed.

(** ** A batch on which auto-fix never finishes

    A file whose name is 251 letters and [.txt] (255 bytes, the longest
    name allowed) exists, and [b.txt] is to be renamed to it.  Whatever
    name [newTarget] settles on, it is the 251 letters followed by a
    counter in parentheses, which is too long; the length fix cuts the
    base name back to the 251 letters, which is the name that exists.
    And when [os.Stat] never reports not-exists for the numbered names
    (they are too long for the filesystem), [newTarget] itself does not
    return. *)

Definition longBase : string := string_of_list_ascii (repeat "a"%char 251).
Definition longName : string := longBase +:+ ".txt".
Definition longFixed : string := longBase +:+ " (2).txt".
Definition existingLong : list string := ["d/b.txt"; "d/" +:+ longName].

Definition opLong (c : gmap ConflictType (list Conflict)) (t : string)
           (s : renameStatus) : Operation :=
  mkOperation c "" "" [mkChange "b.txt" s "d" "b.txt" t "" [] 0 false false] []
              false false false false false true false false false.

(** A filesystem given by the paths that exist, which refuses names of
    more than 255 bytes with an error other than not-exists. *)
Definition nameMaxStat (existing : list string) (path : string) : option statError :=
  if (255 <? String.length (Filepath.Unix.Base path))%nat then Some ErrOther
  else Linux.Stat existing path.

Example longName_is_legal :
  String.length longName = 255%nat
  /\ Linux.checktTargetLength longName = None
  /\ Linux.checktTargetLength longFixed = Some "255 bytes".
Proof. repeat split; vm_compute; reflexivity. Qed.

(** *** The two fixes, as steps of the per-item loop *)

Section FixSteps.

Variable GOOS : platform.
Variable filepath_Base : string -> string.
Variable filepath_Ext : string -> string.
Variable filepath_Dir : string -> string.
Variable filepath_Join : list string -> string.
Variable strings_EqualFold : string -> string -> bool.
Variable os_Stat : string -> option statError.

Local Abbreviation detectLoop :=
  (detectLoop GOOS filepath_Base filepath_Ext filepath_Dir filepath_Join
              strings_EqualFold os_Stat).
Local Abbreviation newTarget :=
  (newTarget filepath_Base filepath_Ext filepath_Dir filepath_Join os_Stat).

Hypothesis notWindows : isWindows GOOS = false.

(** When the length check fires under auto-fix, the loop goes on with
    the same item and the truncated name. *)
Lemma detectLoop_length_fix f i op rp ch err :
  matches op !! i = Some ch ->
  String.eqb (Target ch) "." || String.eqb (Target ch) "" = false ->
  checktTargetLength GOOS filepath_Base (Target ch) = Some err ->
  fixConflicts op = true ->
  detectLoop (S f) i op rp
  = (fileNoExt <~ trimLoop f (FilenameWithoutExtension filepath_Ext
                                 (filepath_Base (Target ch)))
                           (unixMaxBytes
                            - Z.of_nat (String.length
                                          (filepath_Ext (filepath_Base (Target ch)))));
     detectLoop f i
       (withMatches
          (<[i := setStatus statusOK
                    (setTarget (fileNoExt +:+ filepath_Ext (filepath_Base (Target ch)))
                               (setStatus statusFilenameLengthExceeded ch))]>
             (matches op))
          (addConflict maxFilenameLengthExceeded
             (mkConflict (filepath_Join [BaseDir ch; Target ch]) err
                         [filepath_Join [BaseDir ch; Source ch]]) op))
       rp).
Proof.
  intros Hi Hdot Hlen Hfix. cbn [detectLoop]. rewrite Hi, Hdot.
  unfold checkTrailingPeriodConflict. rewrite notWindows. cbn [rbind andb].
  unfold checkPathLengthConflict. rewrite Hlen.
  erewrite setMatch_Some by (simpl; exact Hi). cbn [rbind].
  cbn [fixConflicts withMatches]. simpl fixConflicts. rewrite Hfix, notWindows.
  destruct (trimLoop _ _ _) as [s| |]; cbn [rbind]; try reflexivity.
  erewrite setMatch_Some
    by (simpl; apply list_lookup_insert_eq; eapply lookup_lt_Some; exact Hi).
  cbn [rbind].
  erewrite setMatch_Some
    by (simpl; apply list_lookup_insert_eq; rewrite length_insert;
        eapply lookup_lt_Some; exact Hi).
  cbn [rbind]. simpl. rewrite Hfix. simpl.
  rewrite !list_insert_insert_eq. reflexivity.
Qed.

(** When the target exists and nothing excuses it, auto-fix asks
    [newTarget] for a name and the loop goes on with the same item. *)
Lemma detectLoop_exists_fix f i op rp ch :
  matches op !! i = Some ch ->
  String.eqb (Target ch) "." || String.eqb (Target ch) "" = false ->
  checktTargetLength GOOS filepath_Base (Target ch) = None ->
  checkForbiddenCharacters GOOS (Target ch) = None ->
  statExists os_Stat (filepath_Join [BaseDir ch; Target ch]) = true ->
  strings_EqualFold (filepath_Join [BaseDir ch; Source ch])
                    (filepath_Join [BaseDir ch; Target ch]) = false ->
  allowOverwrites op = false ->
  vacatedEarlier filepath_Join strings_EqualFold
                 (filepath_Join [BaseDir ch; Target ch]) i op = false ->
  fixConflicts op = true ->
  detectLoop (S f) i op rp
  = (target <~ newTarget f ch ∅;
     detectLoop f i
       (withMatches
          (<[i := setStatus statusOK
                    (setTarget target (setStatus statusPathExists ch))]>
             (matches op))
          (addConflict fileExists
             (mkConflict (filepath_Join [BaseDir ch; Target ch]) ""
                         [filepath_Join [BaseDir ch; Source ch]]) op))
       rp).
Proof.
  intros Hi Hdot Hlen Hforb Hex Hfold Hallow Hvac Hfix.
  cbn [detectLoop]. rewrite Hi, Hdot.
  unfold checkTrailingPeriodConflict. rewrite notWindows. cbn [rbind andb].
  unfold checkPathLengthConflict. rewrite Hlen. cbn [rbind andb].
  unfold checkForbiddenCharactersConflict. rewrite Hforb. cbn [rbind andb].
  unfold checkPathExistsConflict. rewrite Hex, Hfold, Hallow, Hvac.
  erewrite setMatch_Some by (simpl; exact Hi). cbn [rbind].
  simpl fixConflicts. rewrite Hfix.
  destruct (newTarget _ _ _) as [t| |]; cbn [rbind]; try reflexivity.
  erewrite setMatch_Some
    by (simpl; apply list_lookup_insert_eq; eapply lookup_lt_Some; exact Hi).
  cbn [rbind].
  erewrite setMatch_Some
    by (simpl; apply list_lookup_insert_eq; rewrite length_insert;
        eapply lookup_lt_Some; exact Hi).
  cbn [rbind]. simpl. rewrite Hfix. simpl.
  rewrite !list_insert_insert_eq. reflexivity.
Qed.

(** [newTarget] runs out of fuel or returns one of its candidates. *)
Lemma newTargetLoop_shape fuel : forall ch rp fileNoExt num,
  newTargetLoop filepath_Ext filepath_Dir filepath_Join os_Stat fuel ch rp fileNoExt num
  = OutOfFuel
  \/ exists n,
       newTargetLoop filepath_Ext filepath_Dir filepath_Join os_Stat fuel ch rp
                     fileNoExt num
       = Ok (candidate filepath_Ext filepath_Dir filepath_Join ch fileNoExt n).
Proof.
  induction fuel as [|fuel IH]; intros ch rp f num; simpl; [left; reflexivity|].
  destruct (statNotExist _ _ && _); [right; eauto|apply IH].
Qed.

End FixSteps.

(** ** Names made of plain bytes *)

Lemma list_of_append a b :
  list_ascii_of_string (a +:+ b) = list_ascii_of_string a ++ list_ascii_of_string b.
Proof.
  induction a as [|c a IH]; [reflexivity|].
  rewrite append_String. simpl. rewrite IH. reflexivity.
Qed.

Lemma takeWhile_all f l :
  Forall (fun c => f c = true) l -> GoString.takeWhile f l = l.
Proof. induction 1 as [|c l Hc _ IH]; simpl; [reflexivity|]. rewrite Hc, IH. reflexivity. Qed.

Lemma dropWhile_all f l :
  Forall (fun c => f c = true) l -> GoString.dropWhile f l = [].
Proof. induction 1 as [|c l Hc _ IH]; simpl; [reflexivity|]. rewrite Hc. exact IH. Qed.

Lemma dropWhile_none f l :
  Forall (fun c => f c = false) l -> GoString.dropWhile f l = l.
Proof. destruct 1 as [|c l Hc _]; simpl; [reflexivity|]. rewrite Hc. reflexivity. Qed.

(** A byte of a file name: no separator, and ASCII. *)
Definition plain (c : ascii) : Prop :=
  Filepath.Unix.isSep c = false /\ Utf8.byteZ c < 128.

Lemma plain_notSep l :
  Forall plain l -> Forall (fun c => Filepath.Unix.isSep c = false) l.
Proof. intros H. eapply Forall_impl; [exact H|]. intros c [Hc _]. exact Hc. Qed.

Lemma plain_notSep' l :
  Forall plain l -> Forall (fun c => negb (Filepath.Unix.isSep c) = true) l.
Proof.
  intros H. eapply Forall_impl; [exact H|]. intros c [Hc _]. rewrite Hc. reflexivity.
Qed.

Lemma Base_plain l :
  l <> [] -> Forall plain l ->
  Filepath.Unix.Base (string_of_list_ascii l) = string_of_list_ascii l.
Proof.
  intros Hne Hp. unfold Filepath.Unix.Base, Filepath.Base.
  destruct (string_of_list_ascii l) eqn:E.
  { destruct l; [congruence|discriminate]. }
  rewrite <- E, list_ascii_of_string_of_list_ascii.
  rewrite dropWhile_none by (apply plain_notSep, Forall_rev; exact Hp).
  rewrite rev_involutive. unfold Filepath.Unix.volumeNameLen. cbn [skipn].
  rewrite takeWhile_all by (apply plain_notSep', Forall_rev; exact Hp).
  rewrite rev_involutive. destruct l; [congruence|reflexivity].
Qed.

Lemma Ext_txt l :
  Filepath.Unix.Ext (string_of_list_ascii (l ++ list_ascii_of_string ".txt")) = ".txt".
Proof.
  unfold Filepath.Unix.Ext, Filepath.Ext.
  rewrite list_ascii_of_string_of_list_ascii, rev_app_distr. reflexivity.
Qed.

(** [Clean] leaves a single plain element alone, also behind [./]. *)
Lemma cleanLoop_plain fuel c l :
  Forall plain (c :: l) -> c <> "."%char ->
  Filepath.cleanLoop Filepath.Unix.isSep Filepath.Unix.Separator
                     (S fuel) false (c :: l) [] 0
  = rev (c :: l).
Proof.
  intros Hp Hc. cbn [Filepath.cleanLoop].
  pose proof (Forall_inv Hp) as [Hs _]. rewrite Hs.
  destruct (Ascii.eqb_spec c Filepath.dot) as [->|_]; [exfalso; apply Hc; reflexivity|]. cbn [andb].
  cbn [length Nat.eqb negb andb orb app].
  rewrite takeWhile_all, dropWhile_all by (apply plain_notSep'; exact Hp).
  rewrite app_nil_r. destruct fuel; reflexivity.
Qed.

Lemma Clean_dot_plain c l :
  Forall plain (c :: l) -> c <> "."%char ->
  Filepath.Unix.Clean (string_of_list_ascii ("."%char :: "/"%char :: c :: l))
  = string_of_list_ascii (c :: l).
Proof.
  intros Hp Hc. unfold Filepath.Unix.Clean, Filepath.Clean.
  rewrite list_ascii_of_string_of_list_ascii.
  change (Filepath.Unix.isSep ".") with false. cbv iota.
  assert (Filepath.cleanLoop Filepath.Unix.isSep Filepath.Unix.Separator
            (S (S (length ("/"%char :: c :: l)))) false
            ("."%char :: "/"%char :: c :: l) [] 0
          = rev (c :: l)) as ->.
  { change (S (S (length ("/"%char :: c :: l))))
      with (S (S (S (S (length l))))).
    rewrite <- (cleanLoop_plain (S (length l)) c l Hp Hc). reflexivity. }
  rewrite rev_involutive.
  destruct (rev (c :: l)) eqn:E; [|reflexivity].
  apply (f_equal (@length ascii)) in E. rewrite length_rev in E. discriminate.
Qed.

Lemma Join_dot_plain c l :
  Forall plain (c :: l) -> c <> "."%char ->
  Filepath.Unix.Join ["."; string_of_list_ascii (c :: l)] = string_of_list_ascii (c :: l).
Proof.
  intros Hp Hc. etransitivity; [|exact (Clean_dot_plain c l Hp Hc)]. reflexivity.
Qed.

(** ** ASCII names under [[]rune] and [string] *)

Lemma encode_ascii l :
  Forall plain l -> Utf8.encode (map Utf8.byteZ l) = string_of_list_ascii l.
Proof.
  intros Hp. unfold Utf8.encode. f_equal.
  induction Hp as [|c l [_ Hc] _ IH]; [reflexivity|].
  cbn [map concat]. rewrite IH. unfold Utf8.EncodeRune, Utf8.between.
  pose proof (byteZ_range c) as Hr.
  destruct (Z.leb_spec 0 (Utf8.byteZ c)); [|lia].
  destruct (Z.leb_spec (Utf8.byteZ c) 127); [|lia].
  cbn [andb app]. f_equal.
  unfold Utf8.Zbyte, Utf8.byteZ. rewrite N2Z.id. apply ascii_N_embedding.
Qed.

Lemma ascii_valid l : Forall plain l -> Forall validRune (map Utf8.byteZ l).
Proof.
  intros Hp. apply Forall_map. eapply Forall_impl; [exact Hp|].
  intros c [_ Hc]. pose proof (byteZ_range c). left. simpl. lia.
Qed.

Lemma runes_ascii l :
  Forall plain l -> Utf8.runes (string_of_list_ascii l) = map Utf8.byteZ l.
Proof.
  intros Hp. rewrite <- (encode_ascii l Hp). apply runes_encode, ascii_valid, Hp.
Qed.

(** On an ASCII name the trimming loop keeps the first [index] bytes. *)
Lemma trimLoop_ascii fuel : forall l index,
  Forall plain l -> 0 <= index <= Z.of_nat (length l) ->
  trimLoop fuel (string_of_list_ascii l) index = OutOfFuel
  \/ trimLoop fuel (string_of_list_ascii l) index
     = Ok (string_of_list_ascii (take (Z.to_nat index) l)).
Proof.
  induction fuel as [|fuel IH]; intros l index Hp Hi; [left; reflexivity|].
  cbn [trimLoop]. rewrite strlen_of_list.
  destruct (Z.ltb_spec index (Z.of_nat (length l))) as [Hlt|Hge].
  - rewrite runes_ascii by exact Hp.
    assert (map Utf8.byteZ l <> []) as Hne.
    { destruct l; [simpl in Hlt; lia|discriminate]. }
    rewrite (sliceTo_last _ Hne). cbn [rbind].
    rewrite firstn_map, length_map.
    assert (Forall plain (take (length l - 1) l)) as Hp' by (apply Forall_take; exact Hp).
    rewrite (encode_ascii _ Hp').
    destruct (IH (take (length l - 1) l) index Hp') as [H|H].
    + rewrite length_take. lia.
    + left. exact H.
    + right. rewrite H. f_equal. f_equal. rewrite take_take. f_equal. lia.
  - right. f_equal. f_equal. rewrite take_ge; [reflexivity|lia].
Qed.

(** ** The decimal rendering of a counter *)

Definition digitOrMinus (c : ascii) : Prop :=
  In c (list_ascii_of_string "-0123456789").

Lemma digitOrMinus_plain c : digitOrMinus c -> plain c.
Proof.
  unfold digitOrMinus. simpl.
  intros H. repeat (destruct H as [<-|H]; [split; reflexivity|]). destruct H.
Qed.

Lemma string_of_uint_digits d :
  Forall digitOrMinus (list_ascii_of_string (NilEmpty.string_of_uint d)).
Proof.
  induction d; simpl; constructor; try assumption; unfold digitOrMinus; simpl; tauto.
Qed.

Lemma Itoa_digits n :
  Forall digitOrMinus (list_ascii_of_string (GoInt.Itoa n)).
Proof.
  unfold GoInt.Itoa, NilZero.string_of_int.
  destruct (Z.to_int n) as [d|d]; unfold NilZero.string_of_uint.
  - destruct d; try apply string_of_uint_digits.
    simpl. constructor; [unfold digitOrMinus; simpl; tauto|constructor].
  - simpl. constructor; [unfold digitOrMinus; simpl; tauto|].
    destruct d; try apply string_of_uint_digits.
    simpl. constructor; [unfold digitOrMinus; simpl; tauto|constructor].
Qed.

Lemma Itoa_plain n : Forall plain (list_ascii_of_string (GoInt.Itoa n)).
Proof.
  eapply Forall_impl; [apply Itoa_digits|]. intros c. apply digitOrMinus_plain.
Qed.

(** The bytes of [<251 x a> (ds)] and the name with [.txt]. *)
Definition numbered (ds : list ascii) : list ascii :=
  repeat "a"%char 251 ++ list_ascii_of_string " (" ++ ds ++ list_ascii_of_string ")".

Definition numberedName (ds : list ascii) : string :=
  string_of_list_ascii (numbered ds ++ list_ascii_of_string ".txt").

Lemma numbered_plain ds : Forall plain ds -> Forall plain (numbered ds).
Proof.
  intros Hd. unfold numbered. repeat apply Forall_app_2; try exact Hd.
  - apply Forall_forall. intros c Hc.
    apply list_elem_of_In, repeat_spec in Hc. subst c. split; reflexivity.
  - repeat constructor.
  - repeat constructor.
Qed.

Lemma numberedName_plain ds :
  Forall plain ds -> Forall plain (numbered ds ++ list_ascii_of_string ".txt").
Proof.
  intros Hd. apply Forall_app_2; [apply numbered_plain; exact Hd|repeat constructor].
Qed.

Lemma numbered_cons ds :
  numbered ds ++ list_ascii_of_string ".txt"
  = "a"%char :: (repeat "a"%char 250 ++ list_ascii_of_string " (" ++ ds
                 ++ list_ascii_of_string ")") ++ list_ascii_of_string ".txt".
Proof. reflexivity. Qed.

Lemma numberedName_length ds :
  (255 < String.length (numberedName ds))%nat.
Proof.
  unfold numberedName, numbered. rewrite strlen_of_list, !length_app, repeat_length.
  simpl. lia.
Qed.

(** The change under repair. *)
Definition chLong (t : string) (s : renameStatus) : Change :=
  mkChange "b.txt" s "d" "b.txt" t "" [] 0 false false.

Lemma candidate_long s n :
  candidate Filepath.Unix.Ext Filepath.Unix.Dir Filepath.Unix.Join
            (chLong longName s) (longBase +:+ " (" +:+ GoInt.Itoa 2 +:+ ")") n
  = numberedName (list_ascii_of_string (GoInt.Itoa n)).
Proof.
  unfold candidate, replaceTrailingNumber.
  replace (trailingNumber (longBase +:+ " (" +:+ GoInt.Itoa 2 +:+ ")"))
    with (Some (longBase +:+ " ", ["2"%char])) by (vm_compute; reflexivity).
  cbn [Target chLong].
  replace (Filepath.Unix.Ext longName) with ".txt" by (vm_compute; reflexivity).
  replace (Filepath.Unix.Dir longName) with "." by (vm_compute; reflexivity).
  assert (((longBase +:+ " ") +:+ "(" +:+ GoInt.Itoa n +:+ ")") +:+ ".txt"
          = numberedName (list_ascii_of_string (GoInt.Itoa n))) as ->.
  { unfold numberedName, numbered.
    rewrite <- (string_of_list_ascii_of_string (_ +:+ ".txt")). f_equal.
    rewrite !list_of_append. unfold longBase.
    rewrite list_ascii_of_string_of_list_ascii, <- !app_assoc. reflexivity. }
  unfold numberedName. rewrite numbered_cons.
  apply Join_dot_plain; [|discriminate].
  rewrite <- numbered_cons. apply numberedName_plain, Itoa_plain.
Qed.

Section AutoFixDiverges.

Variable GOOS : platform.
Variable strings_EqualFold : string -> string -> bool.
Variable os_Stat : string -> option statError.

Hypothesis notWindows : isWindows GOOS = false.
Hypothesis longExists : statExists os_Stat ("d/" +:+ longName) = true.
Hypothesis notFolded : strings_EqualFold "d/b.txt" ("d/" +:+ longName) = false.

Local Abbreviation detectLoop :=
  (detectLoop GOOS Filepath.Unix.Base Filepath.Unix.Ext Filepath.Unix.Dir
              Filepath.Unix.Join strings_EqualFold os_Stat).

Lemma long_checks s :
  checktTargetLength GOOS Filepath.Unix.Base (Target (chLong longName s)) = None
  /\ checkForbiddenCharacters GOOS (Target (chLong longName s)) = None.
Proof.
  unfold checktTargetLength, checkForbiddenCharacters. rewrite notWindows.
  cbn [andb negb Target chLong]. split.
  - replace (unixMaxBytes <? _) with false by (vm_compute; reflexivity). reflexivity.
  - replace (GoString.containsByte ":" longName) with false by (vm_compute; reflexivity).
    rewrite andb_false_r. reflexivity.
Qed.

Lemma numbered_check ds :
  Forall plain ds ->
  checktTargetLength GOOS Filepath.Unix.Base (numberedName ds) = Some "255 bytes".
Proof.
  intros Hd. unfold checktTargetLength. rewrite notWindows. cbn [andb negb].
  unfold numberedName at 1.
  rewrite Base_plain;
    [|rewrite numbered_cons; discriminate|apply numberedName_plain; exact Hd].
  fold (numberedName ds).
  destruct (Z.ltb_spec unixMaxBytes (Z.of_nat (String.length (numberedName ds))))
    as [_|H]; [reflexivity|].
  pose proof (numberedName_length ds). unfold unixMaxBytes in H. lia.
Qed.

Lemma long_loop_diverges fuel :
  (forall c s rp, detectLoop fuel 0 (opLong c longName s) rp = OutOfFuel)
  /\ (forall c ds rp,
         Forall plain ds ->
         detectLoop fuel 0 (opLong c (numberedName ds) statusOK) rp = OutOfFuel).
Proof.
  induction fuel as [|f [IHa IHb]]; [split; reflexivity|]. split.
  - intros c s rp.
    destruct (long_checks s) as [Hlen Hforb].
    rewrite (detectLoop_exists_fix GOOS _ _ _ _ _ os_Stat notWindows f 0
               (opLong c longName s) rp (chLong longName s));
      [|reflexivity|reflexivity|exact Hlen|exact Hforb|exact longExists
       |exact notFolded|reflexivity|
       |reflexivity].
    + unfold newTarget.
      replace (newTargetStart _)
        with (longBase +:+ " (" +:+ GoInt.Itoa 2 +:+ ")", 2)
        by (vm_compute; reflexivity).
      destruct (newTargetLoop_shape Filepath.Unix.Ext Filepath.Unix.Dir
                  Filepath.Unix.Join os_Stat f (chLong longName s) ∅
                  (longBase +:+ " (" +:+ GoInt.Itoa 2 +:+ ")") 2) as [H|[n H]];
        rewrite H; [reflexivity|].
      cbn [rbind]. rewrite candidate_long.
      apply (IHb _ (list_ascii_of_string (GoInt.Itoa n)) rp (Itoa_plain n)).
    + unfold vacatedEarlier. cbn [matches opLong imap existsb].
      rewrite Nat.ltb_irrefl, andb_false_r. reflexivity.
  - intros c ds rp Hd.
    rewrite (detectLoop_length_fix GOOS _ _ _ _ _ os_Stat notWindows f 0
               (opLong c (numberedName ds) statusOK) rp
               (chLong (numberedName ds) statusOK) "255 bytes");
      [|reflexivity|reflexivity|apply numbered_check; exact Hd|reflexivity].
    cbn [Target chLong]. unfold numberedName at 1 2 3.
    rewrite Base_plain;
      [|rewrite numbered_cons; discriminate|apply numberedName_plain; exact Hd].
    rewrite Ext_txt. unfold FilenameWithoutExtension. rewrite Ext_txt.
    rewrite string_of_list_app, string_of_list_ascii_of_string, trimSuffix_append.
    change (unixMaxBytes - Z.of_nat (String.length ".txt")) with 251.
    destruct (trimLoop_ascii f (numbered ds) 251 (numbered_plain ds Hd)) as [H|H].
    + unfold numbered. rewrite !length_app, repeat_length. lia.
    + rewrite H. reflexivity.
    + rewrite H. cbn [rbind].
      replace (take (Z.to_nat 251) (numbered ds)) with (repeat "a"%char 251).
      * apply (IHa _ statusOK rp).
      * unfold numbered. symmetry. apply take_app_length'. rewrite repeat_length. reflexivity.
Qed.

End AutoFixDiverges.

(** C6 fails on the code: on a platform other than Windows, with
    auto-fix on, [detectConflicts] does not return on this batch,
    whatever fuel it is given and whatever [os.Stat] answers for every
    other path, as soon as the 255-byte target exists. *)
Theorem C6_autofix_loop_diverges GOOS strings_EqualFold os_Stat rangeKeys fuel :
  isWindows GOOS = false ->
  statExists os_Stat ("d/" +:+ longName) = true ->
  strings_EqualFold "d/b.txt" ("d/" +:+ longName) = false ->
  detectConflicts GOOS Filepath.Unix.Base Filepath.Unix.Ext Filepath.Unix.Dir
                  Filepath.Unix.Join strings_EqualFold os_Stat rangeKeys fuel
                  (operation [change "d" "b.txt" longName] true)
  = OutOfFuel.
Proof.
  intros Hw Hex Hf. unfold detectConflicts.
  change (withConflicts ∅ (operation [change "d" "b.txt" longName] true))
    with (opLong ∅ longName statusUnset).
  rewrite (proj1 (long_loop_diverges GOOS strings_EqualFold os_Stat Hw Hex Hf fuel)).
  reflexivity.
Qed.

(** The same batch on a filesystem that refuses the numbered names as
    too long. *)
Lemma C6_witness :
  (isWindows Linux = false
   /\ statExists (nameMaxStat existingLong) ("d/" +:+ longName) = true
   /\ Linux.EqualFold "d/b.txt" ("d/" +:+ longName) = false)
  /\ detectConflicts Linux Filepath.Unix.Base Filepath.Unix.Ext Filepath.Unix.Dir
                     Filepath.Unix.Join Linux.EqualFold (nameMaxStat existingLong)
                     Linux.rangeKeys 1000
                     (operation [change "d" "b.txt" longName] true)
     = OutOfFuel.
Proof.
  split; [repeat split; vm_compute; reflexivity|].
  apply C6_autofix_loop_diverges; vm_compute; reflexivity.
Defined.

(** On the filesystem where every other name is reported as not
    existing, the two fixes undo each other for ever. *)
Example long_cycle fuel :
  Linux.detectLoop existingLong fuel 0 (opLong ∅ longName statusUnset) ∅ = OutOfFuel.
Proof.
  apply (long_loop_diverges Linux Linux.EqualFold (Linux.Stat existingLong));
    vm_compute; reflexivity.
Qed.

(** ** Renumbering of colliding targets *)

(** Below [maxInt], [k] increments of the counter add [k]. *)
Lemma iter_incr (k : nat) (n : Z) :
  - 2 ^ 63 <= n -> n + Z.of_nat k <= GoInt.maxInt ->
  Nat.iter k GoInt.incr n = n + Z.of_nat k.
Proof.
  induction k as [|k IH]; intros Hlo Hhi; [simpl; lia|].
  rewrite Nat.iter_succ, IH by lia.
  unfold GoInt.incr, GoInt.wrap, GoInt.maxInt in *.
  rewrite Z.mod_small by lia. lia.
Qed.

Local Close Scope Z_scope.

(** [lo <= k1 < k2 < ...] *)
Fixpoint increasingFrom (lo : nat) (ks : list nat) : Prop :=
  match ks with
  | [] => True
  | k :: ks' => (lo <= k)%nat /\ increasingFrom (S k) ks'
  end.

Section OverwriteFix.

Variable filepath_Base : string -> string.
Variable filepath_Ext : string -> string.
Variable filepath_Dir : string -> string.
Variable filepath_Join : list string -> string.
Variable os_Stat : string -> option statError.

Local Abbreviation newTargetLoop :=
  (newTargetLoop filepath_Ext filepath_Dir filepath_Join os_Stat).
Local Abbreviation newTarget :=
  (newTarget filepath_Base filepath_Ext filepath_Dir filepath_Join os_Stat).
Local Abbreviation candidate := (candidate filepath_Ext filepath_Dir filepath_Join).
Local Abbreviation free := (free filepath_Join os_Stat).
Local Abbreviation fixOverwriting :=
  (fixOverwriting filepath_Base filepath_Ext filepath_Dir filepath_Join os_Stat).
Local Abbreviation overwritingAt :=
  (overwritingAt filepath_Base filepath_Ext filepath_Dir filepath_Join os_Stat).

(** The change [c] asks for the same target in the same directory as
    [c0]. *)
Definition sameSlot (c0 c : Change) : Prop :=
  BaseDir c = BaseDir c0 /\ Target c = Target c0.

(** The target rendered for [c0] after [k] increments of the counter
    [newTarget] starts from. *)
Definition renumbered (c0 : Change) (k : nat) : string :=
  let start := newTargetStart
                 (FilenameWithoutExtension filepath_Ext (filepath_Base (Target c0))) in
  candidate c0 start.1 (Nat.iter k GoInt.incr start.2).

(** [newTargetLoop] returns the first free candidate. *)
Lemma newTargetLoop_first fuel : forall ch rp fileNoExt num t,
  newTargetLoop fuel ch rp fileNoExt num = Ok t ->
  exists k,
    t = candidate ch fileNoExt (Nat.iter k GoInt.incr num)
    /\ free ch rp t
    /\ forall k', (k' < k)%nat ->
                  ~ free ch rp (candidate ch fileNoExt (Nat.iter k' GoInt.incr num)).
Proof.
  induction fuel as [|fuel IH]; intros ch rp f num t H; simpl in H; [discriminate|].
  destruct (statNotExist _ _ && _) eqn:E.
  - injection H as <-. exists 0%nat. split; [reflexivity|].
    split; [apply free_iff; exact E|]. intros k' Hk. lia.
  - apply IH in H as (k & Ht & Hfree & Hfirst).
    exists (S k). rewrite Nat.iter_succ_r. split; [exact Ht|]. split; [exact Hfree|].
    intros [|k'] Hk.
    + simpl. intros Hf. apply free_iff in Hf. congruence.
    + rewrite Nat.iter_succ_r. apply Hfirst. lia.
Qed.

Lemma newTarget_first fuel c0 c rp t :
  sameSlot c0 c ->
  newTarget fuel c rp = Ok t ->
  exists k, t = renumbered c0 k /\ free c0 rp t
            /\ forall k', (k' < k)%nat -> ~ free c0 rp (renumbered c0 k').
Proof.
  intros [Hb Ht] H. unfold newTarget in H. unfold renumbered.
  rewrite Ht in H. destruct (newTargetStart _) as [f num].
  apply newTargetLoop_first in H as (k & Hk & Hfree & Hfirst).
  unfold candidate, free in *. rewrite Ht, Hb in *.
  exists k. auto.
Qed.

Lemma free_insert c0 rp pt x t :
  free c0 (<[pt := x]> rp) t -> free c0 rp t.
Proof.
  intros [Hs Hl]. split; [exact Hs|].
  apply lookup_insert_None in Hl. apply Hl.
Qed.

Lemma fixOverwriting_spec c0 fuel : forall items o rp lo o' rp',
  fixOverwriting fuel items o rp = Ok (o', rp') ->
  NoDup (map sourceIndex items) ->
  Forall (fun it => exists c, matches o !! sourceIndex it = Some c /\ sameSlot c0 c)
         items ->
  (forall k, (k < lo)%nat -> ~ free c0 rp (renumbered c0 k)) ->
  exists ks,
    increasingFrom lo ks
    /\ Forall2 (fun it k =>
                  exists c,
                    matches o !! sourceIndex it = Some c
                    /\ matches o' !! sourceIndex it
                       = Some (setStatus statusOK (setTarget (renumbered c0 k) c))
                    /\ free c0 rp (renumbered c0 k))
               items ks
    /\ (forall j, j ∉ map sourceIndex items -> matches o' !! j = matches o !! j).
Proof.
  induction fuel as [|fuel IH]; intros items o rp lo o' rp' H Hnd Hall Hlo;
    simpl in H; [discriminate|].
  destruct items as [|item rest].
  { injection H as <- <-. exists []. split; [exact I|]. split; [constructor|]. auto. }
  inversion Hall as [|? ? (c & Hc & Hslot) Hrest]; subst.
  inversion Hnd as [|? ? Hnotin Hnd']; subst.
  rewrite Hc in H.
  apply rbind_Ok in H as (t & Ht & H).
  destruct (newTarget_first _ c0 c rp t Hslot Ht) as (k & -> & Hfree & Hfirst).
  assert (lo <= k)%nat as Hlok.
  { destruct (le_lt_dec lo k) as [|Hlt]; [assumption|].
    exfalso. exact (Hlo k Hlt Hfree). }
  rewrite (setMatch_Some _ _ _ _ Hc) in H. cbn [rbind] in H.
  erewrite setMatch_Some in H
    by (simpl; apply list_lookup_insert_eq; eapply lookup_lt_Some; exact Hc).
  cbn [rbind] in H. simpl matches in H. rewrite list_insert_insert_eq in H.
  destruct Hslot as [Hb Htg].
  assert (rp !! filepath_Join [BaseDir c; renumbered c0 k] = None) as Hnone.
  { rewrite Hb. apply Hfree. }
  rewrite Hnone in H.
  apply IH with (lo := S k) in H as (ks & Hinc & Hf2 & Hframe).
  - exists (k :: ks). split; [split; assumption|]. split.
    + constructor.
      * exists c. split; [exact Hc|]. split; [|exact Hfree].
        rewrite Hframe by exact Hnotin. simpl.
        rewrite list_lookup_insert_eq by (eapply lookup_lt_Some; exact Hc).
        reflexivity.
      * clear - Hf2 Hnotin.
        induction Hf2 as [|it k' rest' ks' (c' & Hc' & Ho' & Hfree') Hf2 IHf];
          constructor.
        -- exists c'. split; [|split; [exact Ho'|eapply free_insert; exact Hfree']].
           rewrite <- Hc'. simpl. symmetry. apply list_lookup_insert_ne.
           intros Heq. apply Hnotin. simpl. rewrite Heq. apply elem_of_cons. auto.
        -- apply IHf. intros Hin. apply Hnotin. simpl. apply elem_of_cons. auto.
    + intros j Hj. simpl in Hj. apply not_elem_of_cons in Hj as [Hne Hj].
      rewrite Hframe by exact Hj. simpl.
      apply list_lookup_insert_ne. congruence.
  - exact Hnd'.
  - clear - Hrest Hnotin. induction Hrest as [|it rest' (c' & Hc' & Hs') Hrest IHr];
      constructor.
    + exists c'. split; [|exact Hs']. rewrite <- Hc'. simpl.
      apply list_lookup_insert_ne.
      intros Heq. apply Hnotin. simpl. rewrite Heq. apply elem_of_cons. auto.
    + apply IHr. intros Hin. apply Hnotin. simpl. apply elem_of_cons. auto.
  - intros k' Hk' Hf. destruct (decide (k' = k)) as [->|Hne].
    + destruct Hf as [_ Hl]. rewrite <- Hb in Hl. rewrite lookup_insert_eq in Hl.
      discriminate.
    + apply free_insert in Hf. apply (Hfirst k'); [lia|exact Hf].
Qed.

Lemma markOverwriting_lookup source : forall o o',
  markOverwriting source o = Ok o' ->
  forall j,
    matches o' !! j
    = if bool_decide (j ∈ map sourceIndex source)
      then setStatus statusOverwritingNewPath <$> matches o !! j
      else matches o !! j.
Proof.
  induction source as [|s source IH]; intros o o' H j; simpl in H.
  - injection H as <-. reflexivity.
  - apply rbind_Ok in H as (o1 & H1 & H).
    apply setMatch_Ok_inv in H1 as (c & Hc & ->).
    rewrite (IH _ _ H j). simpl.
    destruct (decide (j = sourceIndex s)) as [->|Hne].
    + rewrite list_lookup_insert_eq by (eapply lookup_lt_Some; exact Hc).
      rewrite Hc. rewrite (bool_decide_eq_true_2 (_ ∈ _ :: _)) by (apply elem_of_cons; auto).
      destruct (bool_decide _); reflexivity.
    + rewrite list_lookup_insert_ne by congruence.
      destruct (bool_decide (j ∈ map sourceIndex source)) eqn:E.
      * apply bool_decide_eq_true_1 in E.
        rewrite bool_decide_eq_true_2 by (apply elem_of_cons; auto). reflexivity.
      * apply bool_decide_eq_false_1 in E.
        rewrite bool_decide_eq_false_2; [reflexivity|].
        intros Hin. apply elem_of_cons in Hin as [?|?]; [congruence|contradiction].
Qed.

(** The auto-fix of one contested path. *)
Lemma overwritingAt_fix_spec fuel targetPath o rp o' rp' s0 rest c0 :
  rp !! targetPath = Some (s0 :: rest) ->
  rest <> [] ->
  fixConflicts o = true ->
  NoDup (map sourceIndex (s0 :: rest)) ->
  matches o !! sourceIndex s0 = Some c0 ->
  Forall (fun it => exists c, matches o !! sourceIndex it = Some c /\ sameSlot c0 c)
         rest ->
  overwritingAt fuel targetPath o rp = Ok (o', rp') ->
  (exists c0', matches o' !! sourceIndex s0 = Some c0' /\ Target c0' = Target c0)
  /\ exists ks,
       increasingFrom 0 ks
       /\ Forall2 (fun it k =>
                     exists c,
                       matches o !! sourceIndex it = Some c
                       /\ matches o' !! sourceIndex it
                          = Some (setStatus statusOK (setTarget (renumbered c0 k) c))
                       /\ free c0 rp (renumbered c0 k))
                  rest ks.
Proof.
  intros Hrp Hne Hfix Hnd Hc0 Hall H.
  unfold overwritingAt in H. rewrite Hrp in H.
  change (default [] (Some (s0 :: rest))) with (s0 :: rest) in H.
  assert ((1 <? length (s0 :: rest))%nat = true) as Hlen
      by (destruct rest; [congruence|reflexivity]).
  rewrite Hlen in H.
  apply rbind_Ok in H as (o1 & Hmark & H).
  pose proof (markOverwriting_lookup _ _ _ Hmark) as Hlk.
  pose proof (frame_markOverwriting _ _ _ Hmark) as Hfr.
  change (fixConflicts (addConflict _ _ o1)) with (fixConflicts o1) in H.
  rewrite <- (opFrame_fixConflicts _ _ Hfr), Hfix in H. cbn [tl] in H.
  inversion Hnd as [|? ? Hnotin Hnd']; subst.
  apply fixOverwriting_spec with (c0 := c0) (lo := 0%nat) in H
      as (ks & Hinc & Hf2 & Hframe).
  - split.
    + exists (setStatus statusOverwritingNewPath c0). split; [|reflexivity].
      rewrite Hframe by exact Hnotin.
      change (matches (addConflict _ _ o1)) with (matches o1).
      rewrite Hlk, Hc0.
      rewrite bool_decide_eq_true_2 by (apply elem_of_cons; auto). reflexivity.
    + exists ks. split; [exact Hinc|].
      clear - Hf2 Hlk Hall. revert Hall.
      induction Hf2 as [|it k l ks' (c & Hc & Ho' & Hfree) Hf2 IHf];
        intros Hall; constructor.
      * change (matches (addConflict _ _ o1)) with (matches o1) in Hc.
        rewrite Hlk in Hc.
        inversion Hall as [|? ? (c1 & Hc1 & Hs1) Hrest]; subst.
        rewrite Hc1 in Hc. exists c1. split; [exact Hc1|]. split; [|exact Hfree].
        rewrite Ho'. destruct (bool_decide _); simpl in Hc; injection Hc as <-;
          reflexivity.
      * apply IHf. inversion Hall; assumption.
  - exact Hnd'.
  - change (matches (addConflict _ _ o1)) with (matches o1).
    eapply Forall_impl; [exact Hall|].
    intros it (c & Hc & Hs). rewrite Hlk, Hc.
    destruct (bool_decide _); simpl; eexists; (split; [reflexivity|exact Hs]).
  - intros k Hk. lia.
Qed.

End OverwriteFix.

(** *** The per-item pass records the contributors in index order *)

Definition rpSorted (i : nat) (rp : renamedMap) : Prop :=
  forall k l, rp !! k = Some l ->
              StronglySorted lt (map sourceIndex l)
              /\ Forall (fun r => sourceIndex r < i)%nat l.

Lemma rpSorted_empty : rpSorted 0 ∅.
Proof. intros k l H. rewrite lookup_empty in H. discriminate. Qed.

Lemma rpSorted_weaken i rp : rpSorted i rp -> rpSorted (S i) rp.
Proof.
  intros H k l Hl. destruct (H k l Hl) as [Hs Hf]. split; [exact Hs|].
  eapply Forall_impl; [exact Hf|]. simpl. lia.
Qed.

Lemma StronglySorted_snoc (l : list nat) (x : nat) :
  StronglySorted lt l -> Forall (fun y => y < x)%nat l -> StronglySorted lt (l ++ [x]).
Proof.
  induction 1 as [|a l Hs IH Ha]; intros Hall; simpl.
  - repeat constructor.
  - inversion Hall; subst. constructor; [apply IH; assumption|].
    apply Forall_app. split; [exact Ha|]. constructor; [assumption|constructor].
Qed.

Lemma rpSorted_claim i tp sp rp : rpSorted i rp -> rpSorted (S i) (claim tp sp i rp).
Proof.
  intros H k l Hl. unfold claim in Hl.
  destruct (decide (tp = k)) as [->|Hne].
  - rewrite lookup_insert_eq in Hl. injection Hl as <-.
    destruct (rp !! k) as [l0|] eqn:E; simpl.
    + destruct (H k l0 E) as [Hs Hf]. split.
      * rewrite map_app. apply StronglySorted_snoc; [exact Hs|].
        apply Forall_map. exact Hf.
      * apply Forall_app. split.
        -- eapply Forall_impl; [exact Hf|]. simpl. lia.
        -- repeat constructor.
    + split; repeat constructor.
  - rewrite lookup_insert_ne in Hl by assumption. apply rpSorted_weaken in H.
    exact (H k l Hl).
Qed.

Section Sorted.

Variable GOOS : platform.
Variable filepath_Base : string -> string.
Variable filepath_Ext : string -> string.
Variable filepath_Dir : string -> string.
Variable filepath_Join : list string -> string.
Variable strings_EqualFold : string -> string -> bool.
Variable os_Stat : string -> option statError.

Lemma detectLoop_sorted fuel : forall i o rp o' rp',
  detectLoop GOOS filepath_Base filepath_Ext filepath_Dir filepath_Join
             strings_EqualFold os_Stat fuel i o rp = Ok (o', rp') ->
  rpSorted i rp -> exists n, rpSorted n rp'.
Proof.
  induction fuel as [|fuel IH]; intros i o rp o' rp' H Hs; simpl in H; [discriminate|].
  destruct (matches o !! i) as [ch|]; [|injection H as <- <-; eauto].
  destruct (String.eqb (Target ch) "." || String.eqb (Target ch) "").
  - apply rbind_Ok in H as (o1 & _ & H). apply rbind_Ok in H as (o2 & _ & H).
    eapply IH; [exact H|]. apply rpSorted_weaken. exact Hs.
  - apply rbind_Ok in H as ([d1 o1] & _ & H).
    destruct (d1 && fixConflicts o1); [eapply IH; eassumption|].
    apply rbind_Ok in H as ([d2 o2] & _ & H).
    destruct (d2 && fixConflicts o2); [eapply IH; eassumption|].
    apply rbind_Ok in H as ([d3 o3] & _ & H).
    destruct (d3 && fixConflicts o3); [eapply IH; eassumption|].
    apply rbind_Ok in H as ([d4 o4] & _ & H).
    destruct (d4 && fixConflicts o4); [eapply IH; eassumption|].
    eapply IH; [exact H|]. apply rpSorted_claim. exact Hs.
Qed.

End Sorted.

(** C5.  In [checkOverwritingPathConflict] under auto-fix, for a path
    claimed by the changes [s0 :: rest] (all asking for the same target
    in the same directory): the first contributor keeps its target; the
    later ones get, in the order they were recorded, the targets
    rendered for strictly increasing counters, each of which was neither
    on the filesystem nor a key of [renamedPaths].  The per-item pass
    records the contributors of a path in strictly increasing index
    order, so the first one is the earliest of the list.  With [123.txt]
    and [123 (3).txt] existing, two sources renamed to [123.txt] end as
    [123 (2).txt] and [123 (4).txt], in list order. *)
Theorem C5_overwriting_fix_in_list_order :
  (forall filepath_Base filepath_Ext filepath_Dir filepath_Join os_Stat
          fuel targetPath o (rp : renamedMap) o' rp' s0 rest c0,
      rp !! targetPath = Some (s0 :: rest) ->
      rest <> [] ->
      fixConflicts o = true ->
      NoDup (map sourceIndex (s0 :: rest)) ->
      matches o !! sourceIndex s0 = Some c0 ->
      Forall (fun it => exists c, matches o !! sourceIndex it = Some c /\ sameSlot c0 c)
             rest ->
      overwritingAt filepath_Base filepath_Ext filepath_Dir filepath_Join os_Stat
                    fuel targetPath o rp = Ok (o', rp') ->
      (exists c0', matches o' !! sourceIndex s0 = Some c0' /\ Target c0' = Target c0)
      /\ exists ks,
           increasingFrom 0 ks
           /\ Forall2
                (fun it k =>
                   exists c,
                     matches o !! sourceIndex it = Some c
                     /\ matches o' !! sourceIndex it
                        = Some (setStatus statusOK
                                  (setTarget (renumbered filepath_Base filepath_Ext
                                                filepath_Dir filepath_Join c0 k) c))
                     /\ free filepath_Join os_Stat c0 rp
                             (renumbered filepath_Base filepath_Ext filepath_Dir
                                         filepath_Join c0 k))
                rest ks)
  /\ (forall GOOS filepath_Base filepath_Ext filepath_Dir filepath_Join
             strings_EqualFold os_Stat fuel o o1 (rp1 : renamedMap) targetPath l,
         detectLoop GOOS filepath_Base filepath_Ext filepath_Dir filepath_Join
                    strings_EqualFold os_Stat fuel 0 o ∅ = Ok (o1, rp1) ->
         rp1 !! targetPath = Some l ->
         StronglySorted lt (map sourceIndex l))
  /\ (exists o',
         Linux.detectConflicts conflictsDir 20
           (operation [change "conflicts" "abc.txt" "123.txt";
                       change "conflicts" "xyz.txt" "123.txt"] true) = Ok o'
         /\ map Target (matches o') = ["123 (2).txt"; "123 (4).txt"]).
Proof.
  split; [|split].
  - intros. eapply overwritingAt_fix_spec; eassumption.
  - intros GOOS B E D J F S fuel o o1 rp1 tp l H Hl.
    apply detectLoop_sorted in H as [n Hn]; [|apply rpSorted_empty].
    apply (Hn tp l Hl).
  - eexists. split; vm_compute; reflexivity.
Qed.

(** The state after the per-item pass on the auto-fix test directory. *)
Definition afterPass : result (Operation * renamedMap) :=
  Eval vm_compute in
    Linux.detectLoop conflictsDir 10 0
      (withConflicts ∅ (operation [change "conflicts" "abc.txt" "123.txt";
                                   change "conflicts" "xyz.txt" "123.txt"] true)) ∅.

Definition afterPassOp : Operation :=
  match afterPass with Ok (o, _) => o | _ => operation [] true end.

Definition afterPassPaths : renamedMap :=
  match afterPass with Ok (_, rp) => rp | _ => ∅ end.

Definition abcFixed : Change :=
  setStatus statusOK (change "conflicts" "abc.txt" "123 (2).txt").

Lemma C5_witness :
  afterPassPaths !! "conflicts/123 (2).txt"
  = Some [mkRenamed "conflicts/abc.txt" 0; mkRenamed "conflicts/xyz.txt" 1]
  /\ exists o' rp',
       overwritingAt Filepath.Unix.Base Filepath.Unix.Ext Filepath.Unix.Dir
                     Filepath.Unix.Join (Linux.Stat conflictsDir) 10
                     "conflicts/123 (2).txt" afterPassOp afterPassPaths
       = Ok (o', rp')
       /\ map Target (matches o') = ["123 (2).txt"; "123 (4).txt"]
       /\ exists ks,
            increasingFrom 0 ks
            /\ Forall2
                 (fun it k =>
                    exists c,
                      matches afterPassOp !! sourceIndex it = Some c
                      /\ matches o' !! sourceIndex it
                         = Some (setStatus statusOK
                                   (setTarget
                                      (renumbered Filepath.Unix.Base Filepath.Unix.Ext
                                         Filepath.Unix.Dir Filepath.Unix.Join
                                         abcFixed k)
                                      c))
                      /\ free Filepath.Unix.Join (Linux.Stat conflictsDir)
                              abcFixed afterPassPaths
                              (renumbered Filepath.Unix.Base Filepath.Unix.Ext
                                 Filepath.Unix.Dir Filepath.Unix.Join
                                 abcFixed k))
                 [mkRenamed "conflicts/xyz.txt" 1] ks.
Proof.
  split; [vm_compute; reflexivity|].
  eexists. eexists. split; [vm_compute; reflexivity|].
  split; [vm_compute; reflexivity|].
  refine (proj2 (proj1 C5_overwriting_fix_in_list_order
            Filepath.Unix.Base Filepath.Unix.Ext Filepath.Unix.Dir Filepath.Unix.Join
            (Linux.Stat conflictsDir) 10 "conflicts/123 (2).txt"
            afterPassOp afterPassPaths _ _
            (mkRenamed "conflicts/abc.txt" 0) [mkRenamed "conflicts/xyz.txt" 1]
            abcFixed
            _ _ _ _ _ _ _)).
  - vm_compute. reflexivity.
  - discriminate.
  - reflexivity.
  - compute_done.
  - vm_compute. reflexivity.
  - constructor; [|constructor]. eexists. split; [vm_compute; reflexivity|].
    split; reflexivity.
  - vm_compute. reflexivity.
Defined.

Local Open Scope Z_scope.

(** * Further properties of the code *)

(** ** Targets are rewritten by auto-fix only, and only after a conflict *)

Definition targetsOf (o : Operation) : list string := map Target (matches o).

Lemma targetsOf_insert i f o ch :
  matches o !! i = Some ch -> Target (f ch) = Target ch ->
  targetsOf (withMatches (<[i := f ch]> (matches o)) o) = targetsOf o.
Proof.
  intros Hch Hf. unfold targetsOf. simpl.
  rewrite list_fmap_insert, Hf. apply list_insert_id.
  rewrite list_lookup_fmap, Hch. reflexivity.
Qed.

Lemma targetsOf_setStatus i s o o' :
  setMatch i (setStatus s) o = Ok o' -> targetsOf o' = targetsOf o.
Proof.
  intros H. apply setMatch_Ok_inv in H as (ch & Hch & ->).
  apply targetsOf_insert; [exact Hch|reflexivity].
Qed.

Lemma targetsOf_setWillOverwrite i b o o' :
  setMatch i (setWillOverwrite b) o = Ok o' -> targetsOf o' = targetsOf o.
Proof.
  intros H. apply setMatch_Ok_inv in H as (ch & Hch & ->).
  apply targetsOf_insert; [exact Hch|reflexivity].
Qed.

Lemma fixConflicts_setMatch i f o o' :
  setMatch i f o = Ok o' -> fixConflicts o' = fixConflicts o.
Proof. intros H. apply setMatch_Ok_inv in H as (ch & _ & ->). reflexivity. Qed.

(** Invert a chain of binds ending in [Ok], keeping for every
    [setMatch] what it does to the targets and to the auto-fix flag. *)
Ltac targets_step :=
  match goal with
  | H : rbind _ _ = Ok _ |- _ =>
      apply rbind_Ok in H; destruct H as (? & ? & H)
  | H : setMatch _ (setStatus _) _ = Ok _ |- _ =>
      pose proof (fixConflicts_setMatch _ _ _ _ H); apply targetsOf_setStatus in H
  | H : setMatch _ (setWillOverwrite _) _ = Ok _ |- _ =>
      pose proof (fixConflicts_setMatch _ _ _ _ H); apply targetsOf_setWillOverwrite in H
  | H : Ok _ = Ok _ |- _ => inversion H; subst; clear H
  | H : (if ?b then _ else _) = Ok _ |- _ => destruct b eqn:?
  | H : match ?x with Some _ => _ | None => _ end = Ok _ |- _ => destruct x eqn:?
  | H : Panic = Ok _ |- _ => discriminate H
  | H : OutOfFuel = Ok _ |- _ => discriminate H
  end.

Section Targets.

Variable GOOS : platform.
Variable filepath_Base : string -> string.
Variable filepath_Ext : string -> string.
Variable filepath_Dir : string -> string.
Variable filepath_Join : list string -> string.
Variable strings_EqualFold : string -> string -> bool.
Variable os_Stat : string -> option statError.
Variable rangeKeys : renamedMap -> list string.

Lemma targets_checkTrailingPeriodConflict sp t tp i o d o' :
  checkTrailingPeriodConflict GOOS sp t tp i o = Ok (d, o') ->
  d && fixConflicts o = false -> targetsOf o' = targetsOf o.
Proof.
  unfold checkTrailingPeriodConflict. intros H Hd.
  repeat targets_step; unfold targetsOf in *; simpl in *; congruence.
Qed.

Lemma targets_checkPathLengthConflict fuel sp t tp i o d o' :
  checkPathLengthConflict GOOS filepath_Base filepath_Ext filepath_Join
                          fuel sp t tp i o = Ok (d, o') ->
  d && fixConflicts o = false -> targetsOf o' = targetsOf o.
Proof.
  unfold checkPathLengthConflict. intros H Hd.
  repeat targets_step; unfold targetsOf in *; simpl in *; congruence.
Qed.

Lemma targets_checkForbiddenCharactersConflict sp t tp i o d o' :
  checkForbiddenCharactersConflict GOOS sp t tp i o = Ok (d, o') ->
  d && fixConflicts o = false -> targetsOf o' = targetsOf o.
Proof.
  unfold checkForbiddenCharactersConflict. intros H Hd.
  repeat targets_step; unfold targetsOf in *; simpl in *; congruence.
Qed.

Lemma targets_checkPathExistsConflict fuel sp tp ch i o d o' :
  checkPathExistsConflict filepath_Base filepath_Ext filepath_Dir filepath_Join
                          strings_EqualFold os_Stat fuel sp tp ch i o = Ok (d, o') ->
  d && fixConflicts o = false -> targetsOf o' = targetsOf o.
Proof.
  unfold checkPathExistsConflict. intros H Hd.
  repeat targets_step; unfold targetsOf in *; simpl in *; congruence.
Qed.

(** No conflict of any kind is recorded. *)
Definition noConflict (o : Operation) : Prop := forall k, conflictsAt o k = [].

Lemma kept_empty o1 o' k c :
  c ∈ conflictsAt o1 k -> conflictsKept o1 o' -> noConflict o' -> False.
Proof.
  intros Hc Hk He. apply (conflictsKept_nonempty _ _ _ _ Hk) in Hc.
  rewrite He in Hc. inversion Hc.
Qed.

Lemma recorded_elem o o1 k c :
  conflicts o1 = conflicts (addConflict k c o) -> c ∈ conflictsAt o1 k.
Proof.
  intros H. unfold conflictsAt. rewrite H. unfold addConflict. simpl.
  rewrite lookup_insert_eq. simpl. apply elem_of_app. right. constructor.
Qed.

Local Abbreviation detectLoop :=
  (detectLoop GOOS filepath_Base filepath_Ext filepath_Dir filepath_Join
              strings_EqualFold os_Stat).

Lemma targets_detectLoop fuel : forall i o rp o' rp',
  detectLoop fuel i o rp = Ok (o', rp') ->
  fixConflicts o = false \/ noConflict o' ->
  targetsOf o' = targetsOf o.
Proof.
  induction fuel as [|fuel IH]; intros i o rp o' rp' H Hq; simpl in H;
    [discriminate|].
  destruct (matches o !! i) as [ch|] eqn:Hch; [|inversion H; subst; reflexivity].
  destruct (String.eqb (Target ch) "." || String.eqb (Target ch) "").
  - apply rbind_Ok in H as (o1 & H1 & H).
    apply rbind_Ok in H as (o2 & H2 & H).
    pose proof (kept_detectLoop _ _ _ _ _ _ _ _ _ _ _ _ _ H) as K.
    pose proof (setMatch_conflicts _ _ _ _ H1) as C1.
    pose proof (fixConflicts_setMatch _ _ _ _ H1) as X1. simpl in X1.
    apply targetsOf_setStatus in H1.
    destruct (fixConflicts o1) eqn:Hf.
    + exfalso. destruct Hq as [Hq|Hq]; [congruence|].
      apply rbind_Ok in H2 as (o3 & H3 & H2).
      apply setMatch_conflicts in H3, H2.
      eapply (kept_empty o2 o' emptyFilename); [|exact K|exact Hq].
      eapply (recorded_elem o). rewrite H2, H3, C1. reflexivity.
    + inversion H2; subst o2.
      rewrite (IH _ _ _ _ _ H), H1; [reflexivity|].
      destruct Hq as [Hq|Hq]; [left; congruence|right; exact Hq].
  - set (sp := filepath_Join [BaseDir ch; Source ch]) in *.
    set (tp := filepath_Join [BaseDir ch; Target ch]) in *.
    apply rbind_Ok in H as ([d1 o1] & H1 & H).
    pose proof (opFrame_fixConflicts _ _ (frame_checkTrailingPeriodConflict _ _ _ _ _ _ _ _ H1)) as X1.
    destruct (d1 && fixConflicts o1) eqn:E1.
    { exfalso. apply andb_true_iff in E1 as [-> E1].
      destruct Hq as [Hq|Hq]; [congruence|].
      apply recorded_checkTrailingPeriodConflict in H1.
      eapply (kept_empty o1 o'); [eapply recorded_elem; exact H1| |exact Hq].
      eapply kept_detectLoop; exact H. }
    rewrite <- X1 in E1.
    pose proof (targets_checkTrailingPeriodConflict _ _ _ _ _ _ _ H1 E1) as T1.
    apply rbind_Ok in H as ([d2 o2] & H2 & H).
    pose proof (opFrame_fixConflicts _ _ (frame_checkPathLengthConflict _ _ _ _ _ _ _ _ _ _ _ _ H2)) as X2.
    destruct (d2 && fixConflicts o2) eqn:E2.
    { exfalso. apply andb_true_iff in E2 as [-> E2].
      destruct Hq as [Hq|Hq]; [congruence|].
      apply recorded_checkPathLengthConflict in H2 as (cause & _ & H2).
      eapply (kept_empty o2 o'); [eapply recorded_elem; exact H2| |exact Hq].
      eapply kept_detectLoop; exact H. }
    rewrite <- X2 in E2.
    pose proof (targets_checkPathLengthConflict _ _ _ _ _ _ _ _ H2 E2) as T2.
    apply rbind_Ok in H as ([d3 o3] & H3 & H).
    pose proof (opFrame_fixConflicts _ _ (frame_checkForbiddenCharactersConflict _ _ _ _ _ _ _ _ H3)) as X3.
    destruct (d3 && fixConflicts o3) eqn:E3.
    { exfalso. apply andb_true_iff in E3 as [-> E3].
      destruct Hq as [Hq|Hq]; [congruence|].
      apply recorded_checkForbiddenCharactersConflict in H3 as (cause & _ & H3).
      eapply (kept_empty o3 o'); [eapply recorded_elem; exact H3| |exact Hq].
      eapply kept_detectLoop; exact H. }
    rewrite <- X3 in E3.
    pose proof (targets_checkForbiddenCharactersConflict _ _ _ _ _ _ _ H3 E3) as T3.
    apply rbind_Ok in H as ([d4 o4] & H4 & H).
    pose proof (opFrame_fixConflicts _ _ (frame_checkPathExistsConflict _ _ _ _ _ _ _ _ _ _ _ _ _ _ H4)) as X4.
    destruct (d4 && fixConflicts o4) eqn:E4.
    { exfalso. apply andb_true_iff in E4 as [-> E4].
      destruct Hq as [Hq|Hq]; [congruence|].
      apply recorded_checkPathExistsConflict in H4.
      eapply (kept_empty o4 o'); [eapply recorded_elem; exact H4| |exact Hq].
      eapply kept_detectLoop; exact H. }
    rewrite <- X4 in E4.
    pose proof (targets_checkPathExistsConflict _ _ _ _ _ _ _ _ H4 E4) as T4.
    rewrite (IH _ _ _ _ _ H); [congruence|].
    destruct Hq as [Hq|Hq]; [left; congruence|right; exact Hq].
Qed.

Lemma targets_markOverwriting source : forall o o',
  markOverwriting source o = Ok o' -> targetsOf o' = targetsOf o.
Proof.
  induction source as [|s source IH]; intros o o' H; simpl in H.
  - inversion H; reflexivity.
  - apply rbind_Ok in H as (o1 & H1 & H). apply targetsOf_setStatus in H1.
    rewrite (IH _ _ H). exact H1.
Qed.

Lemma kept_fixOverwriting fuel source o rp o' rp' :
  fixOverwriting filepath_Base filepath_Ext filepath_Dir filepath_Join os_Stat
                 fuel source o rp = Ok (o', rp') ->
  conflictsKept o o'.
Proof.
  intros H.
  eapply (pres_fixOverwriting filepath_Base filepath_Ext filepath_Dir filepath_Join
            os_Stat conflictsKept conflictsKept_refl conflictsKept_trans
            conflictsKept_addConflict);
    [intros ? ? ? ?; apply conflictsKept_setMatch
    |intros ? ? ? ?; apply conflictsKept_setMatch
    |intros ? ? ? ?; apply conflictsKept_setMatch
    |exact H].
Qed.

Lemma targets_overwritingLoop fuel keys : forall o rp o' rp',
  overwritingLoop filepath_Base filepath_Ext filepath_Dir filepath_Join os_Stat
                  fuel keys o rp = Ok (o', rp') ->
  fixConflicts o = false \/ noConflict o' ->
  targetsOf o' = targetsOf o.
Proof.
  induction keys as [|k keys IH]; intros o rp o' rp' H Hq; simpl in H;
    [inversion H; reflexivity|].
  apply rbind_Ok in H as ([oa rpa] & Ha & H).
  pose proof (kept_overwritingLoop _ _ _ _ _ _ _ _ _ _ _ H) as K.
  unfold overwritingAt in Ha.
  destruct (1 <? length _)%nat.
  - apply rbind_Ok in Ha as (o1 & H1 & Ha).
    pose proof (opFrame_fixConflicts _ _ (frame_markOverwriting _ _ _ H1)) as X1.
    apply targets_markOverwriting in H1.
    simpl in Ha. destruct (fixConflicts o1) eqn:Hf.
    + exfalso. destruct Hq as [Hq|Hq]; [congruence|].
      apply kept_fixOverwriting in Ha.
      eapply (kept_empty _ o' overwritingNewPath);
        [|eapply conflictsKept_trans; [exact Ha|exact K]|exact Hq].
      rewrite conflictsAt_addConflict. apply elem_of_app. right. constructor.
    + inversion Ha; subst oa rpa.
      rewrite (IH _ _ _ _ H); [exact H1|].
      destruct Hq as [Hq|Hq]; [left; simpl; congruence|right; exact Hq].
  - inversion Ha; subst oa rpa. apply (IH _ _ _ _ H Hq).
Qed.

End Targets.

(** X1.  [detectConflicts] rewrites a target only under auto-fix and
    only after recording a conflict: with auto-fix off, or when no
    conflict is recorded at the end, every change has the target it
    came with. *)
Theorem detectConflicts_keeps_targets
        GOOS filepath_Base filepath_Ext filepath_Dir filepath_Join
        strings_EqualFold os_Stat rangeKeys fuel o o' :
  detectConflicts GOOS filepath_Base filepath_Ext filepath_Dir filepath_Join
                  strings_EqualFold os_Stat rangeKeys fuel o = Ok o' ->
  fixConflicts o = false \/ conflicts o' = ∅ ->
  map Target (matches o') = map Target (matches o).
Proof.
  unfold detectConflicts, checkOverwritingPathConflict. intros H Hq.
  apply rbind_Ok in H as ([o1 rp1] & H1 & H).
  apply rbind_Ok in H as ([o2 rp2] & H2 & H). inversion H; subst o2. clear H.
  assert (fixConflicts o = false \/ noConflict o') as Hq'.
  { destruct Hq as [Hq|Hq]; [left; exact Hq|right].
    intros k. unfold conflictsAt. rewrite Hq, lookup_empty. reflexivity. }
  pose proof (kept_overwritingLoop _ _ _ _ _ _ _ _ _ _ _ H2) as K2.
  pose proof (opFrame_fixConflicts _ _ (frame_detectLoop _ _ _ _ _ _ _ _ _ _ _ _ _ H1))
    as X1. simpl in X1.
  change (targetsOf o' = targetsOf o).
  rewrite (targets_overwritingLoop _ _ _ _ _ _ _ _ _ _ _ H2).
  - rewrite (targets_detectLoop _ _ _ _ _ _ _ _ _ _ _ _ _ H1); [reflexivity|].
    destruct Hq' as [Hq'|Hq']; [left; exact Hq'|right].
    intros k. specialize (K2 k). rewrite Hq' in K2.
    apply prefix_nil_inv in K2. exact K2.
  - destruct Hq' as [Hq'|Hq']; [left; congruence|right; exact Hq'].
Qed.

Lemma detectConflicts_keeps_targets_witness :
  exists o',
    Linux.detectConflicts ["d/a.txt"; "d/b.txt"] 5
                          (operation [change "d" "a.txt" "b.txt"] false) = Ok o'
    /\ conflicts o' <> ∅
    /\ map Target (matches o') = ["b.txt"].
Proof.
  eexists. split; [vm_compute; reflexivity|]. split.
  - intros H. apply (f_equal (fun m => m !! fileExists)) in H. vm_compute in H.
    discriminate.
  - apply (detectConflicts_keeps_targets
             Linux Filepath.Unix.Base Filepath.Unix.Ext Filepath.Unix.Dir
             Filepath.Unix.Join Linux.EqualFold (Linux.Stat ["d/a.txt"; "d/b.txt"])
             Linux.rangeKeys 5 (operation [change "d" "a.txt" "b.txt"] false)).
    + vm_compute. reflexivity.
    + left. reflexivity.
Defined.

(** ** Forbidden characters *)

Lemma filter_forbidden_none l :
  filter (fun c => windowsForbidden c = true)
         (filter (fun c => windowsForbidden c = false) l) = [].
Proof.
  induction l as [|c l IH]; [reflexivity|].
  rewrite (filter_cons (fun c => windowsForbidden c = false)).
  destruct (decide (windowsForbidden c = false)) as [Hc|Hc]; [|exact IH].
  rewrite filter_cons. destruct (decide (windowsForbidden c = true)); [congruence|exact IH].
Qed.

Lemma filter_forbidden_nil l :
  filter (fun c => windowsForbidden c = true) l = []
  <-> Forall (fun c => windowsForbidden c = false) l.
Proof.
  induction l as [|c l IH]; [split; [constructor|reflexivity]|].
  rewrite filter_cons. destruct (decide (windowsForbidden c = true)) as [Hc|Hc].
  - split; [discriminate|]. intros H. apply Forall_inv in H. congruence.
  - rewrite IH. split.
    + intros H. constructor; [destruct (windowsForbidden c); congruence|exact H].
    + intros H. eapply Forall_inv_tail. exact H.
Qed.

Lemma containsByte_removeByte c s :
  GoString.containsByte c (GoString.removeByte c s) = false.
Proof.
  induction s as [|d s IH]; [reflexivity|]. simpl.
  destruct (Ascii.eqb c d) eqn:E; [exact IH|]. simpl. rewrite E, IH. reflexivity.
Qed.

(** X2.  [checkForbiddenCharacters] passes a name exactly when, on
    Windows, none of its bytes is one of the seven forbidden ones, on
    macOS, it has no colon, and always elsewhere; and the auto-fix of
    [checkForbiddenCharactersConflict] leaves a target that passes,
    with status ok. *)
Theorem forbidden_characters_fix_effective GOOS :
  (forall path,
      checkForbiddenCharacters GOOS path = None
      <-> match GOOS with
          | Windows => Forall (fun c => windowsForbidden c = false)
                              (list_ascii_of_string path)
          | Darwin => GoString.containsByte ":"%char path = false
          | Linux => True
          end)
  /\ (forall sp t tp i o o',
         fixConflicts o = true ->
         checkForbiddenCharactersConflict GOOS sp t tp i o = Ok (true, o') ->
         exists ch',
           matches o' !! i = Some ch'
           /\ status ch' = statusOK
           /\ checkForbiddenCharacters GOOS (Target ch') = None).
Proof.
  split.
  - intros path. unfold checkForbiddenCharacters.
    destruct GOOS; cbn [isWindows isDarwin andb].
    + split.
      * intros H. destruct (bool_decide _) eqn:E; [|discriminate].
        apply bool_decide_eq_true in E. apply filter_forbidden_nil. exact E.
      * intros H. apply filter_forbidden_nil in H. rewrite H. reflexivity.
    + destruct (GoString.containsByte ":" path); split; congruence.
    + tauto.
  - intros sp t tp i o o' Hfix H. unfold checkForbiddenCharactersConflict in H.
    destruct (checkForbiddenCharacters GOOS t) as [err|] eqn:E; [|discriminate].
    apply rbind_Ok in H as (o1 & H1 & H).
    apply setMatch_Ok_inv in H1 as (ch & Hch & ->). simpl in H, Hch.
    rewrite Hfix in H.
    assert (forall l : list Change, l !! i = Some ch -> (i < length l)%nat) as Hlt
        by (intros l Hl; eapply lookup_lt_Some; exact Hl).
    destruct GOOS; cbn [isWindows isDarwin] in H; cbn [rbind] in H.
    + erewrite setMatch_Some in H
        by (simpl; apply list_lookup_insert_eq, Hlt, Hch).
      cbn [rbind] in H.
      erewrite setMatch_Some in H
        by (simpl; apply list_lookup_insert_eq; rewrite length_insert; apply Hlt, Hch).
      cbn [rbind] in H. inversion H; subst o'; clear H. simpl.
      eexists. split; [apply list_lookup_insert_eq; rewrite !length_insert; apply Hlt, Hch|].
      split; [reflexivity|]. simpl.
      unfold checkForbiddenCharacters. cbn [isWindows isDarwin andb].
      rewrite list_ascii_of_string_of_list_ascii, filter_forbidden_none. reflexivity.
    + erewrite setMatch_Some in H
        by (simpl; apply list_lookup_insert_eq, Hlt, Hch).
      cbn [rbind] in H.
      erewrite setMatch_Some in H
        by (simpl; apply list_lookup_insert_eq; rewrite length_insert; apply Hlt, Hch).
      cbn [rbind] in H. inversion H; subst o'; clear H. simpl.
      eexists. split; [apply list_lookup_insert_eq; rewrite !length_insert; apply Hlt, Hch|].
      split; [reflexivity|]. simpl.
      unfold checkForbiddenCharacters. cbn [isWindows isDarwin andb].
      rewrite containsByte_removeByte. reflexivity.
    + unfold checkForbiddenCharacters in E. discriminate.
Qed.

Lemma forbidden_characters_fix_effective_witness :
  exists o',
    checkForbiddenCharactersConflict Windows "d\a.txt" "a<b>:c?.txt" "d\a<b>:c?.txt" 0
      (operation [change "d" "a.txt" "a<b>:c?.txt"] true) = Ok (true, o')
    /\ map Target (matches o') = ["abc.txt"]
    /\ conflictsAt o' invalidCharacters
       = [mkConflict "d\a<b>:c?.txt" "<,>,:,?" ["d\a.txt"]]
    /\ exists ch',
         matches o' !! 0%nat = Some ch'
         /\ status ch' = statusOK
         /\ checkForbiddenCharacters Windows (Target ch') = None.
Proof.
  eexists. split; [vm_compute; reflexivity|].
  split; [vm_compute; reflexivity|]. split; [vm_compute; reflexivity|].
  apply (proj2 (forbidden_characters_fix_effective Windows)
               "d\a.txt" "a<b>:c?.txt" "d\a<b>:c?.txt" 0%nat
               (operation [change "d" "a.txt" "a<b>:c?.txt"] true)).
  - reflexivity.
  - vm_compute. reflexivity.
Defined.

(** ** Trailing periods *)

Lemma splitByte_nonempty c s : GoString.splitByte c s <> [].
Proof.
  destruct s as [|d s]; simpl; [discriminate|].
  destruct (GoString.splitByte c s); [discriminate|].
  destruct (Ascii.eqb c d); discriminate.
Qed.

Lemma splitByte_free c s :
  Forall (fun f => GoString.containsByte c f = false) (GoString.splitByte c s).
Proof.
  induction s as [|d s IH]; simpl; [repeat constructor|].
  destruct (GoString.splitByte c s) as [|f fs]; [repeat constructor|].
  inversion IH as [|? ? Hf Hfs]; subst.
  destruct (Ascii.eqb c d) eqn:E.
  - constructor; [reflexivity|]. constructor; assumption.
  - constructor; [simpl; rewrite E; exact Hf|exact Hfs].
Qed.

(** Splitting what was joined gives the fields back, when no field
    holds the separator. *)
Lemma splitByte_join c fs :
  fs <> [] ->
  Forall (fun f => GoString.containsByte c f = false) fs ->
  GoString.splitByte c (GoString.join fs (String c "")) = fs.
Proof.
  induction fs as [|f fs IH]; [congruence|]. intros _ Hall.
  inversion Hall as [|? ? Hf Hfs]; subst.
  destruct fs as [|g fs].
  - simpl. clear IH Hall Hfs. induction f as [|d f IHf]; [reflexivity|].
    simpl in Hf. apply orb_false_iff in Hf as [Hd Hf].
    simpl. rewrite (IHf Hf), Hd. reflexivity.
  - specialize (IH ltac:(discriminate) Hfs).
    change (GoString.join (f :: g :: fs) (String c ""))
      with (f +:+ String c "" +:+ GoString.join (g :: fs) (String c "")).
    clear Hall. induction f as [|d f IHf].
    + rewrite append_Empty, append_String, append_Empty. cbn [GoString.splitByte].
      rewrite IH, Ascii.eqb_refl. reflexivity.
    + simpl in Hf. apply orb_false_iff in Hf as [Hd Hf].
      rewrite append_String. cbn [GoString.splitByte].
      rewrite (IHf Hf), Hd. reflexivity.
Qed.

Lemma containsByte_of_list c l :
  GoString.containsByte c (string_of_list_ascii l) = existsb (Ascii.eqb c) l.
Proof. induction l as [|d l IH]; [reflexivity|]. simpl. rewrite IH. reflexivity. Qed.

Lemma containsByte_to_list c s :
  GoString.containsByte c s = existsb (Ascii.eqb c) (list_ascii_of_string s).
Proof. induction s as [|d s IH]; [reflexivity|]. simpl. rewrite IH. reflexivity. Qed.

Lemma dropWhile_suffix f l : exists pre, l = pre ++ GoString.dropWhile f l.
Proof.
  induction l as [|c l [pre IH]]; [exists []; reflexivity|]. simpl.
  destruct (f c); [exists (c :: pre); simpl; congruence|exists []; reflexivity].
Qed.

Lemma trimRightByte_free c d s :
  GoString.containsByte c s = false ->
  GoString.containsByte c (GoString.trimRightByte d s) = false.
Proof.
  unfold GoString.trimRightByte, GoString.str, GoString.bytes.
  rewrite containsByte_to_list, containsByte_of_list. intros H.
  destruct (dropWhile_suffix (Ascii.eqb d) (rev (list_ascii_of_string s))) as [pre Hp].
  apply (f_equal (@rev ascii)) in Hp. rewrite rev_involutive, rev_app_distr in Hp.
  rewrite Hp, existsb_app in H. apply orb_false_iff in H. apply H.
Qed.

Lemma dropWhile_idem f l :
  GoString.dropWhile f (GoString.dropWhile f l) = GoString.dropWhile f l.
Proof.
  induction l as [|c l IH]; [reflexivity|]. simpl.
  destruct (f c) eqn:E; [exact IH|]. simpl. rewrite E. reflexivity.
Qed.

Lemma trimRightByte_idem d s :
  GoString.trimRightByte d (GoString.trimRightByte d s) = GoString.trimRightByte d s.
Proof.
  unfold GoString.trimRightByte, GoString.str, GoString.bytes.
  rewrite list_ascii_of_string_of_list_ascii, rev_involutive, dropWhile_idem.
  reflexivity.
Qed.

(** X3.  Only Windows knows the trailing-period conflict.  There,
    after the auto-fix the item has status ok and its new target
    passes the same check: no path element of it ends in a period. *)
Theorem trailing_period_fix_effective GOOS sp t tp i o :
  (isWindows GOOS = false ->
   checkTrailingPeriodConflict GOOS sp t tp i o = Ok (false, o))
  /\ (forall o',
         fixConflicts o = true ->
         checkTrailingPeriodConflict GOOS sp t tp i o = Ok (true, o') ->
         exists ch',
           matches o' !! i = Some ch'
           /\ status ch' = statusOK
           /\ Forall (fun v => GoString.trimRightByte "."%char v = v)
                     (GoString.splitByte (pathSeperatorByte GOOS) (Target ch'))
           /\ forall sp' tp',
               checkTrailingPeriodConflict GOOS sp' (Target ch') tp' i o'
               = Ok (false, o')).
Proof.
  split.
  - intros Hw. unfold checkTrailingPeriodConflict. rewrite Hw. reflexivity.
  - intros o' Hfix H. unfold checkTrailingPeriodConflict in H.
    destruct (isWindows GOOS) eqn:Hw; [|discriminate].
    destruct (existsb _ _) eqn:Hex; [|discriminate].
    apply rbind_Ok in H as (o1 & H1 & H).
    apply setMatch_Ok_inv in H1 as (ch & Hch & ->). simpl in H, Hch.
    rewrite Hfix in H.
    assert (i < length (matches o))%nat as Hlt by (eapply lookup_lt_Some; exact Hch).
    erewrite setMatch_Some in H by (simpl; apply list_lookup_insert_eq, Hlt).
    cbn [rbind] in H.
    erewrite setMatch_Some in H
      by (simpl; apply list_lookup_insert_eq; rewrite length_insert; exact Hlt).
    cbn [rbind] in H. inversion H; subst o'; clear H. simpl.
    eexists. split; [apply list_lookup_insert_eq; rewrite !length_insert; exact Hlt|].
    split; [reflexivity|]. simpl.
    set (c := pathSeperatorByte GOOS).
    set (fields := GoString.splitByte c t).
    assert (GoString.splitByte c
              (GoString.join (map (GoString.trimRightByte ".") fields) (pathSeperator GOOS))
            = map (GoString.trimRightByte ".") fields) as Hsplit.
    { apply splitByte_join.
      - pose proof (splitByte_nonempty c t). fold fields in H.
        destruct fields; [congruence|discriminate].
      - apply Forall_map. eapply Forall_impl; [apply splitByte_free|].
        intros f Hf. apply trimRightByte_free. exact Hf. }
    assert (Forall (fun v => GoString.trimRightByte "." v = v)
                   (map (GoString.trimRightByte ".") fields)) as Hall.
    { apply Forall_map, Forall_forall. intros v _. apply trimRightByte_idem. }
    split; [rewrite Hsplit; exact Hall|].
    intros sp' tp'. unfold checkTrailingPeriodConflict. rewrite Hw.
    fold c. rewrite Hsplit.
    assert (existsb (fun v => negb (GoString.trimRightByte "." v =? v)%string)
                    (map (GoString.trimRightByte ".") fields) = false) as ->.
    { clear Hsplit. induction Hall as [|v l Hv _ IH]; [reflexivity|].
      simpl. rewrite Hv, String.eqb_refl, IH. reflexivity. }
    reflexivity.
Qed.

Lemma trailing_period_fix_effective_witness :
  exists o',
    checkTrailingPeriodConflict Windows "d\a.txt" "sub.\new..txt..." "d\sub.\new..txt..." 0
      (operation [change "d" "a.txt" "sub.\new..txt..."] true) = Ok (true, o')
    /\ map Target (matches o') = ["sub\new..txt"]
    /\ exists ch',
         matches o' !! 0%nat = Some ch'
         /\ status ch' = statusOK
         /\ Forall (fun v => GoString.trimRightByte "."%char v = v)
                   (GoString.splitByte (pathSeperatorByte Windows) (Target ch'))
         /\ forall sp' tp',
             checkTrailingPeriodConflict Windows sp' (Target ch') tp' 0 o'
             = Ok (false, o').
Proof.
  eexists. split; [vm_compute; reflexivity|]. split; [vm_compute; reflexivity|].
  apply (proj2 (trailing_period_fix_effective Windows "d\a.txt" "sub.\new..txt..."
                  "d\sub.\new..txt..." 0%nat
                  (operation [change "d" "a.txt" "sub.\new..txt..."] true))).
  - reflexivity.
  - vm_compute. reflexivity.
Defined.

(** ** The counter in a name *)

Definition digitStep (acc : Z) (c : ascii) : Z := 10 * acc + GoInt.digitVal c.

Lemma digits_acc d : forall acc,
  fold_left digitStep (list_ascii_of_string (NilEmpty.string_of_uint d)) (Z.pos acc)
  = Z.pos (Pos.of_uint_acc d acc).
Proof.
  induction d; intros acc;
    cbn [NilEmpty.string_of_uint list_ascii_of_string fold_left Pos.of_uint_acc];
    [reflexivity|..]; rewrite <- IHd; f_equal;
    unfold digitStep, GoInt.digitVal; cbn [nat_of_ascii N_of_ascii N_of_digits];
    rewrite Pos2Z.inj_add || idtac; rewrite Pos2Z.inj_mul; vm_compute Z.of_nat; lia.
Qed.

Lemma digits_uint d :
  GoInt.digitsVal (list_ascii_of_string (NilEmpty.string_of_uint d))
  = Z.of_N (Pos.of_uint d).
Proof.
  unfold GoInt.digitsVal. change (fun acc c => 10 * acc + GoInt.digitVal c) with digitStep.
  induction d; simpl; try reflexivity; try exact IHd; apply (digits_acc d).
Qed.

Lemma uint_isDigit d :
  Forall (fun c => GoInt.isDigit c = true)
         (list_ascii_of_string (NilEmpty.string_of_uint d)).
Proof. induction d; simpl; constructor; try assumption; reflexivity. Qed.

(** For a counter that is not negative, [strconv.Itoa] gives decimal
    digits, at least one, and reading them gives the counter back. *)
Lemma Itoa_nonneg n :
  0 <= n ->
  Forall (fun c => GoInt.isDigit c = true) (list_ascii_of_string (GoInt.Itoa n))
  /\ list_ascii_of_string (GoInt.Itoa n) <> []
  /\ GoInt.digitsVal (list_ascii_of_string (GoInt.Itoa n)) = n.
Proof.
  intros Hn. unfold GoInt.Itoa. destruct n as [|p|p]; [| |lia].
  - repeat split; [repeat constructor|discriminate].
  - simpl. pose proof (DecimalPos.Unsigned.to_uint_nonnil p) as Hnil.
    unfold NilZero.string_of_uint.
    destruct (Pos.to_uint p) eqn:E; [congruence|..];
      rewrite <- E; (split; [apply uint_isDigit|]);
      (split; [rewrite E; discriminate|]);
      rewrite digits_uint, DecimalPos.Unsigned.of_to; reflexivity.
Qed.

Lemma takeWhile_stop f l x r :
  Forall (fun c => f c = true) l -> f x = false ->
  GoString.takeWhile f (l ++ x :: r) = l /\ GoString.dropWhile f (l ++ x :: r) = x :: r.
Proof.
  intros Hl Hx. induction Hl as [|c l Hc _ [IH1 IH2]]; simpl.
  - rewrite Hx. split; reflexivity.
  - rewrite Hc, IH1, IH2. split; reflexivity.
Qed.

Lemma append_assoc' a b c : (a +:+ b) +:+ c = a +:+ b +:+ c.
Proof.
  induction a as [|d a IH]; [reflexivity|]. rewrite !append_String, IH. reflexivity.
Qed.

(** A name that ends in a number in parentheses is read as the text
    before the parenthesis and the digits. *)
Lemma trailingNumber_numbered pre ds :
  Forall (fun c => GoInt.isDigit c = true) ds -> ds <> [] ->
  trailingNumber (pre +:+ "(" +:+ string_of_list_ascii ds +:+ ")") = Some (pre, ds).
Proof.
  intros Hd Hne. unfold trailingNumber.
  rewrite !list_of_append, list_ascii_of_string_of_list_ascii.
  rewrite !rev_app_distr. cbn [list_ascii_of_string rev app].
  change (Ascii.eqb ")" ")") with true. cbv iota.
  rewrite <- app_assoc. cbn [app].
  destruct (takeWhile_stop GoInt.isDigit (rev ds) "("%char
              (rev (list_ascii_of_string pre))) as [-> ->];
    [apply Forall_rev; exact Hd|reflexivity|].
  destruct (rev ds) eqn:E.
  { apply (f_equal (@rev ascii)) in E. rewrite rev_involutive in E. simpl in E.
    congruence. }
  rewrite <- E, !rev_involutive, string_of_list_ascii_of_string. reflexivity.
Qed.

(** X4.  [newTarget] goes on from the number a name already ends in:
    for [pre(n)] the counter starts at [n + 1] and the candidate for
    counter [m] is [pre(m)]; a name with no such number gets [ (2)]
    appended and the candidate for counter [m] is [name (m)]. *)
Theorem newTarget_continues_numbering :
  (forall pre n,
      0 <= n < GoInt.maxInt ->
      let name := pre +:+ "(" +:+ GoInt.Itoa n +:+ ")" in
      newTargetStart name = (name, n + 1)
      /\ forall m, replaceTrailingNumber name ("(" +:+ GoInt.Itoa m +:+ ")")
                   = pre +:+ "(" +:+ GoInt.Itoa m +:+ ")")
  /\ (forall name,
         trailingNumber name = None ->
         newTargetStart name = (name +:+ " (2)", 2)
         /\ forall m, replaceTrailingNumber (name +:+ " (2)")
                                            ("(" +:+ GoInt.Itoa m +:+ ")")
                      = name +:+ " (" +:+ GoInt.Itoa m +:+ ")").
Proof.
  split.
  - intros pre n Hn name.
    destruct (Itoa_nonneg n ltac:(lia)) as (Hd & Hne & Hv).
    assert (trailingNumber name = Some (pre, list_ascii_of_string (GoInt.Itoa n))) as Ht.
    { unfold name. rewrite <- (string_of_list_ascii_of_string (GoInt.Itoa n)) at 1.
      apply trailingNumber_numbered; assumption. }
    split.
    + unfold newTargetStart. rewrite Ht, Hv.
      destruct (Z.leb_spec n GoInt.maxInt) as [_|H]; [|lia].
      f_equal. unfold GoInt.incr, GoInt.wrap, GoInt.maxInt in *.
      rewrite Z.mod_small by lia. lia.
    + intros m. unfold replaceTrailingNumber. rewrite Ht. reflexivity.
  - intros name Hnone. split.
    + unfold newTargetStart. rewrite Hnone. reflexivity.
    + intros m. unfold replaceTrailingNumber.
      assert (trailingNumber (name +:+ " (2)") = Some (name +:+ " ", ["2"%char])) as ->.
      { change (name +:+ " (2)")
          with (name +:+ " " +:+ "(" +:+ string_of_list_ascii ["2"%char] +:+ ")").
        rewrite <- append_assoc'.
        apply trailingNumber_numbered; [repeat constructor|discriminate]. }
      rewrite append_assoc'. reflexivity.
Qed.

Lemma newTarget_continues_numbering_witness :
  (0 <= 3 < GoInt.maxInt
   /\ newTargetStart "image (3)" = ("image (3)", 4)
   /\ replaceTrailingNumber "image (3)" "(4)" = "image (4)")
  /\ (trailingNumber "image" = None
      /\ newTargetStart "image" = ("image (2)", 2)
      /\ replaceTrailingNumber "image (2)" "(3)" = "image (3)").
Proof.
  split.
  - split; [unfold GoInt.maxInt; lia|].
    destruct (proj1 newTarget_continues_numbering "image " 3) as [H1 H2];
      [unfold GoInt.maxInt; lia|].
    split; [exact H1|exact (H2 4)].
  - split; [reflexivity|].
    destruct (proj2 newTarget_continues_numbering "image" eq_refl) as [H1 H2].
    split; [exact H1|exact (H2 3)].
Defined.

(** ** What is reported without auto-fix *)

(** The directory, source and target of a change: all the checks read
    of it. *)
Definition names : Type := string * string * string.
Definition nameOf (ch : Change) : names := (BaseDir ch, Source ch, Target ch).
Definition namesOf (o : Operation) : list names := map nameOf (matches o).

Lemma namesOf_frame o o' :
  opFrame o o' -> targetsOf o' = targetsOf o -> namesOf o' = namesOf o.
Proof.
  intros [F _]. unfold targetsOf, namesOf.
  induction F as [|a b l l' Hab _ IH]; [reflexivity|].
  simpl. intros H. injection H as Ht Hl. rewrite (IH Hl). f_equal.
  destruct Hab as (_ & Hb & Hs & _). unfold nameOf. congruence.
Qed.

(** [op.conflicts[k] = append(op.conflicts[k], c)] on the map. *)
Definition addC (k : ConflictType) (c : Conflict)
           (cm : gmap ConflictType (list Conflict)) : gmap ConflictType (list Conflict) :=
  <[k := default [] (cm !! k) ++ [c]]> cm.

Definition addIf (k : ConflictType) (c : option Conflict)
           (cm : gmap ConflictType (list Conflict)) : gmap ConflictType (list Conflict) :=
  match c with Some c => addC k c cm | None => cm end.

Definition at_ (cm : gmap ConflictType (list Conflict)) (k : ConflictType)
  : list Conflict := default [] (cm !! k).

Lemma at_addIf k' c cm k :
  at_ (addIf k' c cm) k
  = at_ cm k ++ (if decide (k' = k) then option_list c else []).
Proof.
  unfold at_, addIf, addC. destruct c as [c|]; simpl.
  - destruct (decide (k' = k)) as [->|Hne].
    + rewrite lookup_insert_eq. reflexivity.
    + rewrite lookup_insert_ne by exact Hne. rewrite app_nil_r. reflexivity.
  - destruct (decide (k' = k)); rewrite app_nil_r; reflexivity.
Qed.

Lemma at_four cm a1 a2 a3 a4 k :
  at_ (addIf fileExists a4
         (addIf invalidCharacters a3
            (addIf maxFilenameLengthExceeded a2 (addIf trailingPeriod a1 cm)))) k
  = at_ cm k
    ++ option_list (match k with
                    | trailingPeriod => a1
                    | maxFilenameLengthExceeded => a2
                    | invalidCharacters => a3
                    | fileExists => a4
                    | _ => None
                    end).
Proof.
  rewrite !at_addIf, <- !app_assoc. f_equal.
  destruct k; repeat (destruct (decide _) as [?|?]; try discriminate);
    try congruence; cbn [app]; rewrite ?app_nil_r; reflexivity.
Qed.

Section Reported.

Variable GOOS : platform.
Variable filepath_Base : string -> string.
Variable filepath_Ext : string -> string.
Variable filepath_Dir : string -> string.
Variable filepath_Join : list string -> string.
Variable strings_EqualFold : string -> string -> bool.
Variable os_Stat : string -> option statError.
Variable rangeKeys : renamedMap -> list string.

Local Abbreviation detectLoop :=
  (detectLoop GOOS filepath_Base filepath_Ext filepath_Dir filepath_Join
              strings_EqualFold os_Stat).

Definition spOf (n : names) : string := filepath_Join [n.1.1; n.1.2].
Definition tpOf (n : names) : string := filepath_Join [n.1.1; n.2].

(** The target is empty or a lone period. *)
Definition emptyName (n : names) : bool := String.eqb n.2 "." || String.eqb n.2 "".

(** Some element of the target ends in a period (Windows only). *)
Definition trailing (n : names) : bool :=
  isWindows GOOS
  && existsb (fun v => negb (String.eqb (GoString.trimRightByte "."%char v) v))
             (GoString.splitByte (pathSeperatorByte GOOS) n.2).

(** An item before [i] has [tp] as its source path and is itself
    renamed to something else, up to case. *)
Definition vacatedN (tp : string) (i : nat) (N : list names) : bool :=
  existsb (fun '(j, n) =>
             String.eqb tp (spOf n) && negb (strings_EqualFold (spOf n) (tpOf n))
             && (j <? i)%nat)
          (imap (fun j n => (j, n)) N).

(** The target exists and nothing excuses it. *)
Definition blocked (allow : bool) (N : list names) (i : nat) (n : names) : bool :=
  statExists os_Stat (tpOf n) && negb (strings_EqualFold (spOf n) (tpOf n))
  && negb allow && negb (vacatedN (tpOf n) i N).

(** The conflict of kind [k] that item [i] gives rise to, if any. *)
Definition reported (allow : bool) (N : list names) (k : ConflictType)
           (i : nat) (n : names) : option Conflict :=
  match k with
  | emptyFilename =>
      if emptyName n then Some (mkConflict (tpOf n) "" [spOf n]) else None
  | trailingPeriod =>
      if negb (emptyName n) && trailing n
      then Some (mkConflict (tpOf n) "" [spOf n]) else None
  | maxFilenameLengthExceeded =>
      if emptyName n then None
      else option_map (fun cause => mkConflict (tpOf n) cause [spOf n])
                      (checktTargetLength GOOS filepath_Base n.2)
  | invalidCharacters =>
      if emptyName n then None
      else option_map (fun cause => mkConflict (tpOf n) cause [spOf n])
                      (checkForbiddenCharacters GOOS n.2)
  | fileExists =>
      if negb (emptyName n) && blocked allow N i n
      then Some (mkConflict (tpOf n) "" [spOf n]) else None
  | overwritingNewPath => None
  end.

(** The conflicts of kind [k] of the items [rest], the first of which
    has index [i], in their order. *)
Fixpoint reportsFrom (allow : bool) (N : list names) (k : ConflictType)
         (i : nat) (rest : list names) : list Conflict :=
  match rest with
  | [] => []
  | n :: rest' =>
      option_list (reported allow N k i n) ++ reportsFrom allow N k (S i) rest'
  end.

(** The entries the per-item pass makes in [renamedPaths] for the
    items [rest]. *)
Fixpoint claimsFrom (i : nat) (rest : list names) (rp : renamedMap) : renamedMap :=
  match rest with
  | [] => rp
  | n :: rest' =>
      claimsFrom (S i) rest' (if emptyName n then rp else claim (tpOf n) (spOf n) i rp)
  end.

Lemma imap_pair_map {A B : Type} (h : A -> B) (l : list A) : forall k,
  imap (fun j n => ((k + j)%nat, n)) (map h l)
  = map (fun p => (p.1, h p.2)) (imap (fun j x => ((k + j)%nat, x)) l).
Proof.
  induction l as [|x l IH]; intros k; [reflexivity|]. simpl. f_equal.
  rewrite (imap_ext _ (fun j n => ((S k + j)%nat, n)))
    by (intros; simpl; f_equal; lia).
  rewrite (imap_ext (_ ∘ S) (fun j x => ((S k + j)%nat, x)))
    by (intros; simpl; f_equal; lia).
  apply IH.
Qed.

Lemma vacatedEarlier_names tp i o :
  vacatedEarlier filepath_Join strings_EqualFold tp i o = vacatedN tp i (namesOf o).
Proof.
  unfold vacatedEarlier, vacatedN, namesOf.
  pose proof (imap_pair_map nameOf (matches o) 0) as H. simpl in H. rewrite H.
  generalize (imap (fun j ch => (j, ch)) (matches o)). intros l.
  induction l as [|[j ch] l IH]; [reflexivity|]. simpl. rewrite IH. reflexivity.
Qed.

Lemma rec_trailing sp t tp i o d o1 :
  checkTrailingPeriodConflict GOOS sp t tp i o = Ok (d, o1) ->
  conflicts o1
  = addIf trailingPeriod
          (if isWindows GOOS
              && existsb (fun v => negb (String.eqb (GoString.trimRightByte "."%char v) v))
                         (GoString.splitByte (pathSeperatorByte GOOS) t)
           then Some (mkConflict tp "" [sp]) else None)
          (conflicts o).
Proof.
  unfold checkTrailingPeriodConflict. intros H.
  destruct (isWindows GOOS); cbn [andb]; [|inversion H; reflexivity].
  destruct (existsb _ _); [|inversion H; reflexivity].
  repeat conflicts_step; unfold addIf, addC; simpl in *; congruence.
Qed.

Lemma rec_length fuel sp t tp i o d o1 :
  checkPathLengthConflict GOOS filepath_Base filepath_Ext filepath_Join
                          fuel sp t tp i o = Ok (d, o1) ->
  conflicts o1
  = addIf maxFilenameLengthExceeded
          (option_map (fun cause => mkConflict tp cause [sp])
                      (checktTargetLength GOOS filepath_Base t))
          (conflicts o).
Proof.
  unfold checkPathLengthConflict. intros H.
  destruct (checktTargetLength _ _ _); [|inversion H; reflexivity].
  repeat conflicts_step; unfold addIf, addC; simpl in *; congruence.
Qed.

Lemma rec_forbidden sp t tp i o d o1 :
  checkForbiddenCharactersConflict GOOS sp t tp i o = Ok (d, o1) ->
  conflicts o1
  = addIf invalidCharacters
          (option_map (fun cause => mkConflict tp cause [sp])
                      (checkForbiddenCharacters GOOS t))
          (conflicts o).
Proof.
  unfold checkForbiddenCharactersConflict. intros H.
  destruct (checkForbiddenCharacters _ _); [|inversion H; reflexivity].
  repeat conflicts_step; unfold addIf, addC; simpl in *; congruence.
Qed.

Lemma rec_exists fuel sp tp ch i o d o1 :
  checkPathExistsConflict filepath_Base filepath_Ext filepath_Dir filepath_Join
                          strings_EqualFold os_Stat fuel sp tp ch i o = Ok (d, o1) ->
  conflicts o1
  = addIf fileExists
          (if statExists os_Stat tp && negb (strings_EqualFold sp tp)
              && negb (allowOverwrites o)
              && negb (vacatedEarlier filepath_Join strings_EqualFold tp i o)
           then Some (mkConflict tp "" [sp]) else None)
          (conflicts o).
Proof.
  unfold checkPathExistsConflict. intros H.
  destruct (statExists _ _); cbn [andb]; [|inversion H; reflexivity].
  destruct (strings_EqualFold sp tp); cbn [andb negb];
    [repeat conflicts_step; unfold addIf, addC; simpl in *; congruence|].
  destruct (allowOverwrites o); cbn [andb negb];
    [repeat conflicts_step; unfold addIf, addC; simpl in *; congruence|].
  destruct (vacatedEarlier _ _ _ _ _); cbn [negb]; [inversion H; reflexivity|].
  repeat conflicts_step; unfold addIf, addC; simpl in *; congruence.
Qed.

Lemma opFrame_allow o o' : opFrame o o' -> allowOverwrites o = allowOverwrites o'.
Proof. unfold opFrame. tauto. Qed.

(** The per-item pass without auto-fix: what it records, item by
    item. *)
Lemma detectLoop_reports fuel : forall i o rp o' rp',
  detectLoop fuel i o rp = Ok (o', rp') ->
  fixConflicts o = false ->
  (forall k, at_ (conflicts o') k
             = at_ (conflicts o) k
               ++ reportsFrom (allowOverwrites o) (namesOf o) k i (drop i (namesOf o)))
  /\ rp' = claimsFrom i (drop i (namesOf o)) rp.
Proof.
  induction fuel as [|fuel IH]; intros i o rp o' rp' H Hfix; simpl in H;
    [discriminate|].
  destruct (matches o !! i) as [ch|] eqn:Hch.
  2:{ injection H as <- <-.
      assert (drop i (namesOf o) = []) as ->.
      { apply drop_ge. unfold namesOf. rewrite length_map.
        apply lookup_ge_None. exact Hch. }
      split; [intros k; simpl; rewrite app_nil_r; reflexivity|reflexivity]. }
  assert (drop i (namesOf o) = nameOf ch :: drop (S i) (namesOf o)) as Hdrop.
  { apply drop_S. unfold namesOf. rewrite list_lookup_fmap, Hch. reflexivity. }
  rewrite Hdrop. cbn [reportsFrom claimsFrom].
  change (emptyName (nameOf ch))
    with (String.eqb (Target ch) "." || String.eqb (Target ch) "").
  change (tpOf (nameOf ch)) with (filepath_Join [BaseDir ch; Target ch]).
  change (spOf (nameOf ch)) with (filepath_Join [BaseDir ch; Source ch]).
  set (sp := filepath_Join [BaseDir ch; Source ch]) in *.
  set (tp := filepath_Join [BaseDir ch; Target ch]) in *.
  destruct (String.eqb (Target ch) "." || String.eqb (Target ch) "") eqn:Hempty.
  - apply rbind_Ok in H as (o1 & H1 & H).
    rewrite (fixConflicts_setMatch _ _ _ _ H1) in H. simpl in H. rewrite Hfix in H.
    cbn [rbind] in H.
    pose proof (setMatch_conflicts _ _ _ _ H1) as C1.
    pose proof (fixConflicts_setMatch _ _ _ _ H1) as X1. simpl in X1.
    assert (opFrame o o1) as F1.
    { eapply opFrame_trans; [apply opFrame_addConflict|].
      eapply opFrame_setMatch; [|exact H1]. intros c. apply sameFrame_setStatus. }
    assert (namesOf o1 = namesOf o) as N1.
    { apply namesOf_frame; [exact F1|]. apply targetsOf_setStatus in H1. exact H1. }
    destruct (IH _ _ _ _ _ H ltac:(congruence)) as [Hc Hr].
    rewrite N1 in Hc, Hr. rewrite <- (opFrame_allow _ _ F1) in Hc.
    split; [|exact Hr].
    intros k. rewrite Hc, C1.
    change (conflicts (addConflict emptyFilename (mkConflict tp "" [sp]) o))
      with (addIf emptyFilename (Some (mkConflict tp "" [sp])) (conflicts o)).
    rewrite at_addIf, <- app_assoc. f_equal. f_equal.
    unfold reported, emptyName. cbn [nameOf snd]. rewrite Hempty.
    destruct k; reflexivity.
  - apply rbind_Ok in H as ([d1 o1] & H1 & H).
    pose proof (frame_checkTrailingPeriodConflict _ _ _ _ _ _ _ _ H1) as F1.
    pose proof (opFrame_fixConflicts _ _ F1) as X1.
    assert (d1 && fixConflicts o1 = false) as E1
        by (rewrite <- X1, Hfix; apply andb_false_r).
    rewrite E1 in H. rewrite <- X1 in E1.
    pose proof (targets_checkTrailingPeriodConflict _ _ _ _ _ _ _ _ H1 E1) as T1.
    pose proof (namesOf_frame _ _ F1 T1) as N1.
    apply rec_trailing in H1.
    apply rbind_Ok in H as ([d2 o2] & H2 & H).
    pose proof (frame_checkPathLengthConflict _ _ _ _ _ _ _ _ _ _ _ _ H2) as F2.
    pose proof (opFrame_fixConflicts _ _ F2) as X2.
    assert (d2 && fixConflicts o2 = false) as E2
        by (rewrite <- X2, <- X1, Hfix; apply andb_false_r).
    rewrite E2 in H. rewrite <- X2 in E2.
    pose proof (targets_checkPathLengthConflict _ _ _ _ _ _ _ _ _ _ _ _ H2 E2) as T2.
    pose proof (namesOf_frame _ _ F2 T2) as N2.
    apply rec_length in H2.
    apply rbind_Ok in H as ([d3 o3] & H3 & H).
    pose proof (frame_checkForbiddenCharactersConflict _ _ _ _ _ _ _ _ H3) as F3.
    pose proof (opFrame_fixConflicts _ _ F3) as X3.
    assert (d3 && fixConflicts o3 = false) as E3
        by (rewrite <- X3, <- X2, <- X1, Hfix; apply andb_false_r).
    rewrite E3 in H. rewrite <- X3 in E3.
    pose proof (targets_checkForbiddenCharactersConflict _ _ _ _ _ _ _ _ H3 E3) as T3.
    pose proof (namesOf_frame _ _ F3 T3) as N3.
    apply rec_forbidden in H3.
    apply rbind_Ok in H as ([d4 o4] & H4 & H).
    pose proof (frame_checkPathExistsConflict _ _ _ _ _ _ _ _ _ _ _ _ _ _ H4) as F4.
    pose proof (opFrame_fixConflicts _ _ F4) as X4.
    assert (d4 && fixConflicts o4 = false) as E4
        by (rewrite <- X4, <- X3, <- X2, <- X1, Hfix; apply andb_false_r).
    rewrite E4 in H. rewrite <- X4 in E4.
    pose proof (targets_checkPathExistsConflict _ _ _ _ _ _ _ _ _ _ _ _ _ _ H4 E4) as T4.
    pose proof (namesOf_frame _ _ F4 T4) as N4.
    apply rec_exists in H4.
    rewrite vacatedEarlier_names in H4.
    rewrite <- (opFrame_allow _ _ F3), <- (opFrame_allow _ _ F2),
      <- (opFrame_allow _ _ F1) in H4.
    rewrite N3, N2, N1 in H4.
    destruct (IH _ _ _ _ _ H ltac:(congruence)) as [Hc Hr].
    rewrite N4, N3, N2, N1 in Hc, Hr.
    rewrite <- (opFrame_allow _ _ F4), <- (opFrame_allow _ _ F3),
      <- (opFrame_allow _ _ F2), <- (opFrame_allow _ _ F1) in Hc.
    split; [|exact Hr].
    intros k. rewrite Hc, H4, H3, H2, H1, at_four, <- app_assoc. f_equal.
    f_equal. unfold reported, emptyName, blocked, trailing. cbn [nameOf snd].
    rewrite Hempty. cbn [negb andb].
    change (tpOf (nameOf ch)) with tp. change (spOf (nameOf ch)) with sp.
    destruct k; reflexivity.
Qed.

(** The conflict the cross-item pass records for one key of
    [renamedPaths]. *)
Definition groupConflict (rp : renamedMap) (key : string) : option Conflict :=
  let source := default [] (rp !! key) in
  if (1 <? length source)%nat
  then Some (mkConflict key "" (map sourcePath source)) else None.

(** The items of [rest] (the first of which has index [i]) whose
    target path is [key]. *)
Fixpoint groupFrom (key : string) (i : nat) (rest : list names) : list renamed :=
  match rest with
  | [] => []
  | n :: rest' =>
      (if negb (emptyName n) && String.eqb (tpOf n) key
       then [mkRenamed (spOf n) i] else [])
      ++ groupFrom key (S i) rest'
  end.

Lemma markOverwriting_conflicts source : forall o o',
  markOverwriting source o = Ok o' -> conflicts o' = conflicts o.
Proof.
  induction source as [|s source IH]; intros o o' H; simpl in H.
  - inversion H; reflexivity.
  - apply rbind_Ok in H as (o1 & H1 & H). apply setMatch_conflicts in H1.
    rewrite (IH _ _ H). exact H1.
Qed.

Lemma overwritingLoop_reports fuel keys : forall o rp o' rp',
  overwritingLoop filepath_Base filepath_Ext filepath_Dir filepath_Join os_Stat
                  fuel keys o rp = Ok (o', rp') ->
  fixConflicts o = false ->
  rp' = rp
  /\ forall k, at_ (conflicts o') k
               = at_ (conflicts o) k
                 ++ (if decide (overwritingNewPath = k)
                     then omap (groupConflict rp) keys else []).
Proof.
  induction keys as [|key keys IH]; intros o rp o' rp' H Hfix; simpl in H.
  - inversion H; subst. split; [reflexivity|]. intros k.
    destruct (decide _); simpl; rewrite app_nil_r; reflexivity.
  - apply rbind_Ok in H as ([oa rpa] & Ha & H).
    unfold overwritingAt in Ha. cbn [omap list_omap]. unfold groupConflict at 1.
    destruct (1 <? length (default [] (rp !! key)))%nat.
    + apply rbind_Ok in Ha as (o1 & H1 & Ha).
      pose proof (opFrame_fixConflicts _ _ (frame_markOverwriting _ _ _ H1)) as X1.
      apply markOverwriting_conflicts in H1.
      simpl in Ha. rewrite <- X1, Hfix in Ha. inversion Ha; subst oa rpa.
      destruct (IH _ _ _ _ H ltac:(simpl; congruence)) as [-> Hc].
      split; [reflexivity|]. intros k. rewrite Hc.
      change (conflicts (addConflict overwritingNewPath ?c o1))
        with (addIf overwritingNewPath (Some c) (conflicts o1)).
      rewrite at_addIf, H1, <- app_assoc.
      destruct (decide _); reflexivity.
    + inversion Ha; subst oa rpa.
      destruct (IH _ _ _ _ H Hfix) as [-> Hc]. split; [reflexivity|exact Hc].
Qed.

Lemma claimsFrom_lookup rest : forall i rp key,
  default [] (claimsFrom i rest rp !! key)
  = default [] (rp !! key) ++ groupFrom key i rest.
Proof.
  induction rest as [|n rest IH]; intros i rp key; simpl.
  - rewrite app_nil_r. reflexivity.
  - rewrite IH. destruct (emptyName n); cbn [negb andb app]; [reflexivity|].
    unfold claim. destruct (String.eqb_spec (tpOf n) key) as [->|Hne].
    + rewrite lookup_insert_eq. simpl. rewrite <- app_assoc. reflexivity.
    + rewrite lookup_insert_ne by exact Hne. reflexivity.
Qed.

Lemma claimsFrom_is_Some rest : forall i rp key,
  groupFrom key i rest <> [] -> is_Some (claimsFrom i rest rp !! key).
Proof.
  intros i rp key Hne.
  destruct (claimsFrom i rest rp !! key) as [l|] eqn:E; [eauto|].
  exfalso. pose proof (claimsFrom_lookup rest i rp key) as H.
  rewrite E in H. simpl in H. symmetry in H. apply app_eq_nil in H as [_ H].
  congruence.
Qed.

Lemma reportsFrom_overwriting allow N rest : forall i,
  reportsFrom allow N overwritingNewPath i rest = [].
Proof. induction rest as [|n rest IH]; intros i; simpl; [reflexivity|apply IH]. Qed.

Lemma reportsFrom_elem allow N k c rest : forall i,
  c ∈ reportsFrom allow N k i rest
  <-> exists j n, rest !! j = Some n /\ reported allow N k (i + j) n = Some c.
Proof.
  induction rest as [|n rest IH]; intros i; simpl.
  - split; [intros H; inversion H|intros (j & n & H & _); discriminate].
  - rewrite elem_of_app, IH. split.
    + intros [H|(j & m & Hj & Hr)].
      * exists 0%nat, n. split; [reflexivity|]. rewrite Nat.add_0_r.
        destruct (reported allow N k i n); simpl in H; [|inversion H].
        apply list_elem_of_singleton in H. congruence.
      * exists (S j), m. split; [exact Hj|].
        rewrite <- Hr. f_equal. lia.
    + intros ([|j] & m & Hj & Hr).
      * left. simpl in Hj. injection Hj as ->. rewrite Nat.add_0_r in Hr.
        rewrite Hr. simpl. apply list_elem_of_singleton. reflexivity.
      * right. exists j, m. split; [exact Hj|]. rewrite <- Hr. f_equal. lia.
Qed.

End Reported.

(** X5.  Without auto-fix [detectConflicts] is a report.  For every
    kind of conflict but the overwriting one, the conflicts recorded
    are those its items give rise to one by one, in the order of the
    items: an empty target, a path element ending in a period
    (Windows), a name that is too long, a forbidden character, an
    existing target that nothing excuses.  The overwriting conflicts
    are one per key of [renamedPaths] claimed more than once, in the
    order [range] yields the keys; so, if [range] yields every key, a
    target path is reported with its sources exactly when two or more
    items with a non-empty target arrive at it. *)
Theorem detection_without_fix
        GOOS filepath_Base filepath_Ext filepath_Dir filepath_Join
        strings_EqualFold os_Stat rangeKeys fuel o o' :
  fixConflicts o = false ->
  detectConflicts GOOS filepath_Base filepath_Ext filepath_Dir filepath_Join
                  strings_EqualFold os_Stat rangeKeys fuel o = Ok o' ->
  let N := namesOf o in
  let rp := claimsFrom filepath_Join 0 N ∅ in
  (forall k,
      k <> overwritingNewPath ->
      conflictsAt o' k
      = reportsFrom GOOS filepath_Base filepath_Join strings_EqualFold os_Stat
                    (allowOverwrites o) N k 0 N)
  /\ conflictsAt o' overwritingNewPath = omap (groupConflict rp) (rangeKeys rp)
  /\ ((forall key, is_Some (rp !! key) -> key ∈ rangeKeys rp) ->
      forall key srcs,
        mkConflict key "" srcs ∈ conflictsAt o' overwritingNewPath
        <-> srcs = map sourcePath (groupFrom filepath_Join key 0 N)
            /\ (2 <= length srcs)%nat).
Proof.
  intros Hfix H N rp.
  unfold detectConflicts, checkOverwritingPathConflict in H.
  apply rbind_Ok in H as ([o1 rp1] & H1 & H).
  apply rbind_Ok in H as ([o2 rp2] & H2 & H). inversion H; subst o2. clear H.
  pose proof (opFrame_fixConflicts _ _
                (frame_detectLoop _ _ _ _ _ _ _ _ _ _ _ _ _ H1)) as X1. simpl in X1.
  apply detectLoop_reports in H1; [|exact Hfix].
  destruct H1 as [Hc1 Hr1]. simpl in Hc1, Hr1.
  change (namesOf (withConflicts ∅ o)) with N in Hc1, Hr1.
  rewrite drop_0 in Hc1, Hr1. fold rp in Hr1. subst rp1.
  apply overwritingLoop_reports in H2; [|congruence].
  destruct H2 as [_ Hc2].
  assert (forall k, conflictsAt o' k = at_ (conflicts o') k) as Hat by reflexivity.
  assert (conflictsAt o' overwritingNewPath = omap (groupConflict rp) (rangeKeys rp))
    as Hover.
  { rewrite Hat, Hc2, Hc1. unfold at_ at 1. rewrite lookup_empty.
    rewrite reportsFrom_overwriting.
    destruct (decide _); [|congruence]. reflexivity. }
  split; [|split; [exact Hover|]].
  - intros k Hk. rewrite Hat, Hc2, Hc1. unfold at_ at 1. rewrite lookup_empty.
    destruct (decide _); [congruence|]. rewrite app_nil_r. reflexivity.
  - intros Hkeys key srcs. rewrite Hover, list_elem_of_omap.
    pose proof (claimsFrom_lookup filepath_Join N 0 ∅ key) as Hl.
    rewrite lookup_empty in Hl. simpl in Hl. fold rp in Hl.
    split.
    + intros (key' & _ & Hg). unfold groupConflict in Hg.
      destruct (Nat.ltb_spec 1 (length (default [] (rp !! key')))) as [Hlen|];
        [|discriminate].
      injection Hg as -> <-. rewrite Hl. split; [reflexivity|].
      rewrite length_map, <- Hl. lia.
    + intros [-> Hlen]. rewrite length_map in Hlen. exists key. split.
      * apply Hkeys. apply claimsFrom_is_Some.
        destruct (groupFrom filepath_Join key 0 N); [simpl in Hlen; lia|discriminate].
      * unfold groupConflict. rewrite Hl.
        destruct (Nat.ltb_spec 1 (length (groupFrom filepath_Join key 0 N)));
          [reflexivity|lia].
Qed.

Lemma withMatches_id o : withMatches (matches o) o = o.
Proof. destruct o; reflexivity. Qed.

Section PipelineExtras.

Variable GOOS : platform.
Variable filepath_Base : string -> string.
Variable filepath_Ext : string -> string.
Variable filepath_Dir : string -> string.
Variable filepath_Join : list string -> string.
Variable strings_EqualFold : string -> string -> bool.
Variable rangeKeys : renamedMap -> list string.
Variable World : Type.
Variable os_Stat : World -> string -> option statError.
Variable os_MkdirAll : World -> string -> World * option string.
Variable os_Rename : World -> string -> string -> World * option string.
Variable os_Remove : World -> string -> World * option string.
Variable xdg_DataFile : World -> string -> World * (string + string).
Variable xdg_SearchDataFile : World -> string -> string + string.
Variable os_WriteJSON : World -> string -> string -> list Change -> World * option string.
Variable os_ReadJSON : World -> string -> list Change + string.
Variable stdin_ReadString : World -> World * option string.
Variable sortMatches : list Change -> list Change.
Variable sortBy : World -> Operation -> Operation + string.
Variable prepare : World -> Operation -> Operation + error.

Local Abbreviation state := (state World).
Local Abbreviation rename :=
  (rename GOOS filepath_Dir filepath_Join World os_MkdirAll os_Rename).
Local Abbreviation backup :=
  (backup GOOS filepath_Join World xdg_DataFile os_WriteJSON).
Local Abbreviation handleErrors :=
  (handleErrors GOOS filepath_Join World xdg_DataFile os_WriteJSON).
Local Abbreviation commit :=
  (commit GOOS filepath_Dir filepath_Join World os_MkdirAll os_Rename
          xdg_DataFile os_WriteJSON).
Local Abbreviation detect w :=
  (detectConflicts GOOS filepath_Base filepath_Ext filepath_Dir filepath_Join
                   strings_EqualFold (os_Stat w) rangeKeys).
Local Abbreviation apply :=
  (apply GOOS filepath_Base filepath_Ext filepath_Dir filepath_Join
         strings_EqualFold rangeKeys World os_Stat os_MkdirAll os_Rename
         xdg_DataFile os_WriteJSON stdin_ReadString sortMatches).
Local Abbreviation retrieveBackupFile :=
  (retrieveBackupFile GOOS filepath_Join World xdg_SearchDataFile).

Lemma emit_world o (st : state) : world World (emit World o st) = world World st.
Proof. reflexivity. Qed.

Lemma noMatches_world (st : state) : world World (noMatches World st) = world World st.
Proof. unfold noMatches. destruct (json _); reflexivity. Qed.

Lemma dryRun_world (st : state) : world World (dryRun World st) = world World st.
Proof.
  unfold dryRun. destruct (negb _); [rewrite emit_world|];
    apply (proj2 (printChanges_op_world World st)).
Qed.

(** X6.  Without [exec], [apply] is a dry run: whatever the batch,
    the auto-fix setting and the conflicts, the world it leaves is the
    world it started in; the only error it can return is
    [errConflictDetected]. *)
Theorem apply_dry_run_keeps_world fuel (st st' : state) err :
  exec (op World st) = false ->
  apply fuel st = Ok (st', err) ->
  world World st' = world World st
  /\ (err = None \/ err = Some errConflictDetected).
Proof.
  intros Hex H. unfold apply in H.
  destruct (length (matches (op World st)) =? 0)%nat.
  { inversion H; subst. split; [apply noMatches_world|left; reflexivity]. }
  apply rbind_Ok in H as (o & Hd & H).
  pose proof (frame_detectConflicts _ _ _ _ _ _ _ _ _ _ _ Hd) as F.
  assert (exec o = false) as Hexo.
  { destruct F as (_ & F). decompose [and] F. congruence. }
  cbn [op withOp] in H.
  destruct ((0 <? size (conflicts o))%nat && negb (fixConflicts o)).
  { inversion H; subst. split; [|right; reflexivity].
    destruct (json o); [|reflexivity].
    apply (proj2 (printChanges_op_world World (withOp World o st))). }
  assert (forall b : bool, exec (op World (if b
            then withOp World (withMatches (sortMatches (matches o)) o) (withOp World o st)
            else withOp World o st)) = false) as Hex2.
  { intros []; exact Hexo. }
  rewrite Hex2 in H. inversion H; subst. split; [|left; reflexivity].
  rewrite dryRun_world. destruct (includeDir o || revert o); reflexivity.
Qed.

(** X7.  When at least one rename failed, [commit] returns an error,
    and the error is one of the first two messages of [handleErrors]:
    the third one is never returned by [commit], since a failed rename
    means there are matches. *)
Theorem commit_reports_failures (st : state) :
  let st1 := rename st in
  errors (op World st1) <> [] ->
  let tried := (length (errors (op World st1)) <? length (matches (op World st1)))%nat
               && negb (revert (op World st1)) in
  (commit st).2
  = Some (errorString
            (match (if tried then (backup (reportErrors World st1)).2 else None) with
             | Some _ => "The above files could not be renamed"
             | None => if revert (op World st1)
                       then "Some files could not be reverted."
                       else "Some files could not be renamed."
             end)).
Proof.
  intros st1 Hne tried. unfold commit. fold st1.
  assert ((length (errors (op World st1)) =? 0)%nat = false) as E0.
  { apply Nat.eqb_neq. destruct (errors (op World st1)); [congruence|discriminate]. }
  rewrite E0. cbn [andb].
  assert ((0 <? length (errors (op World st1)))%nat = true) as E1.
  { apply Nat.ltb_lt. apply Nat.eqb_neq in E0. lia. }
  rewrite E1.
  assert (0 < length (matches (op World st1)))%nat as Hm.
  { destruct (rename_spec GOOS filepath_Dir filepath_Join World os_MkdirAll os_Rename st)
      as [_ Ho].
    fold st1 in Ho.
    pose proof (renameAll_length GOOS filepath_Dir filepath_Join World os_MkdirAll
                  os_Rename (matches (op World st)) (world World st) 0) as [L1 L2].
    apply Nat.eqb_neq in E0. rewrite Ho in E0 |- *. simpl in *. lia. }
  unfold handleErrors.
  destruct (reportErrors_op_world World st1) as [Ho _].
  rewrite Ho. fold tried.
  destruct tried.
  - destruct (backup (reportErrors World st1)) as [st2 err] eqn:Eb.
    pose proof (backup_op GOOS filepath_Join World xdg_DataFile os_WriteJSON
                  (reportErrors World st1)) as Hb.
    rewrite Eb in Hb. cbn [fst snd] in Hb |- *. rewrite Hb, Ho.
    apply Nat.ltb_lt in Hm. rewrite Hm. destruct err; reflexivity.
  - rewrite Ho. apply Nat.ltb_lt in Hm. rewrite Hm. reflexivity.
Qed.

Lemma renameAll_unchanged chs : forall w i,
  Forall (fun ch => unchangedPath filepath_Join ch = true) chs ->
  renameAll GOOS filepath_Dir filepath_Join World os_MkdirAll os_Rename w i chs
  = (w, chs, []).
Proof.
  induction chs as [|ch chs IH]; intros w i H; [reflexivity|].
  inversion H as [|? ? Hc Hr]; subst. simpl. rewrite Hc, (IH _ _ Hr). reflexivity.
Qed.

(** X8.  A batch in which no path changes (every joined source equals
    its joined target) makes [rename] call neither [os.MkdirAll] nor
    [os.Rename]: the world and the changes stay as they are and no
    error is recorded.  [commit] still goes on to [backup] unless the
    run is a revert. *)
Theorem rename_skips_unchanged (st : state) :
  Forall (fun ch => String.eqb (filepath_Join [BaseDir ch; Source ch])
                               (filepath_Join [BaseDir ch; Target ch]) = true)
         (matches (op World st)) ->
  world World (rename st) = world World st
  /\ matches (op World (rename st)) = matches (op World st)
  /\ errors (op World (rename st)) = []
  /\ (revert (op World st) = true ->
      (commit st).2 = None /\ world World (commit st).1 = world World st).
Proof.
  intros H.
  destruct (rename_spec GOOS filepath_Dir filepath_Join World os_MkdirAll os_Rename st)
    as [Hw Ho].
  rewrite (renameAll_unchanged _ _ _ H) in Hw, Ho. cbn [fst snd] in Hw, Ho.
  split; [exact Hw|]. split; [rewrite Ho; reflexivity|].
  split; [rewrite Ho; reflexivity|].
  intros Hr. unfold commit. rewrite Ho. cbn [errors withErrors length Nat.eqb andb].
  assert (forall b : bool,
             op World (if b then printChanges World (rename st) else rename st)
             = op World (rename st)
             /\ world World (if b then printChanges World (rename st) else rename st)
                = world World (rename st)) as Hp.
  { intros []; [apply printChanges_op_world|split; reflexivity]. }
  destruct (Hp (json (withErrors [] (withMatches (matches (op World st)) (op World st)))))
    as [Hp1 Hp2].
  rewrite Hp1, Ho. cbn [errors withErrors length Nat.ltb Nat.leb].
  change (revert (withErrors [] (withMatches (matches (op World st)) (op World st))))
    with (revert (op World st)).
  rewrite Hr. cbn [negb fst snd]. split; [reflexivity|]. rewrite Hp2. exact Hw.
Qed.

(** The name of the backup file of a working directory. *)
Definition backupName (workingDir : string) : string :=
  let dir := GoString.replaceByte (pathSeperatorByte GOOS) "_"%char workingDir in
  (if isWindows GOOS then GoString.replaceByte ":"%char "_"%char dir else dir)
  +:+ ".json".

Lemma containsByte_replaceByte c d s :
  c <> d -> GoString.containsByte c (GoString.replaceByte c d s) = false.
Proof.
  intros Hcd. induction s as [|e s IH]; [reflexivity|]. simpl.
  rewrite IH, orb_false_r. destruct (Ascii.eqb_spec c e) as [->|Hne].
  - apply Ascii.eqb_neq. exact Hcd.
  - apply Ascii.eqb_neq. exact Hne.
Qed.

Lemma containsByte_replaceByte_other c a d s :
  c <> d ->
  GoString.containsByte c s = false ->
  GoString.containsByte c (GoString.replaceByte a d s) = false.
Proof.
  intros Hcd. induction s as [|e s IH]; [reflexivity|]. simpl.
  intros H. apply orb_false_iff in H as [He Hs]. rewrite (IH Hs), orb_false_r.
  destruct (Ascii.eqb a e); [apply Ascii.eqb_neq; exact Hcd|exact He].
Qed.

Lemma containsByte_append c a b :
  GoString.containsByte c (a +:+ b)
  = GoString.containsByte c a || GoString.containsByte c b.
Proof.
  induction a as [|d a IH]; [reflexivity|].
  rewrite append_String. simpl. rewrite IH, orb_assoc. reflexivity.
Qed.

(** X9.  [backup] writes to, and [retrieveBackupFile] looks for, the
    same data file [f2/backups/<name>] of the working directory.  The
    name is flat: it holds no path separator (and on Windows no
    colon), so working directories that differ only in separators
    against underscores share one backup file. *)
Theorem backup_file_of_working_dir (st : state) :
  let path := filepath_Join ["f2"; "backups"; backupName (workingDir (op World st))] in
  retrieveBackupFile st = xdg_SearchDataFile (world World st) path
  /\ backup st
     = (match xdg_DataFile (world World st) path with
        | (w, inr e) => (withWorld World w st, Some (osError e))
        | (w, inl file) =>
            writeToFile World os_WriteJSON file (withWorld World w st)
        end)
  /\ GoString.containsByte (pathSeperatorByte GOOS)
                           (backupName (workingDir (op World st))) = false
  /\ (isWindows GOOS = true ->
      GoString.containsByte ":"%char (backupName (workingDir (op World st))) = false)
  /\ (forall wd,
         GoString.replaceByte (pathSeperatorByte GOOS) "_"%char wd
         = GoString.replaceByte (pathSeperatorByte GOOS) "_"%char
                                (workingDir (op World st)) ->
         backupName wd = backupName (workingDir (op World st))).
Proof.
  intros path. split; [reflexivity|]. split.
  { unfold backup. fold (backupName (workingDir (op World st))). fold path.
    destruct (xdg_DataFile (world World st) path) as [w [f|e]]; reflexivity. }
  assert (pathSeperatorByte GOOS <> "_"%char) as Hsep
      by (unfold pathSeperatorByte; destruct (isWindows GOOS); discriminate).
  split; [|split].
  - unfold backupName. rewrite containsByte_append.
    assert (GoString.containsByte (pathSeperatorByte GOOS) ".json" = false) as ->
        by (unfold pathSeperatorByte; destruct (isWindows GOOS); reflexivity).
    rewrite orb_false_r. destruct (isWindows GOOS).
    + apply containsByte_replaceByte_other; [exact Hsep|].
      apply containsByte_replaceByte. exact Hsep.
    + apply containsByte_replaceByte. exact Hsep.
  - intros Hw. unfold backupName. rewrite Hw, containsByte_append.
    rewrite containsByte_replaceByte by discriminate. reflexivity.
  - intros wd Hwd. unfold backupName. rewrite Hwd. reflexivity.
Qed.

End PipelineExtras.

Lemma apply_dry_run_keeps_world_witness :
  exists st',
    Sim.apply 20 (mkState Sim.World
                    (operation [change "conflicts" "abc.txt" "123.txt";
                                change "conflicts" "xyz.txt" "123.txt"] true)
                    (Sim.mkWorld conflictsDir []) [])
    = Ok (st', None)
    /\ map Target (matches (op Sim.World st')) = ["123 (2).txt"; "123 (4).txt"]
    /\ world Sim.World st' = Sim.mkWorld conflictsDir [].
Proof.
  eexists. split; [vm_compute; reflexivity|]. split; [vm_compute; reflexivity|].
  refine (proj1 (apply_dry_run_keeps_world Linux Filepath.Unix.Base Filepath.Unix.Ext Filepath.Unix.Dir
            Filepath.Unix.Join Linux.EqualFold Linux.rangeKeys Sim.World Sim.Stat Sim.MkdirAll
            Sim.Rename Sim.DataFile Sim.WriteJSON Sim.ReadString Sim.sortMatches 20%nat
            (mkState Sim.World
               (operation [change "conflicts" "abc.txt" "123.txt";
                           change "conflicts" "xyz.txt" "123.txt"] true)
               (Sim.mkWorld conflictsDir []) []) _ None _ _)).
  - reflexivity.
  - vm_compute. reflexivity.
Defined.

Section MatchingFacts.

Variable filepath_Base : string -> string.
Variable filepath_Ext : string -> string.
Variable filepath_Join : list string -> string.
Variable strings_EqualFold : string -> string -> bool.
Variable filepath_Abs : string -> string + string.
Variable regexp_Compile : string -> option string.
Variable regexp_MatchString : string -> string -> bool.
Variable isHidden : string -> string -> bool + string.
Variable replace : Search -> Operation -> Search * Operation * option string.

Local Abbreviation selects :=
  (selects filepath_Base filepath_Ext filepath_Join strings_EqualFold filepath_Abs
           regexp_MatchString isHidden).
Local Abbreviation findMatchesLoop :=
  (findMatchesLoop filepath_Base filepath_Ext filepath_Join strings_EqualFold
                   filepath_Abs regexp_MatchString isHidden).
Local Abbreviation findMatches :=
  (findMatches filepath_Base filepath_Ext filepath_Join strings_EqualFold
               filepath_Abs regexp_MatchString isHidden).
Local Abbreviation filterMatches := (filterMatches regexp_Compile regexp_MatchString).
Local Abbreviation removeHidden := (removeHidden isHidden).

(** The name [findMatches] tries the expression on. *)
Definition matchedName (s : Search) (ch : Change) : string :=
  let filename := filepath_Base (Source ch) in
  if ignoreExt s && negb (IsDir ch)
  then FilenameWithoutExtension filepath_Ext filename else filename.

(** What every path selected by [findMatches] satisfies. *)
Definition eligible (s : Search) (op : Operation) (ch : Change) : Prop :=
  (IsDir ch = true -> includeDir op = true)
  /\ (onlyDir s = true -> IsDir ch = true)
  /\ regexp_MatchString (searchRegex s) (matchedName s ch) = true.

Definition eligibleb (s : Search) (op : Operation) (ch : Change) : bool :=
  (negb (IsDir ch) || includeDir op) && (negb (onlyDir s) || IsDir ch)
  && regexp_MatchString (searchRegex s) (matchedName s ch).

Lemma selects_true s op ch : selects s op ch = inl true -> eligible s op ch.
Proof.
  unfold selects, eligible. fold (matchedName s ch).
  destruct (IsDir ch && negb (includeDir op)) eqn:E1; [discriminate|].
  destruct (onlyDir s && negb (IsDir ch)) eqn:E2; [discriminate|].
  intros H.
  assert (regexp_MatchString (searchRegex s) (matchedName s ch) = true) as Hm.
  { destruct (negb (includeHidden s)); [|congruence].
    destruct (isHidden _ _) as [[]|]; [|congruence|discriminate].
    destruct (filepath_Abs _); [|discriminate].
    destruct (shouldSkip _ _ _ _ _) as [[]|]; congruence. }
  split; [|split; [|exact Hm]].
  - intros Hd. rewrite Hd in E1. destruct (includeDir op); [reflexivity|discriminate].
  - intros Ho. rewrite Ho in E2. destruct (IsDir ch); [reflexivity|discriminate].
Qed.

Lemma selects_includeDir s op m ch :
  selects s (withMatches m op) ch = selects s op ch.
Proof. reflexivity. Qed.

Lemma selects_hidden s op ch :
  includeHidden s = true -> selects s op ch = inl (eligibleb s op ch).
Proof.
  intros Hh. unfold selects, eligibleb, matchedName. rewrite Hh.
  destruct (IsDir ch), (includeDir op), (onlyDir s); reflexivity.
Qed.

Lemma findMatchesLoop_spec s todo : forall op op' err,
  findMatchesLoop s todo op = (op', err) ->
  exists sel,
    op' = withMatches (matches op ++ sel) op
    /\ sel `sublist_of` todo
    /\ Forall (eligible s op) sel.
Proof.
  induction todo as [|ch rest IH]; intros op op' err H; simpl in H.
  - inversion H; subst. exists []. rewrite app_nil_r, withMatches_id.
    split; [reflexivity|]. split; [constructor|constructor].
  - destruct (selects s op ch) as [[]|e] eqn:E.
    + apply IH in H as (sel & -> & Hsub & Hall). exists (ch :: sel).
      split; [simpl; rewrite <- app_assoc; reflexivity|].
      split; [constructor; exact Hsub|].
      constructor; [apply selects_true; exact E|exact Hall].
    + apply IH in H as (sel & -> & Hsub & Hall). exists sel.
      split; [reflexivity|]. split; [constructor; exact Hsub|exact Hall].
    + inversion H; subst. exists []. rewrite app_nil_r, withMatches_id.
      split; [reflexivity|]. split; [apply sublist_nil_l|constructor].
Qed.

Lemma findMatchesLoop_hidden s todo : forall op,
  includeHidden s = true ->
  findMatchesLoop s todo op
  = (withMatches (matches op ++ List.filter (eligibleb s op) todo) op, None).
Proof.
  induction todo as [|ch rest IH]; intros op Hh; simpl.
  - rewrite app_nil_r, withMatches_id. reflexivity.
  - rewrite (selects_hidden s op ch Hh). destruct (eligibleb s op ch) eqn:E.
    + rewrite (IH _ Hh). simpl. rewrite <- app_assoc. reflexivity.
    + apply (IH _ Hh).
Qed.

(** X10.  [findMatches] only ever appends to [op.matches], and what it
    appends is a sub-list of [op.paths] in their order (also when it
    stops on an error); every appended path is a directory only if
    directories are included, is a directory if only directories are
    asked for, and has the expression matching its base name (without
    the extension under [ignoreExt], for a file).  When hidden files
    are included it cannot fail and appends exactly those paths. *)
Theorem findMatches_appends_eligible_paths s op :
  (forall op' err,
      findMatches s op = (op', err) ->
      exists sel,
        op' = withMatches (matches op ++ sel) op
        /\ sel `sublist_of` paths s
        /\ Forall (eligible s op) sel)
  /\ (includeHidden s = true ->
      findMatches s op
      = (withMatches (matches op ++ List.filter (eligibleb s op) (paths s)) op, None)).
Proof.
  split.
  - intros op' err. apply findMatchesLoop_spec.
  - apply findMatchesLoop_hidden.
Qed.

Lemma filterLoop_spec pattern todo : forall filtered,
  filterLoop regexp_MatchString pattern todo filtered
  = filtered ++ List.filter (fun ch => negb (regexp_MatchString pattern (Source ch))) todo.
Proof.
  induction todo as [|ch rest IH]; intros filtered; simpl.
  - rewrite app_nil_r. reflexivity.
  - rewrite IH. destruct (regexp_MatchString pattern (Source ch)); simpl;
      [reflexivity|rewrite <- app_assoc; reflexivity].
Qed.

Lemma filter_sublist {A : Type} (f : A -> bool) l : List.filter f l `sublist_of` l.
Proof.
  induction l as [|x l IH]; simpl; [constructor|].
  destruct (f x); constructor; exact IH.
Qed.

Lemma filter_idem {A : Type} (f : A -> bool) l :
  List.filter f (List.filter f l) = List.filter f l.
Proof.
  induction l as [|x l IH]; simpl; [reflexivity|].
  destruct (f x) eqn:E; simpl; [rewrite E, IH; reflexivity|exact IH].
Qed.

(** X11.  [filterMatches] leaves the operation alone when the exclude
    patterns do not compile; otherwise it keeps, in their order,
    exactly the matches whose [Source] the joined pattern does not
    match, and filtering again changes nothing. *)
Theorem filterMatches_keeps_unmatched s op :
  let pattern := GoString.join (excludeFilter s) "|" in
  (forall err, regexp_Compile pattern = Some err ->
               filterMatches s op = (op, Some err))
  /\ (regexp_Compile pattern = None ->
      exists op',
        filterMatches s op = (op', None)
        /\ op' = withMatches (matches op') op
        /\ matches op' `sublist_of` matches op
        /\ (forall ch, In ch (matches op')
                       <-> In ch (matches op)
                           /\ regexp_MatchString pattern (Source ch) = false)
        /\ filterMatches s op' = (op', None)).
Proof.
  intros pattern. unfold filterMatches. fold pattern. split.
  - intros err ->. reflexivity.
  - intros ->. eexists. split; [reflexivity|].
    rewrite filterLoop_spec. cbn [app matches withMatches].
    split; [reflexivity|]. split; [apply filter_sublist|]. split.
    + intros ch. rewrite filter_In, negb_true_iff. reflexivity.
    + rewrite filterLoop_spec. cbn [app]. rewrite filter_idem. reflexivity.
Qed.

Lemma removeHiddenLoop_spec de baseDir : forall ret,
  match removeHiddenLoop isHidden de baseDir ret with
  | inl ret' =>
      Forall (fun e => exists r, isHidden (Name e) baseDir = inl r) de
      /\ ret' = ret ++ List.filter
                         (fun e => match isHidden (Name e) baseDir with
                                   | inl false => true | _ => false end) de
  | inr err =>
      exists pre e post,
        de = pre ++ e :: post
        /\ isHidden (Name e) baseDir = inr err
        /\ Forall (fun e => exists r, isHidden (Name e) baseDir = inl r) pre
  end.
Proof.
  induction de as [|e rest IH]; intros ret; simpl.
  - split; [constructor|rewrite app_nil_r; reflexivity].
  - destruct (isHidden (Name e) baseDir) as [r|err] eqn:E.
    + specialize (IH (if r then ret else ret ++ [e])).
      destruct (removeHiddenLoop _ _ _ _) as [ret'|err].
      * destruct IH as [Hall ->]. split; [constructor; [eauto|exact Hall]|].
        destruct r; [reflexivity|rewrite <- app_assoc; reflexivity].
      * destruct IH as (pre & e' & post & -> & He & Hpre).
        exists (e :: pre), e', post. split; [reflexivity|]. split; [exact He|].
        constructor; [eauto|exact Hpre].
    + exists [], e, rest. split; [reflexivity|]. split; [exact E|constructor].
Qed.

(** X12.  [removeHidden] returns, in their order, exactly the entries
    that [isHidden] reports as not hidden, provided [isHidden] fails
    on none; otherwise it returns the error of the first entry it
    fails on and no entry at all. *)
Theorem removeHidden_first_error_or_visible de baseDir :
  match removeHidden de baseDir with
  | inl ret =>
      Forall (fun e => exists r, isHidden (Name e) baseDir = inl r) de
      /\ ret = List.filter (fun e => match isHidden (Name e) baseDir with
                                     | inl false => true | _ => false end) de
  | inr err =>
      exists pre e post,
        de = pre ++ e :: post
        /\ isHidden (Name e) baseDir = inr err
        /\ Forall (fun e => exists r, isHidden (Name e) baseDir = inl r) pre
  end.
Proof. apply (removeHiddenLoop_spec de baseDir []). Qed.

End MatchingFacts.

Section OptionFacts.

Variable regexp_Compile : string -> option string.
Variable replace : Search -> Operation -> Search * Operation * option string.

Local Abbreviation setFindStringRegex := (setFindStringRegex regexp_Compile).
Local Abbreviation setOptions := (setOptions regexp_Compile).
Local Abbreviation setSimpleModeOptions := (setSimpleModeOptions regexp_Compile).
Local Abbreviation replacementLoop := (replacementLoop regexp_Compile replace).
Local Abbreviation handleReplacementChain :=
  (handleReplacementChain regexp_Compile replace).

Lemma padReplacements_spec n : forall fuel s,
  (length (findSlice s) - length (replacementSlice s) <= n)%nat ->
  (n < fuel)%nat ->
  padReplacements fuel s
  = Ok (withReplacementSlice
          (replacementSlice s
           ++ repeat "" (length (findSlice s) - length (replacementSlice s))) s).
Proof.
  induction n as [|n IH]; intros fuel s Hn Hf; (destruct fuel as [|fuel]; [lia|]);
    simpl.
  - destruct (Nat.ltb_spec (length (replacementSlice s)) (length (findSlice s)));
      [lia|].
    replace (length (findSlice s) - length (replacementSlice s))%nat with 0%nat by lia.
    simpl. rewrite app_nil_r. destruct s; reflexivity.
  - destruct (Nat.ltb_spec (length (replacementSlice s)) (length (findSlice s)))
      as [Hlt|Hge].
    + rewrite IH; [|simpl; rewrite length_app; simpl; lia|lia].
      simpl. rewrite length_app. simpl.
      replace (length (findSlice s) - length (replacementSlice s))%nat
        with (S (length (findSlice s) - (length (replacementSlice s) + 1)))%nat by lia.
      simpl. rewrite <- app_assoc. reflexivity.
    + replace (length (findSlice s) - length (replacementSlice s))%nat with 0%nat by lia.
      simpl. rewrite app_nil_r. destruct s; reflexivity.
Qed.

(** X13.  [setOptions] refuses the command line with
    [errInvalidArgument], touching nothing, exactly when no find
    string, no replacement, no CSV file and no undo is given.
    Otherwise it returns (the fuel need only exceed the number of find
    strings) with every find string paired with a replacement: the
    replacements given, followed by as many empty strings as are
    missing; only-directories implies include-directories; [--sort]
    wins over [--sortr]; and the error, if any, is that of compiling
    the first pattern. *)
Theorem setOptions_pairs_find_and_replace fuel c s op :
  let nothing := (length (flagFind c) =? 0)%nat && (length (flagReplace c) =? 0)%nat
                 && String.eqb (flagCsv c) "" && negb (flagUndo c) in
  (nothing = true -> setOptions fuel c (s, op) = Ok (s, op, Some errInvalidArgument))
  /\ (nothing = false ->
      (length (flagFind c) < fuel)%nat ->
      exists s' op' err,
        setOptions fuel c (s, op) = Ok (s', op', err)
        /\ err <> Some errInvalidArgument
        /\ findSlice s' = flagFind c
        /\ replacementSlice s'
           = flagReplace c
             ++ repeat "" (length (flagFind c) - length (flagReplace c))
        /\ (length (findSlice s') <= length (replacementSlice s'))%nat
        /\ (onlyDir s' = true -> includeDir op' = true)
        /\ includeDir op' = flagIncludeDir c || flagOnlyDir c
        /\ sort op' = (if negb (String.eqb (flagSort c) "") then flagSort c
                       else if negb (String.eqb (flagSortr c) "") then flagSortr c
                            else sort op)
        /\ reverseSort s'
           = (if String.eqb (flagSort c) "" && negb (String.eqb (flagSortr c) "")
              then true else reverseSort s)
        /\ revert op' = flagUndo c /\ exec op' = flagExec c
        /\ matches op' = matches op /\ conflicts op' = conflicts op
        /\ err = option_map errRegex (regexp_Compile (findPattern s' 0))).
Proof.
  intros nothing. unfold setOptions. fold nothing. split.
  - intros ->. reflexivity.
  - intros -> Hfuel. cbn [setDefaultOpts].
    rewrite (padReplacements_spec (length (flagFind c))); [|simpl; lia|exact Hfuel].
    cbn [rbind findSlice replacementSlice withReplacementSlice].
    unfold setFindStringRegex.
    match goal with |- context [regexp_Compile ?p] => set (pat := p) end.
    destruct (regexp_Compile pat) as [e|] eqn:E.
    + do 3 eexists. split; [reflexivity|].
      split; [discriminate|]. split; [reflexivity|]. split; [reflexivity|].
      split; [simpl; rewrite length_app, repeat_length; lia|]. split; [intros H; simpl in H; simpl; rewrite H; reflexivity|].
      split; [simpl; destruct (flagOnlyDir c), (flagIncludeDir c); reflexivity|].
      split; [simpl; destruct (String.eqb (flagSort c) ""); reflexivity|].
      split; [simpl; destruct (String.eqb (flagSort c) ""); reflexivity|].
      repeat (split; [reflexivity|]). fold pat. rewrite E. reflexivity.
    + do 3 eexists. split; [reflexivity|].
      split; [discriminate|]. split; [reflexivity|]. split; [reflexivity|].
      split; [simpl; rewrite length_app, repeat_length; lia|]. split; [intros H; simpl in H; simpl; rewrite H; reflexivity|].
      split; [simpl; destruct (flagOnlyDir c), (flagIncludeDir c); reflexivity|].
      split; [simpl; destruct (String.eqb (flagSort c) ""); reflexivity|].
      split; [simpl; destruct (String.eqb (flagSort c) ""); reflexivity|].
      repeat (split; [reflexivity|]).
      change (findPattern (withSearchRegex pat _) 0) with pat. rewrite E. reflexivity.
Qed.

(** X14.  In simple mode no argument at all is refused with
    [errInvalidSimpleModeArgs], touching nothing.  Otherwise the first
    argument is the one find string, the second one (the empty string
    when it is missing) the one replacement, the arguments after the
    second replace the paths only if there are any; and the run is
    always executed, in simple mode, with directories included,
    whatever the flags say. *)
Theorem simple_mode_options c s op :
  (flagArgs c = [] ->
   setSimpleModeOptions c (s, op) = (s, op, Some errInvalidSimpleModeArgs))
  /\ (forall arg0 rest,
         flagArgs c = arg0 :: rest ->
         exists s' op' err,
           setSimpleModeOptions c (s, op) = (s', op', err)
           /\ err <> Some errInvalidSimpleModeArgs
           /\ findSlice s' = [arg0]
           /\ replacementSlice s' = [hd "" rest]
           /\ pathsToFilesOrDirs s'
              = (match rest with
                 | _ :: (_ :: _) as given => given
                 | _ => pathsToFilesOrDirs s
                 end)
           /\ exec op' = true /\ simpleMode op' = true /\ includeDir op' = true
           /\ matches op' = matches op
           /\ err = option_map errRegex (regexp_Compile (findPattern s' 0))).
Proof.
  split.
  - intros H. unfold setSimpleModeOptions. rewrite H. reflexivity.
  - intros arg0 rest H. unfold setSimpleModeOptions. rewrite H.
    cbn [setDefaultOpts]. unfold setFindStringRegex.
    match goal with |- context [regexp_Compile ?p] => set (pat := p) end.
    assert (forall re s0, findPattern (withSearchRegex re s0) 0 = findPattern s0 0) as Hre
        by reflexivity.
    destruct rest as [|arg1 [|arg2 more]]; cbn [length Nat.eqb Nat.ltb Nat.leb] in *;
      destruct (regexp_Compile pat) as [e|] eqn:E;
      do 3 eexists; (split; [reflexivity|]); (split; [discriminate|]);
      repeat (split; [reflexivity|]); rewrite ?Hre; fold pat; rewrite E; reflexivity.
Qed.

Lemma relink_last i (ch : Change) :
  (0 < i)%nat ->
  Source (relink i (Z.of_nat i) ch) = originalSource (relink i (Z.of_nat i) ch).
Proof.
  intros Hi. unfold relink. rewrite Z.eqb_refl.
  destruct (Nat.ltb_spec 0 i); [|lia]. reflexivity.
Qed.

Lemma relink_single (ch : Change) : relink 0 0 ch = ch.
Proof. reflexivity. Qed.

Hypothesis replace_keeps_slice :
  forall s op, replacementSlice (replace s op).1.1 = replacementSlice s.

Lemma replacementLoop_restores todo : forall i s op s' op',
  length (replacementSlice s) = (i + length todo)%nat ->
  (2 <= length (replacementSlice s))%nat -> todo <> [] ->
  replacementLoop todo i s op = (s', op', None) ->
  Forall (fun ch => Source ch = originalSource ch) (matches op').
Proof.
  induction todo as [|v rest IH]; intros i s op s' op' Hlen Hn Hne H; [congruence|].
  simpl in H.
  pose proof (replace_keeps_slice (withReplacement v s) op) as Hk.
  destruct (replace (withReplacement v s) op) as [[s1 o1] [e|]]; [discriminate|].
  cbn [fst] in Hk. simpl in Hk, Hlen. rewrite <- Hk in Hlen, Hn.
  destruct rest as [|v' rest'].
  - simpl in Hlen, H.
    assert (Z.of_nat i = Z.of_nat (length (replacementSlice s1)) - 1) as Hi by lia.
    rewrite <- Hi, Z.eqb_refl in H. cbn [negb] in H. inversion H; subst.
    cbn [matches withMatches]. apply Forall_map, Forall_forall. intros ch _.
    apply relink_last. lia.
  - destruct (negb _).
    + destruct (setFindStringRegex (S i) s1) as [s2 [e|]] eqn:E2; [discriminate|].
      apply IH in H; [exact H| | |discriminate].
      * unfold setFindStringRegex in E2.
        destruct (regexp_Compile _); inversion E2; subst. simpl in *. lia.
      * unfold setFindStringRegex in E2.
        destruct (regexp_Compile _); inversion E2; subst. simpl in *. lia.
    + apply IH in H; [exact H|simpl in *; lia|lia|discriminate].
Qed.

(** X15.  Provided [op.replace] leaves [op.replacementSlice] alone: a
    chain of two or more replacements that ends without error leaves
    every match with its [Source] equal to its [originalSource]; a
    single replacement is [op.replace] on its own, the sources as it
    left them; an empty chain does nothing. *)
Theorem replacement_chain_restores_sources s op :
  (forall s' op',
      (2 <= length (replacementSlice s))%nat ->
      handleReplacementChain s op = (s', op', None) ->
      Forall (fun ch => Source ch = originalSource ch) (matches op'))
  /\ (forall v,
         replacementSlice s = [v] ->
         handleReplacementChain s op = replace (withReplacement v s) op)
  /\ (replacementSlice s = [] -> handleReplacementChain s op = (s, op, None)).
Proof.
  split; [|split].
  - intros s' op' Hn H. unfold handleReplacementChain in H.
    eapply replacementLoop_restores; [| |
      |exact H]; [reflexivity|exact Hn|].
    destruct (replacementSlice s); [simpl in Hn; lia|discriminate].
  - intros v Hv. unfold handleReplacementChain. rewrite Hv. simpl.
    pose proof (replace_keeps_slice (withReplacement v s) op) as Hk.
    destruct (replace (withReplacement v s) op) as [[s1 o1] [e|]]; [reflexivity|].
    cbn [fst] in Hk. simpl in Hk. rewrite Hk, Hv. simpl.
    rewrite (map_ext _ (fun ch => ch) relink_single), map_id, withMatches_id.
    reflexivity.
  - intros Hv. unfold handleReplacementChain. rewrite Hv. reflexivity.
Qed.

End OptionFacts.

Section PathFacts.

Variable filepath_Clean : string -> string.
Variable filepath_Dir : string -> string.
Variable os_StatInfo : string -> FileInfo + string.
Variable os_ReadDir : string -> list DirEntry + string.

Local Abbreviation pathsLoop :=
  (pathsLoop filepath_Clean filepath_Dir os_StatInfo os_ReadDir).
Local Abbreviation collectPaths :=
  (collectPaths filepath_Clean filepath_Dir os_StatInfo os_ReadDir).

(** No two entries of any directory carry the same name. *)
Definition distinctNames (paths : gmap string (list DirEntry)) : Prop :=
  forall dir entries, paths !! dir = Some entries -> NoDup (map Name entries).

Lemma hasName_false name entries :
  hasName name entries = false -> name ∉ map Name entries.
Proof.
  unfold hasName. intros H Hin. apply list_elem_of_fmap in Hin as (e & -> & He).
  assert (existsb (fun e0 => String.eqb (Name e0) (Name e)) entries = true) as Ht.
  { apply existsb_exists. exists e. split; [apply list_elem_of_In; exact He|].
    apply String.eqb_refl. }
  congruence.
Qed.

Lemma entryLoop_distinct dir name dirEntry : forall paths,
  distinctNames paths -> distinctNames (entryLoop dir name dirEntry paths).
Proof.
  induction dirEntry as [|entry rest IH]; intros paths Hd; simpl; [exact Hd|].
  destruct (String.eqb_spec (Name entry) name) as [Hn|_]; [|apply IH; exact Hd].
  destruct (hasName name (default [] (paths !! dir))) eqn:Hh; [exact Hd|].
  intros d entries Hl. destruct (decide (dir = d)) as [->|Hne].
  - rewrite lookup_insert_eq in Hl. injection Hl as <-.
    rewrite map_app. simpl. apply NoDup_app. split; [|split].
    + destruct (paths !! d) as [l|] eqn:E; [apply (Hd d l E)|constructor].
    + intros x Hx Hx'. apply list_elem_of_singleton in Hx'. subst x.
      apply hasName_false in Hh. rewrite Hn in Hx. contradiction.
    + apply NoDup_singleton.
  - rewrite lookup_insert_ne in Hl by exact Hne. apply (Hd d entries Hl).
Qed.

Hypothesis listings_distinct :
  forall dir entries, os_ReadDir dir = inl entries -> NoDup (map Name entries).

Lemma pathsLoop_distinct given : forall paths paths',
  distinctNames paths -> pathsLoop given paths = inl paths' -> distinctNames paths'.
Proof.
  induction given as [|path rest IH]; intros paths paths' Hd H; simpl in H.
  - injection H as <-. exact Hd.
  - destruct (bool_decide _); [apply (IH _ _ Hd H)|].
    destruct (os_StatInfo _) as [info|]; [|discriminate].
    destruct (infoIsDir info).
    + destruct (os_ReadDir _) as [entries|] eqn:E; [|discriminate].
      apply (IH _ _) in H; [exact H|].
      intros d l Hl. destruct (decide (filepath_Clean path = d)) as [Heq|Hne]; [subst d|].
      * rewrite lookup_insert_eq in Hl. injection Hl as <-.
        apply (listings_distinct _ _ E).
      * rewrite lookup_insert_ne in Hl by exact Hne. apply (Hd d l Hl).
    + destruct (os_ReadDir _) as [dirEntry|]; [|discriminate].
      apply (IH _ _) in H; [exact H|]. apply entryLoop_distinct. exact Hd.
Qed.

(** X16.  As long as [os.ReadDir] lists no name twice, the paths
    [newOperation] collects from the command line hold no name twice
    in any directory, however often a file or its directory is given;
    with nothing collected, the current directory is read; and a
    directory that is given after one of its own files is passed
    over: only the files named before it are entered. *)
Theorem collected_paths_hold_no_duplicates given :
  (forall paths, collectPaths given = inl paths -> distinctNames paths)
  /\ (pathsLoop given ∅ = inl ∅ ->
      collectPaths given
      = match os_ReadDir "." with
        | inl entries => inl {["." := entries]}
        | inr err => inr err
        end)
  /\ (forall file dir info listing entry,
         filepath_Clean file = file -> filepath_Clean dir = dir ->
         filepath_Dir file = dir ->
         os_StatInfo file = inl info -> infoIsDir info = false ->
         os_ReadDir dir = inl listing ->
         In entry listing -> Name entry = infoName info ->
         exists only,
           pathsLoop [file; dir] ∅ = inl {[dir := [only]]}
           /\ Name only = infoName info).
Proof.
  split; [|split].
  - intros paths H. unfold collectPaths in H.
    destruct (pathsLoop given ∅) as [p|] eqn:E; [|discriminate].
    apply pathsLoop_distinct in E; [|intros d l Hl; rewrite lookup_empty in Hl; discriminate].
    destruct (size p =? 0)%nat; [|injection H as <-; exact E].
    destruct (os_ReadDir ".") as [entries|] eqn:Er; [|discriminate].
    injection H as <-. intros d l Hl.
    destruct (decide ("." = d)) as [<-|Hne].
    + rewrite lookup_insert_eq in Hl. injection Hl as <-.
      apply (listings_distinct _ _ Er).
    + rewrite lookup_insert_ne in Hl by exact Hne. apply (E d l Hl).
  - intros H. unfold collectPaths. rewrite H. rewrite map_size_empty. simpl.
    destruct (os_ReadDir "."); reflexivity.
  - intros file dir info listing entry Hcf Hcd Hdir Hstat Hnd Hread Hin Hname.
    assert (exists only,
               entryLoop dir (infoName info) listing ∅ = {[dir := [only]]}
               /\ Name only = infoName info) as (only & Hloop & Hon).
    { clear Hread. induction listing as [|e l IH]; [destruct Hin|]. simpl.
      destruct (String.eqb_spec (Name e) (infoName info)) as [He|He].
      - rewrite lookup_empty. simpl. exists e. split; [reflexivity|exact He].
      - destruct Hin as [->|Hin]; [congruence|]. apply IH. exact Hin. }
    exists only. split; [|exact Hon].
    cbn [pathsLoop]. cbv zeta. rewrite Hcf, lookup_empty.
    rewrite bool_decide_eq_false_2 by (intros [x Hx]; discriminate).
    rewrite Hstat, Hnd, Hdir, Hread, Hloop, Hcd.
    rewrite bool_decide_eq_true_2; [reflexivity|].
    rewrite lookup_singleton_eq. eauto.
Qed.

End PathFacts.

(** ** Concrete runs *)

(** Two renames of which the second cannot succeed, executed. *)
Definition stOneFails : state Sim.World :=
  mkState Sim.World
          (mkOperation ∅ "" "/home/u"
                       [change "d" "a.txt" "1.txt"; change "d" "gone.txt" "2.txt"]
                       [] false false false false false false true false false)
          (Sim.mkWorld ["d/a.txt"] []) [].

Lemma commit_reports_failures_witness :
  errors (op Sim.World (Sim.rename stOneFails)) = [1%nat]
  /\ (Sim.commit stOneFails).2 = Some (errorString "Some files could not be renamed.")
  /\ Sim.backups (world Sim.World (Sim.commit stOneFails).1)
     = [("/data/f2/backups/_home_u.json",
         matches (op Sim.World (Sim.rename stOneFails)))].
Proof.
  split; [vm_compute; reflexivity|]. split; [|vm_compute; reflexivity].
  unfold Sim.commit.
  rewrite (commit_reports_failures Linux Filepath.Unix.Dir Filepath.Unix.Join
             Sim.World Sim.MkdirAll Sim.Rename Sim.DataFile Sim.WriteJSON stOneFails).
  - vm_compute. reflexivity.
  - vm_compute. discriminate.
Defined.

(** A revert in which nothing changes its name. *)
Definition stSameNames : state Sim.World :=
  mkState Sim.World
          (mkOperation ∅ "" "/home/u"
                       [change "d" "a.txt" "a.txt"; change "d" "b.txt" "./b.txt"]
                       [] true false false false false false true false false)
          (Sim.mkWorld ["d/a.txt"; "d/b.txt"] []) [].

Lemma rename_skips_unchanged_witness :
  Forall (fun ch => String.eqb (Filepath.Unix.Join [BaseDir ch; Source ch])
                               (Filepath.Unix.Join [BaseDir ch; Target ch]) = true)
         (matches (op Sim.World stSameNames))
  /\ world Sim.World (Sim.rename stSameNames) = world Sim.World stSameNames
  /\ errors (op Sim.World (Sim.rename stSameNames)) = []
  /\ (Sim.commit stSameNames).2 = None.
Proof.
  assert (Forall (fun ch => String.eqb (Filepath.Unix.Join [BaseDir ch; Source ch])
                               (Filepath.Unix.Join [BaseDir ch; Target ch]) = true)
                 (matches (op Sim.World stSameNames))) as H
      by (repeat constructor).
  split; [exact H|].
  destruct (rename_skips_unchanged Linux Filepath.Unix.Dir Filepath.Unix.Join
              Sim.World Sim.MkdirAll Sim.Rename Sim.DataFile Sim.WriteJSON
              stSameNames H) as (Hw & _ & He & Hc).
  split; [exact Hw|]. split; [exact He|]. apply (Hc eq_refl).
Defined.

Lemma backup_file_of_working_dir_witness :
  backupName Linux "/home/u" = "_home_u.json"
  /\ backupName Linux "/home_u" = "_home_u.json"
  /\ backupName Windows "C:\Users\u" = "C__Users_u.json"
  /\ Sim.DataFile (world Sim.World stOneFails) "f2/backups/_home_u.json"
     = (world Sim.World stOneFails, inl "/data/f2/backups/_home_u.json")
  /\ backup Linux Filepath.Unix.Join Sim.World Sim.DataFile Sim.WriteJSON stOneFails
     = writeToFile Sim.World Sim.WriteJSON "/data/f2/backups/_home_u.json" stOneFails.
Proof.
  split; [reflexivity|]. split; [reflexivity|]. split; [reflexivity|].
  split; [reflexivity|].
  destruct (backup_file_of_working_dir Linux Filepath.Unix.Join Sim.World Sim.DataFile
              Sim.SearchDataFile Sim.WriteJSON stOneFails) as (_ & Hb & _).
  rewrite Hb. reflexivity.
Defined.

(** A directory, a visible file, a file that does not match and a
    hidden file. *)
Definition candidates : list Change :=
  [mkChange "pics" statusUnset "d" "pics" "" "" [] 0 true false;
   change "d" "pic1.jpg" ""; change "d" "notes.txt" ""; change "d" ".pic2.jpg" ""].

Lemma findMatches_appends_eligible_paths_witness :
  findMatches Filepath.Unix.Base Filepath.Unix.Ext Filepath.Unix.Join Linux.EqualFold
              SimSearch.Abs SimSearch.MatchString SimSearch.isHidden
              (SimSearch.search ["pic"] [""] candidates) (operation [] false)
  = (operation [change "d" "pic1.jpg" ""] false, None)
  /\ exists sel,
       operation [change "d" "pic1.jpg" ""] false
       = withMatches ([] ++ sel) (operation [] false)
       /\ sel `sublist_of` candidates
       /\ Forall (eligible Filepath.Unix.Base Filepath.Unix.Ext SimSearch.MatchString
                           (SimSearch.search ["pic"] [""] candidates)
                           (operation [] false)) sel.
Proof.
  split; [vm_compute; reflexivity|].
  apply (proj1 (findMatches_appends_eligible_paths
                  Filepath.Unix.Base Filepath.Unix.Ext Filepath.Unix.Join
                  Linux.EqualFold SimSearch.Abs SimSearch.MatchString
                  SimSearch.isHidden (SimSearch.search ["pic"] [""] candidates)
                  (operation [] false))
               (operation [change "d" "pic1.jpg" ""] false) None).
  vm_compute. reflexivity.
Defined.

Definition excluding (patterns : list string) : Search :=
  mkSearch ".*" "" "" [] patterns [] [] [] 0 0
           false false false false false false false.

Lemma filterMatches_keeps_unmatched_witness :
  SimSearch.Compile (GoString.join ["tmp"] "|") = None
  /\ exists op',
       filterMatches SimSearch.Compile SimSearch.MatchString (excluding ["tmp"])
                     (operation [change "d" "a.txt" "1.txt"; change "d" "b.tmp" "2.tmp";
                                 change "d" "c.txt" "3.txt"] false)
       = (op', None)
       /\ map Source (matches op') = ["a.txt"; "c.txt"]
       /\ filterMatches SimSearch.Compile SimSearch.MatchString (excluding ["tmp"]) op'
          = (op', None).
Proof.
  split; [reflexivity|].
  destruct (proj2 (filterMatches_keeps_unmatched
                     SimSearch.Compile SimSearch.MatchString (excluding ["tmp"])
                     (operation [change "d" "a.txt" "1.txt"; change "d" "b.tmp" "2.tmp";
                                 change "d" "c.txt" "3.txt"] false)) eq_refl)
    as (op' & Hf & _ & _ & _ & Hagain).
  exists op'. split; [exact Hf|]. split; [|exact Hagain].
  vm_compute in Hf. injection Hf as <-. reflexivity.
Defined.

Lemma setOptions_pairs_find_and_replace_witness :
  exists s' op',
    setOptions SimSearch.Compile 5 (SimSearch.flags ["a"; "b"; "c"] ["x"] [])
               (SimSearch.search [] [] [], operation [] false)
    = Ok (s', op', None)
    /\ findSlice s' = ["a"; "b"; "c"]
    /\ replacementSlice s' = ["x"; ""; ""]
    /\ searchRegex s' = "a".
Proof.
  destruct (proj2 (setOptions_pairs_find_and_replace
                     SimSearch.Compile 5 (SimSearch.flags ["a"; "b"; "c"] ["x"] [])
                     (SimSearch.search [] [] []) (operation [] false))
                  eq_refl ltac:(simpl; lia))
    as (s' & op' & err & Hs & _ & Hfind & Hrep & _).
  exists s', op'. vm_compute in Hs. injection Hs as <- <- <-.
  repeat split.
Defined.

Lemma simple_mode_options_witness :
  exists s' op',
    setSimpleModeOptions SimSearch.Compile (SimSearch.flags [] [] ["old"])
                         (SimSearch.search [] [] [], operation [] false)
    = (s', op', None)
    /\ findSlice s' = ["old"] /\ replacementSlice s' = [""]
    /\ exec op' = true /\ simpleMode op' = true /\ includeDir op' = true.
Proof.
  destruct (proj2 (simple_mode_options SimSearch.Compile (SimSearch.flags [] [] ["old"])
                     (SimSearch.search [] [] []) (operation [] false))
                  "old" [] eq_refl)
    as (s' & op' & err & Hs & _ & Hf & Hr & _ & He & Hm & Hi & _ & Herr).
  exists s', op'. rewrite Hs, Herr.
  split; [vm_compute in Hs; injection Hs as <- _ _; reflexivity|].
  repeat split; assumption.
Defined.

Lemma replacement_chain_restores_sources_witness :
  (forall s op, replacementSlice (SimSearch.replace s op).1.1 = replacementSlice s)
  /\ exists s' op',
       handleReplacementChain SimSearch.Compile SimSearch.replace
                              (SimSearch.search ["a"; "b"] ["x"; "y"] [])
                              (operation [change "d" "ab.txt" ""] false)
       = (s', op', None)
       /\ map Source (matches op') = ["ab.txt"]
       /\ map Target (matches op') = ["yxab.txt"]
       /\ Forall (fun ch => Source ch = originalSource ch) (matches op').
Proof.
  split; [reflexivity|].
  eexists _, _. split; [vm_compute; reflexivity|].
  split; [reflexivity|]. split; [reflexivity|].
  apply (proj1 (replacement_chain_restores_sources
                  SimSearch.Compile SimSearch.replace (fun s op => eq_refl)
                  (SimSearch.search ["a"; "b"] ["x"; "y"] [])
                  (operation [change "d" "ab.txt" ""] false))
               (withSearchRegex "b" (withReplacement "y"
                  (withSearchRegex "b" (withReplacement "x"
                     (SimSearch.search ["a"; "b"] ["x"; "y"] []))))));
    [simpl; lia|vm_compute; reflexivity].
Defined.

Lemma listings_are_distinct dir entries :
  SimSearch.ReadDir dir = inl entries -> NoDup (map Name entries).
Proof.
  unfold SimSearch.ReadDir. destruct (String.eqb dir "d").
  - intros H. injection H as <-. apply NoDup_ListNoDup. repeat constructor;
      simpl; intros H; repeat (destruct H as [H|H]; [discriminate|]); exact H.
  - destruct (String.eqb dir "."); [|discriminate].
    intros H. injection H as <-. apply NoDup_singleton.
Defined.

Lemma collected_paths_hold_no_duplicates_witness :
  collectPaths Filepath.Unix.Clean Filepath.Unix.Dir SimSearch.StatInfo SimSearch.ReadDir
               ["d/a.txt"; "d/./a.txt"; "d/b.txt"; "d"]
  = inl {["d" := [mkDirEntry "a.txt" false; mkDirEntry "b.txt" false]]}
  /\ forall paths,
       collectPaths Filepath.Unix.Clean Filepath.Unix.Dir SimSearch.StatInfo
                    SimSearch.ReadDir ["d/a.txt"; "d/./a.txt"; "d/b.txt"; "d"]
       = inl paths ->
       forall dir entries, paths !! dir = Some entries -> NoDup (map Name entries).
Proof.
  split; [vm_compute; reflexivity|].
  apply (proj1 (collected_paths_hold_no_duplicates
                  Filepath.Unix.Clean Filepath.Unix.Dir SimSearch.StatInfo
                  SimSearch.ReadDir listings_are_distinct
                  ["d/a.txt"; "d/./a.txt"; "d/b.txt"; "d"])).
Defined.

(** Two renames to the same new name, one to a name that exists and
    one to nothing. *)
Definition opReport : Operation :=
  operation [change "d" "a.txt" "x.txt"; change "d" "b.txt" "x.txt";
             change "d" "c.txt" "z.txt"; change "d" "e.txt" ""] false.

Lemma detection_without_fix_witness :
  exists o',
    Linux.detectConflicts ["d/a.txt"; "d/b.txt"; "d/c.txt"; "d/e.txt"; "d/z.txt"] 10
                          opReport = Ok o'
    /\ conflictsAt o' fileExists = [mkConflict "d/z.txt" "" ["d/c.txt"]]
    /\ conflictsAt o' emptyFilename = [mkConflict "d" "" ["d/e.txt"]]
    /\ conflictsAt o' overwritingNewPath
       = [mkConflict "d/x.txt" "" ["d/a.txt"; "d/b.txt"]].
Proof.
  eexists. split; [vm_compute; reflexivity|].
  match goal with
  | |- context [conflictsAt ?o _] =>
      destruct (detection_without_fix
                  Linux Filepath.Unix.Base Filepath.Unix.Ext Filepath.Unix.Dir
                  Filepath.Unix.Join Linux.EqualFold
                  (Linux.Stat ["d/a.txt"; "d/b.txt"; "d/c.txt"; "d/e.txt"; "d/z.txt"])
                  Linux.rangeKeys 10 opReport o eq_refl)
        as (Hk & Ho & _); [vm_compute; reflexivity|]
  end.
  split; [rewrite Hk by discriminate; vm_compute; reflexivity|].
  split; [rewrite Hk by discriminate; vm_compute; reflexivity|].
  rewrite Ho. vm_compute. reflexivity.
Defined.

(** ** Kinds of conflict that a run cannot record *)

Section Silent.

Variable GOOS : platform.
Variable filepath_Base : string -> string.
Variable filepath_Ext : string -> string.
Variable filepath_Dir : string -> string.
Variable filepath_Join : list string -> string.
Variable strings_EqualFold : string -> string -> bool.
Variable os_Stat : string -> option statError.
Variable rangeKeys : renamedMap -> list string.

Local Abbreviation detectLoop :=
  (detectLoop GOOS filepath_Base filepath_Ext filepath_Dir filepath_Join
              strings_EqualFold os_Stat).

(** The setting rules the kind [k] out: overwrites are allowed, for
    [fileExists]; the platform is not Windows, for [trailingPeriod];
    it is neither Windows nor macOS, for [invalidCharacters]. *)
Definition silent (allow : bool) (k : ConflictType) : Prop :=
  match k with
  | fileExists => allow = true
  | trailingPeriod => isWindows GOOS = false
  | invalidCharacters => isWindows GOOS = false /\ isDarwin GOOS = false
  | _ => False
  end.

Lemma at_addIf_other k' c cm k : k' <> k -> at_ (addIf k' c cm) k = at_ cm k.
Proof.
  intros Hne. rewrite at_addIf. destruct (decide (k' = k)); [congruence|].
  apply app_nil_r.
Qed.

Lemma silent_trailing allow k sp t tp i o d o1 :
  silent allow k ->
  checkTrailingPeriodConflict GOOS sp t tp i o = Ok (d, o1) ->
  at_ (conflicts o1) k = at_ (conflicts o) k.
Proof.
  intros Hs H. apply rec_trailing in H. rewrite H.
  destruct k; simpl in Hs; try contradiction;
    try (apply at_addIf_other; discriminate).
  rewrite Hs. reflexivity.
Qed.

Lemma silent_length allow k fuel sp t tp i o d o1 :
  silent allow k ->
  checkPathLengthConflict GOOS filepath_Base filepath_Ext filepath_Join
                          fuel sp t tp i o = Ok (d, o1) ->
  at_ (conflicts o1) k = at_ (conflicts o) k.
Proof.
  intros Hs H. apply rec_length in H. rewrite H.
  destruct k; simpl in Hs; try contradiction; apply at_addIf_other; discriminate.
Qed.

Lemma silent_forbidden allow k sp t tp i o d o1 :
  silent allow k ->
  checkForbiddenCharactersConflict GOOS sp t tp i o = Ok (d, o1) ->
  at_ (conflicts o1) k = at_ (conflicts o) k.
Proof.
  intros Hs H. apply rec_forbidden in H. rewrite H.
  destruct k; simpl in Hs; try contradiction;
    try (apply at_addIf_other; discriminate).
  destruct Hs as [Hw Hd]. unfold checkForbiddenCharacters. rewrite Hw, Hd. reflexivity.
Qed.

Lemma silent_exists k fuel sp tp ch i o d o1 :
  silent (allowOverwrites o) k ->
  checkPathExistsConflict filepath_Base filepath_Ext filepath_Dir filepath_Join
                          strings_EqualFold os_Stat fuel sp tp ch i o = Ok (d, o1) ->
  at_ (conflicts o1) k = at_ (conflicts o) k.
Proof.
  intros Hs H. apply rec_exists in H. rewrite H.
  destruct k; simpl in Hs; try contradiction;
    try (apply at_addIf_other; discriminate).
  rewrite Hs. cbn [negb]. rewrite andb_false_r. reflexivity.
Qed.

Lemma silent_detectLoop k fuel : forall i o rp o' rp',
  silent (allowOverwrites o) k ->
  detectLoop fuel i o rp = Ok (o', rp') ->
  at_ (conflicts o') k = at_ (conflicts o) k.
Proof.
  induction fuel as [|fuel IH]; intros i o rp o' rp' Hs H; simpl in H;
    [discriminate|].
  destruct (matches o !! i) as [ch|] eqn:Hch; [|inversion H; subst; reflexivity].
  destruct (String.eqb (Target ch) "." || String.eqb (Target ch) "").
  - apply rbind_Ok in H as (o1 & H1 & H).
    apply rbind_Ok in H as (o2 & H2 & H).
    assert (conflicts o2 = conflicts o1 /\ allowOverwrites o2 = allowOverwrites o1)
      as [C2 A2].
    { destruct (fixConflicts o1).
      - apply rbind_Ok in H2 as (o3 & H3 & H2).
        apply setMatch_Ok_inv in H3 as (c3 & _ & ->).
        apply setMatch_Ok_inv in H2 as (c2 & _ & ->). split; reflexivity.
      - inversion H2; subst. split; reflexivity. }
    apply setMatch_Ok_inv in H1 as (c1 & _ & ->).
    rewrite (IH _ _ _ _ _ ltac:(rewrite A2; exact Hs) H), C2.
    change (conflicts (withMatches ?m (addConflict emptyFilename ?c o)))
      with (addIf emptyFilename (Some c) (conflicts o)).
    destruct k; simpl in Hs; try contradiction; apply at_addIf_other; discriminate.
  - apply rbind_Ok in H as ([d1 o1] & H1 & H).
    pose proof (frame_checkTrailingPeriodConflict _ _ _ _ _ _ _ _ H1) as F1.
    pose proof (silent_trailing _ _ _ _ _ _ _ _ _ Hs H1) as S1.
    assert (silent (allowOverwrites o1) k) as Hs1
        by (rewrite <- (opFrame_allow _ _ F1); exact Hs).
    destruct (d1 && fixConflicts o1);
      [rewrite (IH _ _ _ _ _ Hs1 H); exact S1|].
    apply rbind_Ok in H as ([d2 o2] & H2 & H).
    pose proof (frame_checkPathLengthConflict _ _ _ _ _ _ _ _ _ _ _ _ H2) as F2.
    pose proof (silent_length _ _ _ _ _ _ _ _ _ _ Hs1 H2) as S2.
    assert (silent (allowOverwrites o2) k) as Hs2
        by (rewrite <- (opFrame_allow _ _ F2); exact Hs1).
    destruct (d2 && fixConflicts o2);
      [rewrite (IH _ _ _ _ _ Hs2 H), S2; exact S1|].
    apply rbind_Ok in H as ([d3 o3] & H3 & H).
    pose proof (frame_checkForbiddenCharactersConflict _ _ _ _ _ _ _ _ H3) as F3.
    pose proof (silent_forbidden _ _ _ _ _ _ _ _ _ Hs2 H3) as S3.
    assert (silent (allowOverwrites o3) k) as Hs3
        by (rewrite <- (opFrame_allow _ _ F3); exact Hs2).
    destruct (d3 && fixConflicts o3);
      [rewrite (IH _ _ _ _ _ Hs3 H), S3, S2; exact S1|].
    apply rbind_Ok in H as ([d4 o4] & H4 & H).
    pose proof (frame_checkPathExistsConflict _ _ _ _ _ _ _ _ _ _ _ _ _ _ H4) as F4.
    pose proof (silent_exists _ _ _ _ _ _ _ _ _ Hs3 H4) as S4.
    assert (silent (allowOverwrites o4) k) as Hs4
        by (rewrite <- (opFrame_allow _ _ F4); exact Hs3).
    destruct (d4 && fixConflicts o4);
      rewrite (IH _ _ _ _ _ Hs4 H), S4, S3, S2; exact S1.
Qed.

Lemma fixOverwriting_conflicts fuel : forall source o rp o' rp',
  fixOverwriting filepath_Base filepath_Ext filepath_Dir filepath_Join os_Stat
                 fuel source o rp = Ok (o', rp') ->
  conflicts o' = conflicts o.
Proof.
  induction fuel as [|fuel IH]; intros source o rp o' rp' H; simpl in H;
    [discriminate|].
  destruct source as [|item rest]; [inversion H; reflexivity|].
  destruct (matches o !! sourceIndex item) as [ch|]; [|discriminate].
  apply rbind_Ok in H as (t & _ & H).
  apply rbind_Ok in H as (o1 & H1 & H).
  apply rbind_Ok in H as (o2 & H2 & H).
  apply setMatch_conflicts in H1, H2.
  destruct (rp !! _); apply IH in H; congruence.
Qed.

Lemma silent_overwritingLoop k fuel keys : forall o rp o' rp',
  k <> overwritingNewPath ->
  overwritingLoop filepath_Base filepath_Ext filepath_Dir filepath_Join os_Stat
                  fuel keys o rp = Ok (o', rp') ->
  at_ (conflicts o') k = at_ (conflicts o) k.
Proof.
  induction keys as [|key keys IH]; intros o rp o' rp' Hk H; simpl in H;
    [inversion H; reflexivity|].
  apply rbind_Ok in H as ([oa rpa] & Ha & H).
  rewrite (IH _ _ _ _ Hk H). clear H. unfold overwritingAt in Ha.
  destruct (1 <? length _)%nat; [|inversion Ha; reflexivity].
  apply rbind_Ok in Ha as (o1 & H1 & Ha). apply markOverwriting_conflicts in H1.
  assert (conflicts oa
          = conflicts (addConflict overwritingNewPath
                         (mkConflict key "" (map sourcePath (default [] (rp !! key))))
                         o1)) as ->.
  { destruct (fixConflicts _); [|inversion Ha; reflexivity].
    apply fixOverwriting_conflicts in Ha. exact Ha. }
  change (conflicts (addConflict overwritingNewPath ?c o1))
    with (addIf overwritingNewPath (Some c) (conflicts o1)).
  rewrite at_addIf_other by congruence. rewrite H1. reflexivity.
Qed.

End Silent.

(** X17.  Whatever the auto-fix setting, a run of [detectConflicts]
    that returns has recorded no [fileExists] conflict when overwrites
    are allowed, no [trailingPeriod] conflict off Windows, and no
    [invalidCharacters] conflict on a platform that is neither Windows
    nor macOS. *)
Theorem conflicts_ruled_out_by_setting
        GOOS filepath_Base filepath_Ext filepath_Dir filepath_Join
        strings_EqualFold os_Stat rangeKeys fuel o o' :
  detectConflicts GOOS filepath_Base filepath_Ext filepath_Dir filepath_Join
                  strings_EqualFold os_Stat rangeKeys fuel o = Ok o' ->
  (allowOverwrites o = true -> conflictsAt o' fileExists = [])
  /\ (isWindows GOOS = false -> conflictsAt o' trailingPeriod = [])
  /\ (isWindows GOOS = false -> isDarwin GOOS = false ->
      conflictsAt o' invalidCharacters = []).
Proof.
  intros H. unfold detectConflicts, checkOverwritingPathConflict in H.
  apply rbind_Ok in H as ([o1 rp1] & H1 & H).
  apply rbind_Ok in H as ([o2 rp2] & H2 & H). inversion H; subst o2. clear H.
  assert (forall k, silent GOOS (allowOverwrites o) k -> conflictsAt o' k = []) as Hk.
  { intros k Hs.
    assert (k <> overwritingNewPath) as Hne by (intros ->; exact Hs).
    change (conflictsAt o' k) with (at_ (conflicts o') k).
    erewrite silent_overwritingLoop by eassumption.
    rewrite (silent_detectLoop GOOS _ _ _ _ _ _ k fuel 0 (withConflicts ∅ o) ∅
                               o1 rp1 Hs H1).
    reflexivity. }
  split; [|split].
  - intros Ha. apply Hk. exact Ha.
  - intros Hw. apply Hk. exact Hw.
  - intros Hw Hd. apply Hk. split; assumption.
Qed.

Lemma conflicts_ruled_out_by_setting_witness :
  exists o',
    Linux.detectConflicts ["d/a.txt"; "d/b.txt"] 10
      (mkOperation ∅ "" "" [change "d" "a.txt" "b.txt"] []
                   false false true false false true false false false) = Ok o'
    /\ map WillOverwrite (matches o') = [true]
    /\ conflictsAt o' fileExists = []
    /\ conflictsAt o' trailingPeriod = []
    /\ conflictsAt o' invalidCharacters = [].
Proof.
  eexists. split; [vm_compute; reflexivity|]. split; [vm_compute; reflexivity|].
  match goal with
  | |- conflictsAt ?o _ = _ /\ _ =>
      destruct (conflicts_ruled_out_by_setting
                  Linux Filepath.Unix.Base Filepath.Unix.Ext Filepath.Unix.Dir
                  Filepath.Unix.Join Linux.EqualFold (Linux.Stat ["d/a.txt"; "d/b.txt"])
                  Linux.rangeKeys 10
                  (mkOperation ∅ "" "" [change "d" "a.txt" "b.txt"] []
                               false false true false false true false false false) o)
        as (He & Ht & Hi); [vm_compute; reflexivity|]
  end.
  split; [apply He; reflexivity|]. split; [apply Ht; reflexivity|].
  apply Hi; reflexivity.
Defined.
